(** * jira-analytics: categorisation, grouping, velocity and work breakdown

    A shallow embedding of the class [ReportGenerator] of
    [report-generator.js].  JavaScript values are modelled as the code uses
    them: a Number is an IEEE-754 double (a rational rounded to 53 bits,
    NaN, or an infinity), a string-valued property is a string, [null] or
    [undefined], and issue objects live in a store that the code runs in
    together with the system clock and the time zone of the process. *)

From Stdlib Require Import ZArith QArith Qround Qabs Qpower Lia Lqa.
From Stdlib Require Import List Bool String Ascii Permutation.
From Stdlib Require Floats.
Import ListNotations.

Set Implicit Arguments.

(* ================================================================= *)
(** ** JavaScript numbers *)

Module Num.
Open Scope Q_scope.

Definition pow2 (k : Z) : Q := 2 ^ k.

(** [floor (log2 x)] for a positive rational. *)
Definition ilog2 (x : Q) : Z :=
  let k := (Z.log2 (Qnum x) - Z.log2 (Zpos (Qden x)))%Z in
  if Qle_bool (pow2 k) x then k else (k - 1)%Z.

(** The nearest integer, a tie going to the even neighbour. *)
Definition Qrne (y : Q) : Z :=
  let f := Qfloor y in
  match Qcompare (y - inject_Z f) (1 # 2) with
  | Lt => f
  | Gt => (f + 1)%Z
  | Eq => if Z.even f then f else (f + 1)%Z
  end.

(** Exponent of the last place of a double holding [x]: 53 significant
    bits, and never below the subnormal exponent -1074. *)
Definition fexp (x : Q) : Z := Z.max (ilog2 (Qabs x) - 52) (-1074).

(** Round to nearest, ties to even, in binary64 (exponent unbounded above). *)
Definition rnd (x : Q) : Q :=
  if Qeq_bool x 0 then 0
  else let e := fexp x in Qred (inject_Z (Qrne (x / pow2 e)) * pow2 e).

(** A Number.  The sign of a zero is not kept: this program never divides
    by zero and never prints one. *)
Inductive t := NaN | Inf (negative : bool) | Fin (x : Q).

(** The double that an exact result rounds to; past the largest finite
    double the result is an infinity. *)
Definition ofQ (x : Q) : t :=
  let r := rnd x in
  if Qle_bool (pow2 1024) (Qabs r) then Inf (Qle_bool x 0) else Fin r.

Definition ofZ (z : Z) : t := ofQ (inject_Z z).
Definition ofNat (n : nat) : t := ofZ (Z.of_nat n).

Definition isNeg (x : Q) : bool := negb (Qle_bool 0 x).

Definition neg (a : t) : t :=
  match a with NaN => NaN | Inf s => Inf (negb s) | Fin x => Fin (- x) end.

(** [a + b] *)
Definition add (a b : t) : t :=
  match a, b with
  | NaN, _ | _, NaN => NaN
  | Inf s, Inf s' => if Bool.eqb s s' then Inf s else NaN
  | Inf s, Fin _ | Fin _, Inf s => Inf s
  | Fin x, Fin y => ofQ (x + y)
  end.

(** [a - b] *)
Definition sub (a b : t) : t := add a (neg b).

(** [a * b] *)
Definition mul (a b : t) : t :=
  match a, b with
  | NaN, _ | _, NaN => NaN
  | Inf s, Inf s' => Inf (xorb s s')
  | Inf s, Fin y | Fin y, Inf s =>
      if Qeq_bool y 0 then NaN else Inf (xorb s (isNeg y))
  | Fin x, Fin y => ofQ (x * y)
  end.

(** [a / b] *)
Definition div (a b : t) : t :=
  match a, b with
  | NaN, _ | _, NaN => NaN
  | Inf _, Inf _ => NaN
  | Inf s, Fin y => Inf (xorb s (isNeg y))
  | Fin _, Inf _ => Fin 0
  | Fin x, Fin y =>
      if Qeq_bool y 0
      then (if Qeq_bool x 0 then NaN else Inf (isNeg x))
      else ofQ (x / y)
  end.

(** [a < b]; false as soon as one side is NaN. *)
Definition lt (a b : t) : bool :=
  match a, b with
  | NaN, _ | _, NaN => false
  | Inf s, Inf s' => s && negb s'
  | Inf s, Fin _ => s
  | Fin _, Inf s => negb s
  | Fin x, Fin y => negb (Qle_bool y x)
  end.

(** [a > b] *)
Definition gt (a b : t) : bool := lt b a.

(** [a === b] on Numbers *)
Definition eq (a b : t) : bool :=
  match a, b with
  | Inf s, Inf s' => Bool.eqb s s'
  | Fin x, Fin y => Qeq_bool x y
  | _, _ => false
  end.

(** Truthiness of a Number: neither a zero nor NaN. *)
Definition truthy (a : t) : bool :=
  match a with NaN => false | Inf _ => true | Fin x => negb (Qeq_bool x 0) end.

(** [Math.floor] *)
Definition floor (a : t) : t :=
  match a with Fin x => Fin (inject_Z (Qfloor x)) | _ => a end.

(** [Math.round]: the nearest integer, a tie going up. *)
Definition round (a : t) : t :=
  match a with Fin x => Fin (inject_Z (Qfloor (x + (1 # 2)))) | _ => a end.

(** The exact value of a double of the kernel, for comparing this model
    with the hardware's arithmetic. *)
Definition ofFloat (f : PrimFloat.float) : t :=
  match FloatOps.Prim2SF f with
  | SpecFloat.S754_zero _ => Fin 0
  | SpecFloat.S754_infinity s => Inf s
  | SpecFloat.S754_nan => NaN
  | SpecFloat.S754_finite s m e =>
      Fin (Qred (inject_Z (if s then Zneg m else Zpos m) * pow2 e))
  end.

End Num.

(* ================================================================= *)
(** ** JavaScript strings and nullish values *)

Module Js.
Open Scope string_scope.

(** A property that holds a string when it holds anything. *)
Inductive val := undefined | null | str (s : string).

(** Truthiness: [undefined], [null] and the empty string are falsy. *)
Definition truthy (v : val) : bool :=
  match v with
  | str s => negb (String.eqb s "")
  | _ => false
  end.

(** [a || b] *)
Definition or (a b : val) : val := if truthy a then a else b.

(** [(v || '')], which is a string whatever [v] was. *)
Definition orEmpty (v : val) : string :=
  match or v (str "") with str s => s | _ => "" end.

(** [a === b] *)
Definition strictEq (a b : val) : bool :=
  match a, b with
  | undefined, undefined | null, null => true
  | str s, str s' => String.eqb s s'
  | _, _ => false
  end.

Definition lowerChar (c : ascii) : ascii :=
  let n := nat_of_ascii c in
  if (65 <=? n)%nat && (n <=? 90)%nat then ascii_of_nat (n + 32) else c.

(** [s.toLowerCase()], on the ASCII letters. *)
Fixpoint toLowerCase (s : string) : string :=
  match s with
  | EmptyString => EmptyString
  | String c r => String (lowerChar c) (toLowerCase r)
  end.

(** [s.includes(sub)] *)
Fixpoint includes (s sub : string) : bool :=
  if String.prefix sub s then true
  else match s with
       | EmptyString => false
       | String _ r => includes r sub
       end.

(** [arr.slice(start, end)] with a missing [end] as [None]: a negative
    index counts from the end, and both are clamped to the array. *)
Definition sliceIndex (len i : Z) : Z :=
  if (i <? 0)%Z then Z.max (len + i) 0 else Z.min i len.

Definition slice {A} (l : list A) (start : Z) (stop : option Z) : list A :=
  let len := Z.of_nat (List.length l) in
  let k := sliceIndex len start in
  let final := match stop with None => len | Some e => sliceIndex len e end in
  firstn (Z.to_nat (final - k)) (skipn (Z.to_nat k) l).

End Js.

(* ================================================================= *)
(** ** Dates *)

(** The time zone of the process, by its offsets in ms.  [utcOffset t] is
    the offset of local time at the time value [t], so that the local time
    is [t + utcOffset t]; [localOffset l] is the offset under which the
    local time [l] is read back into a time value, [l - localOffset l],
    which for a local time that a transition skips or repeats is the
    offset before the transition. *)
Module Zone.
Record t := make { utcOffset : Z -> Z; localOffset : Z -> Z }.

(** A zone that keeps one offset. *)
Definition fixed (offset : Z) : t := make (fun _ => offset) (fun _ => offset).

Definition utc : t := fixed 0.
End Zone.

Module Date.
Open Scope Z_scope.

Definition msPerDay : Z := 1000 * 60 * 60 * 24.

(** [TimeClip]: a time value is an integer of at most 8.64e15 in
    magnitude, anything else is the invalid date. *)
Definition timeClip (t : Num.t) : Num.t :=
  match t with
  | Num.Fin x =>
      if Qle_bool (Qabs x) (inject_Z 8640000000000000)
      then Num.Fin (inject_Z (Qfloor x + (if Qle_bool 0 x then 0 else
                               if Qeq_bool x (inject_Z (Qfloor x)) then 0 else 1)))
      else Num.NaN
  | _ => Num.NaN
  end.

(** [date.setDate(date.getDate() - num)] on a Date of time value [tv].
    [getDate] is the day of the month of the local time, and [setDate]
    rebuilds the local time from the year and month of the old one, the
    new day of the month and the old time within the day, which is the
    old local time less [num] days of [msPerDay] each; that local time
    is read back in the zone and clipped.  The invalid date stays
    invalid. *)
Definition daysBack (zone : Zone.t) (tv : Num.t) (num : Z) : Num.t :=
  match tv with
  | Num.Fin x =>
      let t := Qfloor x in
      let local := t + Zone.utcOffset zone t in
      let moved := local - num * msPerDay in
      timeClip (Num.ofZ (moved - Zone.localOffset zone moved))
  | _ => Num.NaN
  end.

(** A timestamp property, by what [new Date(property)] makes of it. *)
Inductive stamp :=
| NoStamp            (* undefined, null or '': falsy *)
| BadStamp           (* a string that does not parse as a date *)
| At (ms : Z).       (* a string that parses to [ms] after the epoch *)

Definition digit (n : Z) : ascii := ascii_of_nat (48 + Z.to_nat (n mod 10)).

(** [n], non-negative, in exactly [w] decimal digits (the low ones). *)
Fixpoint digits (w : nat) (n : Z) : string :=
  match w with
  | O => EmptyString
  | S w' => (digits w' (n / 10) ++ String (digit n) EmptyString)%string
  end.

(** Year, month and day of a day number counted from 1970-01-01, in the
    proleptic Gregorian calendar. *)
Definition civil (days : Z) : Z * Z * Z :=
  let z := days + 719468 in
  let era := z / 146097 in
  let doe := z - era * 146097 in
  let yoe := (doe - doe / 1460 + doe / 36524 - doe / 146096) / 365 in
  let doy := doe - (365 * yoe + yoe / 4 - yoe / 100) in
  let mp := (5 * doy + 2) / 153 in
  let d := doy - (153 * mp + 2) / 5 + 1 in
  let m := if mp <? 10 then mp + 3 else mp - 9 in
  let y := yoe + era * 400 + (if m <=? 2 then 1 else 0) in
  (y, m, d).

(** [d.toISOString().split('T')[0]] of a valid time value: the UTC date,
    with the expanded six-digit year outside 0..9999. *)
Definition isoDate (ms : Z) : string :=
  let '(y, m, d) := civil (ms / msPerDay) in
  let year :=
    if (0 <=? y)%Z && (y <=? 9999)%Z then digits 4 y
    else ((if (y <? 0)%Z then "-" else "+") ++ digits 6 (Z.abs y))%string in
  (year ++ "-" ++ digits 2 m ++ "-" ++ digits 2 d)%string.

End Date.

(* ================================================================= *)
(** ** Issue objects *)

(** Progress of an epic, as the client attaches it to [issue.epic]. *)
Module Progress.
Record t := make { total : Num.t; completed : Num.t; percentage : Num.t }.
End Progress.

(** [issue.epic] and [issue.parent]: a reference to another issue. *)
Module Epic.
Record t := make {
  key : Js.val;
  summary : Js.val;
  url : Js.val;
  progress : option Progress.t
}.
End Epic.

(** An issue object: the properties this code reads or writes.  A property
    that an object does not have reads as [undefined] ([None] for the two
    object-valued ones, [NoStamp] for a timestamp). *)
Module Issue.
Record t := make {
  key : Js.val;
  summary : Js.val;
  status : Js.val;
  assignee : Js.val;
  priority : Js.val;
  issuetype : Js.val;
  type : Js.val;
  created : Date.stamp;
  updated : Date.stamp;
  resolution : Js.val;
  url : Js.val;
  epic : option Epic.t;
  parent : option Epic.t;
  lastUpdated : Js.val;
  reason : Js.val
}.
End Issue.

(* ================================================================= *)
(** ** The store, the clock and exceptions *)

(** A reference to an issue object in the store. *)
Definition ref := nat.

(** What a piece of code runs in: the time zone of the process, the
    successive readings of the system clock (in ms), how many were taken,
    the issue objects by address, and the next free address. *)
Record World := mkWorld {
  zone : Zone.t;
  clock : nat -> Z;
  reads : nat;
  heap : ref -> Issue.t;
  brk : ref
}.

Inductive Exn := RangeError.

Inductive Outcome (A : Type) :=
| Normal (a : A) (w : World)
| Throw (e : Exn).
Arguments Throw {A} e.

Definition M (A : Type) := World -> Outcome A.

Definition ret {A} (a : A) : M A := fun w => Normal a w.

Definition bind {A B} (m : M A) (k : A -> M B) : M B :=
  fun w => match m w with
           | Normal a w' => k a w'
           | Throw e => Throw e
           end.

Definition throw {A} (e : Exn) : M A := fun _ => Throw e.

Declare Scope js_scope.
Delimit Scope js_scope with js.
Notation "x <- m ;; k" := (bind m (fun x => k))
  (at level 61, m at next level, right associativity) : js_scope.

(** [new Date()]: the time value of the next clock reading. *)
Definition currentTime : M Num.t :=
  fun w => Normal (Date.timeClip (Num.ofZ (clock w (reads w))))
                  (mkWorld (zone w) (clock w) (S (reads w)) (heap w) (brk w)).

(** Reading the object behind a reference. *)
Definition load (r : ref) : M Issue.t := fun w => Normal (heap w r) w.

(** The store with the object [o] at the address [a]. *)
Definition write (h : ref -> Issue.t) (a : ref) (o : Issue.t) : ref -> Issue.t :=
  fun r => if Nat.eqb r a then o else h r.

(** An object literal: a fresh object, at an address of its own. *)
Definition alloc (o : Issue.t) : M ref :=
  fun w => Normal (brk w)
                  (mkWorld (zone w) (clock w) (reads w) (write (heap w) (brk w) o)
                           (S (brk w))).

(** [forEach]: the callback on each element in turn, threading what the
    callback mutates. *)
Fixpoint forEach {A S} (f : S -> A -> M S) (l : list A) (s : S) : M S :=
  match l with
  | [] => ret s
  | a :: l' => bind (f s a) (forEach f l')
  end.

(* ================================================================= *)
(** ** The [moment] shim of the report generator *)

Module Moment.

(** The object [moment(date)] returns; [d] is its Date, by time value. *)
Record t := make { d : Num.t }.

(** [moment(date)] on a timestamp property:
    [date ? new Date(date) : new Date()]. *)
Definition moment (date : Date.stamp) : M t :=
  match date with
  | Date.NoStamp => bind currentTime (fun now => ret (make now))
  | Date.BadStamp => ret (make Num.NaN)
  | Date.At ms => ret (make (Date.timeClip (Num.ofZ ms)))
  end.

(** [m.subtract(num, 'days')]: [setDate(getDate() - num)] on a copy, in
    the time zone of the process. *)
Definition subtract (m : t) (num : Z) : M t :=
  fun w => Normal (make (Date.daysBack (zone w) (d m) num)) w.

(** [m.isAfter(other)] *)
Definition isAfter (m other : t) : bool := Num.gt (d m) (d other).

(** [m.diff(other, 'days')] *)
Definition diff (m other : t) : Num.t :=
  let diffMs := Num.sub (d m) (d other) in
  Num.floor (Num.div diffMs (Num.ofZ Date.msPerDay)).

(** [m.format('YYYY-MM-DD')]; [toISOString] throws on the invalid date. *)
Definition format (m : t) : M string :=
  match d m with
  | Num.Fin x => ret (Date.isoDate (Qfloor x))
  | _ => throw RangeError
  end.

End Moment.

(* ================================================================= *)
(** ** [Map] and [Set], in insertion order *)

Module JsMap.
Section WithValue.
Variable V : Type.

Definition t := list (Js.val * V).

Fixpoint get (m : t) (k : Js.val) : option V :=
  match m with
  | [] => None
  | (k', v) :: m' => if Js.strictEq k' k then Some v else get m' k
  end.

Definition has (m : t) (k : Js.val) : bool :=
  match get m k with Some _ => true | None => false end.

(** [m.set(k, v)]: a present key keeps its place, a new one goes last. *)
Fixpoint set (m : t) (k : Js.val) (v : V) : t :=
  match m with
  | [] => [(k, v)]
  | (k', v') :: m' =>
      if Js.strictEq k' k then (k', v) :: m' else (k', v') :: set m' k v
  end.

(** Mutating, in place, the object that [m.get(k)] returns. *)
Fixpoint update (m : t) (k : Js.val) (f : V -> V) : t :=
  match m with
  | [] => []
  | (k', v) :: m' =>
      if Js.strictEq k' k then (k', f v) :: m' else (k', v) :: update m' k f
  end.

(** [Array.from(m.values())] *)
Definition values (m : t) : list V := List.map snd m.

End WithValue.
End JsMap.

Module JsSet.
Definition t := list Js.val.
Definition has (s : t) (k : Js.val) : bool := existsb (Js.strictEq k) s.
Definition add (s : t) (k : Js.val) : t := if has s k then s else s ++ [k].
End JsSet.

(* ================================================================= *)
(** ** The data the report generator builds *)

(** The four buckets of one level. *)
Module Category.
Record t := make {
  completed : list ref;
  inProgress : list ref;
  newIssues : list ref;
  needsAttention : list ref
}.
Definition empty : t := make [] [] [] [].
Definition pushCompleted (x : ref) (c : t) : t :=
  make (completed c ++ [x]) (inProgress c) (newIssues c) (needsAttention c).
Definition pushInProgress (x : ref) (c : t) : t :=
  make (completed c) (inProgress c ++ [x]) (newIssues c) (needsAttention c).
Definition pushNewIssues (x : ref) (c : t) : t :=
  make (completed c) (inProgress c) (newIssues c ++ [x]) (needsAttention c).
Definition pushNeedsAttention (x : ref) (c : t) : t :=
  make (completed c) (inProgress c) (newIssues c) (needsAttention c ++ [x]).
End Category.

(** The object [categorized] of [categorizeJiraCliIssues]; [all] is
    [subEpicItems.all], and the last four fields are the legacy arrays. *)
Module Categorized.
Record t := make {
  epics : Category.t;
  subEpicItems : Category.t;
  all : list ref;
  completed : list ref;
  inProgress : list ref;
  newIssues : list ref;
  needsAttention : list ref
}.
Definition empty : t := make Category.empty Category.empty [] [] [] [] [].

(** A push on [targetCategory], which is [epics] or [subEpicItems]. *)
Definition onTarget (isEpicLevel : bool) (f : Category.t -> Category.t) (c : t) : t :=
  if isEpicLevel
  then make (f (epics c)) (subEpicItems c) (all c)
            (completed c) (inProgress c) (newIssues c) (needsAttention c)
  else make (epics c) (f (subEpicItems c)) (all c)
            (completed c) (inProgress c) (newIssues c) (needsAttention c).
Definition pushAll (x : ref) (c : t) : t :=
  make (epics c) (subEpicItems c) (all c ++ [x])
       (completed c) (inProgress c) (newIssues c) (needsAttention c).
Definition pushCompleted (x : ref) (c : t) : t :=
  make (epics c) (subEpicItems c) (all c)
       (completed c ++ [x]) (inProgress c) (newIssues c) (needsAttention c).
Definition pushInProgress (x : ref) (c : t) : t :=
  make (epics c) (subEpicItems c) (all c)
       (completed c) (inProgress c ++ [x]) (newIssues c) (needsAttention c).
Definition pushNewIssues (x : ref) (c : t) : t :=
  make (epics c) (subEpicItems c) (all c)
       (completed c) (inProgress c) (newIssues c ++ [x]) (needsAttention c).
Definition pushNeedsAttention (x : ref) (c : t) : t :=
  make (epics c) (subEpicItems c) (all c)
       (completed c) (inProgress c) (newIssues c) (needsAttention c ++ [x]).
End Categorized.

(** What [categorizeJiraCliIssues] returns: the properties of
    [categorized] and three aliases of the legacy arrays. *)
Module CategorizedSet.
Record t := make {
  epics : Category.t;
  subEpicItems : Category.t;
  all : list ref;
  completed : list ref;
  inProgress : list ref;
  newIssues : list ref;
  needsAttention : list ref;
  completedIssues : list ref;
  inProgressIssues : list ref;
  issuesNeedingAttention : list ref
}.
End CategorizedSet.

(** A number-valued property: absent, null or a Number. *)
Inductive numval := noNumber | nullNumber | number (n : Num.t).

(** [ToNumber], as [+] applies it to its operands. *)
Definition toNumber (v : numval) : Num.t :=
  match v with
  | noNumber => Num.NaN
  | nullNumber => Num.Fin 0
  | number n => n
  end.

(** One period of the velocity data. *)
Module Sample.
Record t := make {
  sprint : Js.val;
  weekEnding : Js.val;
  storyPoints : numval;
  completedCount : numval
}.
End Sample.

Module DataPoint.
Record t := make { period : Js.val; value : numval }.
End DataPoint.

Module Velocity.
Record t := make {
  average : Num.t;
  unit : string;
  trend : string;
  data : list DataPoint.t
}.
End Velocity.

Module EpicInfo.
Record t := make {
  key : Js.val;
  summary : Js.val;
  url : Js.val;
  status : Js.val;
  priority : Js.val;
  assignee : Js.val;
  progress : option Progress.t
}.
End EpicInfo.

Module EpicGroup.
Record t := make { epic : EpicInfo.t; relatedIssues : list ref }.
End EpicGroup.

Module Grouping.
Record t := make {
  epicsWithIssues : list EpicGroup.t;
  unassociatedIssues : list ref
}.
End Grouping.

Module WorkBreakdown.
Record t := make {
  completedPercentage : Num.t;
  inProgressPercentage : Num.t;
  attentionPercentage : Num.t
}.
End WorkBreakdown.

(* ================================================================= *)
(** ** [class ReportGenerator] *)

Module ReportGenerator.
Open Scope string_scope.
Open Scope js_scope.

(** The object literal [normalizedIssue]. *)
Definition normalizedIssue (issue : Issue.t) : Issue.t :=
  Issue.make
    (Issue.key issue)
    (Issue.summary issue)
    (Issue.status issue)
    (Issue.assignee issue)
    (Issue.priority issue)
    (Js.or (Issue.issuetype issue) (Issue.type issue))
    Js.undefined
    (Issue.created issue)
    (Issue.updated issue)
    (Issue.resolution issue)
    (Issue.url issue)
    (Issue.epic issue)
    (Issue.parent issue)
    Js.undefined
    Js.undefined.

(** The object literal [attentionIssue]: the spread of [normalizedIssue]
    and two more properties. *)
Definition attentionIssue (normalized : Issue.t) (lastUpdated reason : string) : Issue.t :=
  Issue.make
    (Issue.key normalized)
    (Issue.summary normalized)
    (Issue.status normalized)
    (Issue.assignee normalized)
    (Issue.priority normalized)
    (Issue.issuetype normalized)
    (Issue.type normalized)
    (Issue.created normalized)
    (Issue.updated normalized)
    (Issue.resolution normalized)
    (Issue.url normalized)
    (Issue.epic normalized)
    (Issue.parent normalized)
    (Js.str lastUpdated)
    (Js.str reason).

Definition doneWords : list string := ["done"; "resolved"; "closed"; "fixed"].
Definition progressWords : list string :=
  ["in progress"; "in review"; "testing"; "code review"].

(** [words.some(s => status.includes(s))] *)
Definition someIncluded (words : list string) (status : string) : bool :=
  existsb (fun s => Js.includes status s) words.

(** The callback of [issues.forEach] in [categorizeJiraCliIssues]. *)
Definition categorizeIssue (now oneWeekAgo : Moment.t)
    (categorized : Categorized.t) (issue : ref) : M Categorized.t :=
  o <- load issue ;;
  created <- Moment.moment (Issue.created o) ;;
  updated <- Moment.moment (Issue.updated o) ;;
  let status := Js.toLowerCase (Js.orEmpty (Issue.status o)) in
  let issueType :=
    Js.toLowerCase (Js.orEmpty (Js.or (Issue.issuetype o) (Issue.type o))) in
  normalized <- alloc (normalizedIssue o) ;;
  let isEpicLevel :=
    String.eqb issueType "epic" || String.eqb issueType "initiative"
    || String.eqb issueType "theme" in
  let c1 :=
    if negb isEpicLevel then Categorized.pushAll normalized categorized
    else categorized in
  let c2 :=
    if Moment.isAfter created oneWeekAgo
    then Categorized.pushNewIssues normalized
           (Categorized.onTarget isEpicLevel (Category.pushNewIssues normalized) c1)
    else c1 in
  let c3 :=
    if Js.truthy (Issue.resolution o) && someIncluded doneWords status
    then Categorized.pushCompleted normalized
           (Categorized.onTarget isEpicLevel (Category.pushCompleted normalized) c2)
    else if someIncluded progressWords status
    then Categorized.pushInProgress normalized
           (Categorized.onTarget isEpicLevel (Category.pushInProgress normalized) c2)
    else c2 in
  let daysSinceUpdate := Moment.diff now updated in
  if Num.gt daysSinceUpdate (Num.Fin 3) && negb (Js.truthy (Issue.resolution o))
  then
    lastUpdated <- Moment.format updated ;;
    attention <- alloc (attentionIssue (normalizedIssue o) lastUpdated
                          (if Num.gt daysSinceUpdate (Num.Fin 7)
                           then "Stale (no updates for over a week)"
                           else "No recent updates")) ;;
    ret (Categorized.pushNeedsAttention attention
           (Categorized.onTarget isEpicLevel (Category.pushNeedsAttention attention) c3))
  else ret c3.

(** [categorizeJiraCliIssues(issues)] *)
Definition categorizeJiraCliIssues (issues : list ref) : M CategorizedSet.t :=
  now <- Moment.moment Date.NoStamp ;;
  today <- Moment.moment Date.NoStamp ;;
  oneWeekAgo <- Moment.subtract today 7 ;;
  categorized <- forEach (categorizeIssue now oneWeekAgo) issues Categorized.empty ;;
  ret (CategorizedSet.make
         (Categorized.epics categorized)
         (Categorized.subEpicItems categorized)
         (Categorized.all categorized)
         (Categorized.completed categorized)
         (Categorized.inProgress categorized)
         (Categorized.newIssues categorized)
         (Categorized.needsAttention categorized)
         (Categorized.completed categorized)
         (Categorized.inProgress categorized)
         (Categorized.needsAttention categorized)).

(** The specification's [categorize(issues, now?)], as this class answers
    it: the method declares the one parameter [issues], and a call drops
    an argument that has no parameter to land in. *)
Definition categorize (issues : list ref) (now : option Z) : M CategorizedSet.t :=
  categorizeJiraCliIssues issues.

(** [item.storyPoints && item.storyPoints > 0], as a condition. *)
Definition positivePoints (item : Sample.t) : bool :=
  match Sample.storyPoints item with
  | number n => Num.truthy n && Num.gt n (Num.Fin 0)
  | _ => false
  end.

(** [values.reduce((sum, val) => sum + val, 0)] *)
Definition sum (values : list numval) : Num.t :=
  fold_left (fun acc val => Num.add acc (toNumber val)) values (Num.Fin 0).

(** [xs.reduce((sum, val) => sum + val, 0) / xs.length] *)
Definition mean (xs : list numval) : Num.t :=
  Num.div (sum xs) (Num.ofNat (List.length xs)).

(** [calculateVelocityMetrics(velocityData)]; a missing argument is
    [None]. *)
Definition calculateVelocityMetrics (velocityData : option (list Sample.t)) : Velocity.t :=
  match velocityData with
  | None | Some [] => Velocity.make (Num.Fin 0) "items" "No data available" []
  | Some velocityData =>
      let hasStoryPoints := existsb positivePoints velocityData in
      let unit := if hasStoryPoints then "story points" else "items" in
      let values :=
        List.map (fun item => if hasStoryPoints then Sample.storyPoints item
                              else Sample.completedCount item) velocityData in
      let average :=
        Num.div (Num.round (Num.mul (Num.div (sum values) (Num.ofNat (List.length values)))
                                    (Num.Fin 10)))
                (Num.Fin 10) in
      let trend :=
        if (2 <=? List.length values)%nat then
          let recent := Js.slice values (-2) None in
          let older := Js.slice values 0 (Some (-2)%Z) in
          if (2 <=? List.length recent)%nat && (1 <=? List.length older)%nat then
            let recentAvg := mean recent in
            let olderAvg := mean older in
            if Num.gt recentAvg (Num.mul olderAvg (Num.ofQ (11 # 10))) then "Increasing"
            else if Num.lt recentAvg (Num.mul olderAvg (Num.ofQ (9 # 10))) then "Decreasing"
            else "Stable"
          else "Stable"
        else "Stable" in
      let formattedData :=
        List.map (fun item =>
                    DataPoint.make
                      (Js.or (Js.or (Sample.sprint item) (Sample.weekEnding item))
                             (Js.str "Period"))
                      (if hasStoryPoints then Sample.storyPoints item
                       else Sample.completedCount item)) velocityData in
      Velocity.make average unit trend formattedData
  end.

(** State of the loop of [groupIssuesByEpic]. *)
Record grouper := mkGrouper {
  epicGroups : JsMap.t EpicGroup.t;
  unassociatedIssues : list ref;
  processedIssues : JsSet.t
}.

(** The group that [epicGroups.set] stores for a parent first met. *)
Definition newGroup (epic : Epic.t) : EpicGroup.t :=
  EpicGroup.make
    (EpicInfo.make (Epic.key epic) (Epic.summary epic) (Epic.url epic)
                   (Js.str "Unknown") (Js.str "Unknown") Js.null
                   (Epic.progress epic))
    [].

(** [epicGroup.epic.status = ...; .priority = ...; .assignee = ...] *)
Definition setEpicInfo (issue : Issue.t) (g : EpicGroup.t) : EpicGroup.t :=
  let e := EpicGroup.epic g in
  EpicGroup.make
    (EpicInfo.make (EpicInfo.key e) (EpicInfo.summary e) (EpicInfo.url e)
                   (Issue.status issue) (Issue.priority issue) (Issue.assignee issue)
                   (EpicInfo.progress e))
    (EpicGroup.relatedIssues g).

(** The push on [relatedIssues], guarded by [find]. *)
Definition addRelated (store : ref -> Issue.t) (issue : ref) (g : EpicGroup.t) : EpicGroup.t :=
  match find (fun existing => Js.strictEq (Issue.key (store existing))
                                          (Issue.key (store issue)))
             (EpicGroup.relatedIssues g) with
  | Some _ => g
  | None => EpicGroup.make (EpicGroup.epic g) (EpicGroup.relatedIssues g ++ [issue])
  end.

(** The callback of [issues.forEach] in [groupIssuesByEpic]. *)
Definition groupIssue (store : ref -> Issue.t) (st : grouper) (issue : ref) : grouper :=
  let o := store issue in
  if JsSet.has (processedIssues st) (Issue.key o) then st
  else
    let processed := JsSet.add (processedIssues st) (Issue.key o) in
    match Issue.epic o with
    | Some epic =>
        if Js.truthy (Epic.key epic) then
          let epicKey := Epic.key epic in
          let groups :=
            if negb (JsMap.has (epicGroups st) epicKey)
            then JsMap.set (epicGroups st) epicKey (newGroup epic)
            else epicGroups st in
          if Js.strictEq (Issue.key o) epicKey
          then mkGrouper (JsMap.update groups epicKey (setEpicInfo o))
                         (unassociatedIssues st) processed
          else mkGrouper (JsMap.update groups epicKey (addRelated store issue))
                         (unassociatedIssues st) processed
        else mkGrouper (epicGroups st) (unassociatedIssues st ++ [issue]) processed
    | None => mkGrouper (epicGroups st) (unassociatedIssues st ++ [issue]) processed
    end.

(** [groupIssuesByEpic(issues)]: the issue objects are only read, so the
    store is an argument and comes back unchanged. *)
Definition groupIssuesByEpic (store : ref -> Issue.t) (issues : list ref) : Grouping.t :=
  let st := fold_left (groupIssue store) issues (mkGrouper [] [] []) in
  Grouping.make (JsMap.values (epicGroups st)) (unassociatedIssues st).

(** [calculateWorkBreakdown(categorized)] *)
Definition calculateWorkBreakdown (categorized : CategorizedSet.t) : WorkBreakdown.t :=
  let completed := Num.ofNat (List.length (CategorizedSet.completedIssues categorized)) in
  let inProgress := Num.ofNat (List.length (CategorizedSet.inProgressIssues categorized)) in
  let attention :=
    Num.ofNat (List.length (CategorizedSet.issuesNeedingAttention categorized)) in
  let total := Num.add (Num.add completed inProgress) attention in
  if Num.eq total (Num.Fin 0)
  then WorkBreakdown.make (Num.Fin 0) (Num.Fin 0) (Num.Fin 0)
  else WorkBreakdown.make
         (Num.round (Num.mul (Num.div completed total) (Num.Fin 100)))
         (Num.round (Num.mul (Num.div inProgress total) (Num.Fin 100)))
         (Num.round (Num.mul (Num.div attention total) (Num.Fin 100))).

End ReportGenerator.

(* ================================================================= *)
(** ** The conditions of [categorizeIssue], by name *)

Module Conditions.
Import ReportGenerator.

(** [(issue.status || '').toLowerCase()] *)
Definition lowerStatus (issue : Issue.t) : string :=
  Js.toLowerCase (Js.orEmpty (Issue.status issue)).

(** The condition of the completion branch. *)
Definition completionTest (issue : Issue.t) : bool :=
  Js.truthy (Issue.resolution issue) && someIncluded doneWords (lowerStatus issue).

(** The condition of the [else if] that follows it. *)
Definition inProgressTest (issue : Issue.t) : bool :=
  someIncluded progressWords (lowerStatus issue).

(** [isEpicLevel] *)
Definition isEpicLevel (o : Issue.t) : bool :=
  let issueType :=
    Js.toLowerCase (Js.orEmpty (Js.or (Issue.issuetype o) (Issue.type o))) in
  (String.eqb issueType "epic" || String.eqb issueType "initiative"
   || String.eqb issueType "theme")%string.

(** The condition of the attention branch. *)
Definition needsAttentionTest (now updated : Moment.t) (o : Issue.t) : bool :=
  Num.gt (Moment.diff now updated) (Num.Fin 3) && negb (Js.truthy (Issue.resolution o)).

End Conditions.

(* ================================================================= *)
(** ** The specification's words, for comparison *)

Module Spec.
Import ReportGenerator Conditions.
Open Scope string_scope.
Open Scope list_scope.

(** "round(100 x bucket-count / total-of-the-three-buckets)", taken
    exactly: the quotient of the two counts, a half rounding up. *)
Definition exactPercentage (count total : nat) : Num.t :=
  Num.round (Num.Fin (100 * inject_Z (Z.of_nat count) / inject_Z (Z.of_nat total))).

(** [Math.round((count / total) * 100)] as the doubles compute it: the
    quotient is rounded to a double, and so is its product with 100. *)
Definition doublePercentage (count total : Z) : Z :=
  Qfloor (Num.rnd (Num.rnd (inject_Z count / inject_Z total) * 100) + (1 # 2)).


(** "the last 2 samples" and "all samples except the last 2". *)
Definition lastTwo {A} (l : list A) : list A := skipn (List.length l - 2) l.
Definition exceptLastTwo {A} (l : list A) : list A := firstn (List.length l - 2) l.





(** Every issue that a grouping lists: the related issues of each group in
    turn, then the unassociated ones. *)
Definition placed (g : Grouping.t) : list ref :=
  flat_map EpicGroup.relatedIssues (Grouping.epicsWithIssues g)
  ++ Grouping.unassociatedIssues g.

(** [x] has the key of [r]. *)
Definition sameKey (store : ref -> Issue.t) (r x : ref) : bool :=
  Js.strictEq (Issue.key (store x)) (Issue.key (store r)).

(** The issue names itself as its epic. *)
Definition isOwnEpic (o : Issue.t) : Prop :=
  exists e, Issue.epic o = Some e /\ Js.truthy (Epic.key e) = true
            /\ Issue.key o = Epic.key e.

(** The lengths of the three arrays that [calculateWorkBreakdown] reads. *)
Definition lengthCompleted (cs : CategorizedSet.t) : Z :=
  Z.of_nat (List.length (CategorizedSet.completedIssues cs)).
Definition lengthInProgress (cs : CategorizedSet.t) : Z :=
  Z.of_nat (List.length (CategorizedSet.inProgressIssues cs)).
Definition lengthAttention (cs : CategorizedSet.t) : Z :=
  Z.of_nat (List.length (CategorizedSet.issuesNeedingAttention cs)).

(** An object without the two properties that only an attention record has. *)
Definition withoutAttention (o : Issue.t) : Issue.t :=
  Issue.make (Issue.key o) (Issue.summary o) (Issue.status o) (Issue.assignee o)
             (Issue.priority o) (Issue.issuetype o) (Issue.type o) (Issue.created o)
             (Issue.updated o) (Issue.resolution o) (Issue.url o) (Issue.epic o)
             (Issue.parent o) Js.undefined Js.undefined.

(** [o] is a record of [issue]: the copy that [categorizeIssue] makes of it,
    or that copy with [lastUpdated] and [reason] added. *)
Definition recordOf (o issue : Issue.t) : Prop :=
  withoutAttention o = normalizedIssue issue.

(** A bucket holds a record of [issue]. *)
Definition placedIn (w : World) (bucket : list ref) (issue : Issue.t) : Prop :=
  exists r, In r bucket /\ recordOf (heap w r) issue.

(** Everything in any array of a categorized set. *)
Definition bucketRefs (cs : CategorizedSet.t) : list ref :=
  CategorizedSet.all cs ++ CategorizedSet.completed cs ++ CategorizedSet.inProgress cs
  ++ CategorizedSet.newIssues cs ++ CategorizedSet.needsAttention cs
  ++ CategorizedSet.completedIssues cs ++ CategorizedSet.inProgressIssues cs
  ++ CategorizedSet.issuesNeedingAttention cs
  ++ Category.completed (CategorizedSet.epics cs)
  ++ Category.inProgress (CategorizedSet.epics cs)
  ++ Category.newIssues (CategorizedSet.epics cs)
  ++ Category.needsAttention (CategorizedSet.epics cs)
  ++ Category.completed (CategorizedSet.subEpicItems cs)
  ++ Category.inProgress (CategorizedSet.subEpicItems cs)
  ++ Category.newIssues (CategorizedSet.subEpicItems cs)
  ++ Category.needsAttention (CategorizedSet.subEpicItems cs).

(** The arrays of completed issues: the legacy one, its alias, and those
    of the two levels. *)
Definition completedBuckets (cs : CategorizedSet.t) : list (list ref) :=
  [CategorizedSet.completed cs; CategorizedSet.completedIssues cs;
   Category.completed (CategorizedSet.epics cs)
   ++ Category.completed (CategorizedSet.subEpicItems cs)].

(** The arrays of issues needing attention, and those of issues in
    progress. *)
Definition attentionBuckets (cs : CategorizedSet.t) : list ref :=
  CategorizedSet.needsAttention cs ++ CategorizedSet.issuesNeedingAttention cs
  ++ Category.needsAttention (CategorizedSet.epics cs)
  ++ Category.needsAttention (CategorizedSet.subEpicItems cs).

Definition inProgressBuckets (cs : CategorizedSet.t) : list ref :=
  CategorizedSet.inProgress cs ++ CategorizedSet.inProgressIssues cs
  ++ Category.inProgress (CategorizedSet.epics cs)
  ++ Category.inProgress (CategorizedSet.subEpicItems cs).

(** "resolution is non-null": the property holds a string. *)
Definition nonNull (v : Js.val) : bool :=
  match v with Js.str _ => true | _ => false end.

(** The completion test as section 4.2 words it. *)
Definition statedCompletionTest (issue : Issue.t) : bool :=
  nonNull (Issue.resolution issue) && someIncluded doneWords (lowerStatus issue).

End Spec.

(* ================================================================= *)
(** ** Inputs that the facts below are evaluated on *)

Module Inputs.
Open Scope string_scope.
Open Scope list_scope.

(** A sample that only carries a completed count, and one that only
    carries story points. *)
Definition completedOnly (n : Z) : Sample.t :=
  Sample.make Js.undefined Js.undefined noNumber (number (Num.Fin (inject_Z n))).
Definition pointsOnly (n : Z) : Sample.t :=
  Sample.make Js.undefined Js.undefined (number (Num.Fin (inject_Z n))) noNumber.

(** A story, or an epic, with nothing but a key, a status and maybe an
    epic reference. *)
Definition issueWith (key status : string) (epic : option string) : Issue.t :=
  Issue.make (Js.str key) Js.undefined (Js.str status) Js.null (Js.str "High")
             Js.undefined Js.undefined Date.NoStamp Date.NoStamp Js.null
             Js.undefined
             (match epic with
              | Some k => Some (Epic.make (Js.str k) (Js.str "Epic") Js.undefined None)
              | None => None
              end)
             None Js.undefined Js.undefined.

(** Three stories of epic E-1 followed by the epic itself, which, like any
    epic the client builds, has no epic reference of its own. *)
Definition storiesThenEpic (r : ref) : Issue.t :=
  match r with
  | 0%nat => issueWith "S-1" "To Do" (Some "E-1")
  | 1%nat => issueWith "S-2" "To Do" (Some "E-1")
  | 2%nat => issueWith "S-3" "To Do" (Some "E-1")
  | _ => issueWith "E-1" "In Progress" None
  end.

(** The same four issues when the epic does name itself. *)
Definition storiesThenSelfEpic (r : ref) : Issue.t :=
  match r with
  | 3%nat => issueWith "E-1" "In Progress" (Some "E-1")
  | _ => storiesThenEpic r
  end.

(** A categorized set with the given arrays under the three aliases that
    [calculateWorkBreakdown] reads. *)
Definition withBuckets (completed inProgress attention : list ref) : CategorizedSet.t :=
  CategorizedSet.make Category.empty Category.empty []
    completed inProgress [] attention completed inProgress attention.

(** A run with 23 completed issues, 17 in progress and none needing
    attention. *)
Definition run_23_17 : CategorizedSet.t :=
  withBuckets (seq 0 23) (seq 23 17) [].

(** An instant, in ms since the epoch (2023-11-14). *)
Definition noon : Z := 1700000000000.

(** A story with the given status, resolution, creation and update times. *)
Definition story (status : string) (resolution : Js.val) (created updated : Z) : Issue.t :=
  Issue.make (Js.str "A-1") (Js.str "Login fails") (Js.str status) Js.null (Js.str "High")
             (Js.str "Story") Js.undefined (Date.At created) (Date.At updated)
             resolution (Js.str "https://jira/browse/A-1") None None
             Js.undefined Js.undefined.

(** Done and resolved as Fixed, last updated 10 days before [noon]. *)
Definition doneFixed : Issue.t :=
  story "Done" (Js.str "Fixed") (noon - 30 * Date.msPerDay) (noon - 10 * Date.msPerDay).

(** A status that passes both word lists, with the empty string for a
    resolution, and with a resolution. *)
Definition doneTestingUnresolved : Issue.t :=
  story "Done testing" (Js.str "") (noon - 30 * Date.msPerDay) (noon - 1 * Date.msPerDay).

Definition closedTesting : Issue.t :=
  story "Closed (testing)" (Js.str "Fixed") (noon - 30 * Date.msPerDay) (noon - 1 * Date.msPerDay).

(** Created and last updated at [noon], unresolved. *)
Definition toDo : Issue.t :=
  story "To Do" Js.null noon noon.

(** A store with one issue object, at address 0, and a clock that shows
    [t] for its first [n] readings. *)
Definition oneIssue (o : Issue.t) (t : Z) (n : nat) : World :=
  mkWorld Zone.utc (fun i => if (i <? n)%nat then t else 0%Z) 0%nat (fun _ => o) 1%nat.

End Inputs.

(* ================================================================= *)
(** ** Loop invariants *)

Unset Implicit Arguments.

Module Invariants.
Import ReportGenerator Conditions.
Open Scope list_scope.

(** The key of the issue behind a reference. *)
Definition keyOf (store : ref -> Issue.t) (r : ref) : Js.val := Issue.key (store r).

(** The related issues of all the groups of a map, in map order. *)
Definition related (m : JsMap.t EpicGroup.t) : list ref :=
  flat_map EpicGroup.relatedIssues (JsMap.values m).

(** Every issue the loop has put somewhere so far. *)
Definition listed (st : grouper) : list ref :=
  related (epicGroups st) ++ unassociatedIssues st.

(** After the issues [done], in the state [st] of [groupIssuesByEpic]: the
    seen keys are those of [done]; no key is listed twice; a listed issue
    is the first of [done] with its key; and the first issue of each key
    is listed, unless it named itself as its epic. *)
Record groupInv (store : ref -> Issue.t) (done : list ref) (st : grouper) : Prop := {
  inv_seen : forall k, JsSet.has (processedIssues st) k = true
                       <-> exists r, In r done /\ keyOf store r = k;
  inv_nodup : NoDup (List.map (keyOf store) (listed st));
  inv_first : forall r, In r (listed st) -> find (Spec.sameKey store r) done = Some r;
  inv_all : forall r, In r done ->
            exists f, find (Spec.sameKey store r) done = Some f
                      /\ (In f (listed st) \/ Spec.isOwnEpic (store f))
}.

(** How many clock readings [moment] takes on a timestamp property. *)
Definition uses (s : Date.stamp) : nat :=
  match s with Date.NoStamp => 1 | _ => 0 end.

(** The moment that [moment] returns when the clock, if read, shows [t]. *)
Definition momentAt (s : Date.stamp) (t : Z) : Moment.t :=
  match s with
  | Date.NoStamp => Moment.make (Date.timeClip (Num.ofZ t))
  | Date.BadStamp => Moment.make Num.NaN
  | Date.At ms => Moment.make (Date.timeClip (Num.ofZ ms))
  end.

(** The attention record of an issue. *)
Definition attentionObject (now updated : Moment.t) (o : Issue.t) : Issue.t :=
  attentionIssue (normalizedIssue o)
    (match Moment.d updated with Num.Fin x => Date.isoDate (Qfloor x) | _ => ""%string end)
    (if Num.gt (Moment.diff now updated) (Num.Fin 7)
     then "Stale (no updates for over a week)"%string
     else "No recent updates"%string).

(** The pushes of [categorizeIssue] for an issue whose copy is at address
    [n], and whose attention record, if there is one, at [S n]. *)
Definition pushed (oneWeekAgo now created updated : Moment.t) (o : Issue.t) (n : ref)
    (c : Categorized.t) : Categorized.t :=
  let epicLevel := isEpicLevel o in
  let c1 := if negb epicLevel then Categorized.pushAll n c else c in
  let c2 :=
    if Moment.isAfter created oneWeekAgo
    then Categorized.pushNewIssues n
           (Categorized.onTarget epicLevel (Category.pushNewIssues n) c1)
    else c1 in
  let c3 :=
    if completionTest o
    then Categorized.pushCompleted n
           (Categorized.onTarget epicLevel (Category.pushCompleted n) c2)
    else if inProgressTest o
    then Categorized.pushInProgress n
           (Categorized.onTarget epicLevel (Category.pushInProgress n) c2)
    else c2 in
  if needsAttentionTest now updated o
  then Categorized.pushNeedsAttention (S n)
         (Categorized.onTarget epicLevel (Category.pushNeedsAttention (S n)) c3)
  else c3.

(** The world after [categorizeIssue] on the object [o]. *)
Definition stepWorld (now updated : Moment.t) (o : Issue.t) (w : World) : World :=
  let k := (uses (Issue.updated o) + (uses (Issue.created o) + reads w))%nat in
  let h1 := write (heap w) (brk w) (normalizedIssue o) in
  if needsAttentionTest now updated o
  then mkWorld (zone w) (clock w) k
               (write h1 (S (brk w)) (attentionObject now updated o)) (S (S (brk w)))
  else mkWorld (zone w) (clock w) k h1 (S (brk w)).

(** The arrays that take copies, those that take attention records, those
    of issues in progress, and the completed arrays of the two levels. *)
Definition plainRefs (c : Categorized.t) : list ref :=
  Categorized.all c ++ Categorized.completed c ++ Categorized.inProgress c
  ++ Categorized.newIssues c
  ++ Category.completed (Categorized.epics c) ++ Category.inProgress (Categorized.epics c)
  ++ Category.newIssues (Categorized.epics c)
  ++ Category.completed (Categorized.subEpicItems c)
  ++ Category.inProgress (Categorized.subEpicItems c)
  ++ Category.newIssues (Categorized.subEpicItems c).

Definition attentionRefs (c : Categorized.t) : list ref :=
  Categorized.needsAttention c ++ Category.needsAttention (Categorized.epics c)
  ++ Category.needsAttention (Categorized.subEpicItems c).

Definition progressRefs (c : Categorized.t) : list ref :=
  Categorized.inProgress c ++ Category.inProgress (Categorized.epics c)
  ++ Category.inProgress (Categorized.subEpicItems c).

Definition levelCompleted (c : Categorized.t) : list ref :=
  Category.completed (Categorized.epics c) ++ Category.completed (Categorized.subEpicItems c).

(** What the loop over [issues] does to a world [w] and a [categorized]
    object [c]: input objects stay as they are, every new entry of an array
    is a fresh object made from an input issue, issues in progress fail the
    completion test, attention records are unresolved, and every issue that
    passes the completion test has its copy in the completed arrays. *)
Record runFacts (issues : list ref) (c : Categorized.t) (w : World)
                (c' : Categorized.t) (w' : World) : Prop := {
  run_clock : clock w' = clock w;
  run_brk : (brk w <= brk w')%nat;
  run_reads : (reads w <= reads w' <= 2 * List.length issues + reads w)%nat;
  run_heap : forall a, (a < brk w)%nat -> heap w' a = heap w a;
  run_plain : forall x, In x (plainRefs c') ->
      In x (plainRefs c)
      \/ ((brk w <= x < brk w')%nat
          /\ exists src, In src issues /\ heap w' x = normalizedIssue (heap w src));
  run_attention : forall x, In x (attentionRefs c') ->
      In x (attentionRefs c)
      \/ ((brk w <= x < brk w')%nat
          /\ exists src lastUpdated reason,
               In src issues
               /\ heap w' x = attentionIssue (normalizedIssue (heap w src)) lastUpdated reason
               /\ Js.truthy (Issue.resolution (heap w src)) = false);
  run_progress : forall x, In x (progressRefs c') ->
      In x (progressRefs c)
      \/ ((brk w <= x)%nat /\ completionTest (heap w' x) = false);
  run_completed : forall src, In src issues -> completionTest (heap w src) = true ->
      exists x, In x (Categorized.completed c') /\ In x (levelCompleted c')
                /\ (brk w <= x)%nat /\ heap w' x = normalizedIssue (heap w src);
  run_mono : forall x,
      (In x (Categorized.completed c) -> In x (Categorized.completed c'))
      /\ (In x (levelCompleted c) -> In x (levelCompleted c'))
}.

(** The object that [categorizeJiraCliIssues] returns for the loop's
    [categorized]. *)
Definition resultOf (c : Categorized.t) : CategorizedSet.t :=
  CategorizedSet.make
    (Categorized.epics c) (Categorized.subEpicItems c) (Categorized.all c)
    (Categorized.completed c) (Categorized.inProgress c) (Categorized.newIssues c)
    (Categorized.needsAttention c)
    (Categorized.completed c) (Categorized.inProgress c) (Categorized.needsAttention c).

(** [now] and [oneWeekAgo] of a call in the world [w], and the world in
    which its loop starts. *)
Definition nowOf (w : World) : Moment.t := momentAt Date.NoStamp (clock w (reads w)).

Definition oneWeekAgoOf (w : World) : Moment.t :=
  Moment.make
    (Date.daysBack (zone w) (Moment.d (momentAt Date.NoStamp (clock w (S (reads w))))) 7).

Definition started (w : World) : World :=
  mkWorld (zone w) (clock w) (S (S (reads w))) (heap w) (brk w).

(** Two worlds with the same objects whose clocks agree on the next
    [readings] readings; two worlds with the same objects. *)
Definition sameInputs (readings : nat) (w w' : World) : Prop :=
  brk w = brk w'
  /\ (forall a, heap w a = heap w' a)
  /\ (forall i, (i < readings)%nat -> clock w (i + reads w) = clock w' (i + reads w')).

Definition sameStore (w w' : World) : Prop :=
  brk w = brk w' /\ (forall a, heap w a = heap w' a).

End Invariants.

(* ================================================================= *)
(** ** The Handlebars helpers *)

(** The helpers that [registerHandlebarsHelpers] registers. *)
Module Handlebars.
Open Scope string_scope.
Open Scope list_scope.

(** What a template can pass for [char]: a string or nothing, or an object,
    as the options object that Handlebars passes last is one. *)
Inductive arg := val (v : Js.val) | object.

(** [String(char || '=')], the separator of [join]. *)
Definition separator (char : arg) : string :=
  match char with
  | val v => if Js.truthy v then Js.orEmpty v else "="
  | object => "[object Object]"
  end.

(** [elements.join(separator)]; the limit an engine puts on the length
    of a string is not modelled. *)
Fixpoint join (elements : list string) (separator : string) : string :=
  match elements with
  | [] => ""
  | [x] => x
  | x :: rest => x ++ separator ++ join rest separator
  end.

(** [new Array(len)]: [len] holes, which [join] reads as empty strings;
    a length that is no integer from 0 to 2^32 - 1 is a RangeError. *)
Definition newArray (len : Num.t) : M (list string) :=
  match len with
  | Num.Fin q =>
      if Qeq_bool q (inject_Z (Qfloor q)) && (0 <=? Qfloor q)%Z && (Qfloor q <=? 2 ^ 32 - 1)%Z
      then ret (List.repeat "" (Z.to_nat (Qfloor q)))
      else throw RangeError
  | _ => throw RangeError
  end.

(** The helper [repeat]. *)
Definition repeat (times : numval) (char : arg) : M string :=
  match times with
  | number t =>
      if Num.lt t (Num.Fin 0) then ret ""
      else
        (holes <- newArray (Num.add (Num.floor (Num.div t (Num.Fin 10))) (Num.Fin 1)) ;;
         ret (join holes (separator char)))%js
  | _ => ret ""
  end.

(** The helper [subtract], on numbers. *)
Definition subtract (a b : Num.t) : Num.t := Num.sub a b.

(** The helper [hasItems], by the truthiness of what it returns; a
    missing array is [None]. *)
Definition hasItems {A} (array : option (list A)) : bool :=
  match array with
  | Some items => (0 <? List.length items)%nat
  | None => false
  end.

(** [n] copies of a string, one after the other. *)
Fixpoint repeated (n : nat) (s : string) : string :=
  match n with
  | O => ""
  | S n' => s ++ repeated n' s
  end.

End Handlebars.

(* ================================================================= *)
(** ** The trend analysis of the sub-epic items *)

(** The properties [totalItems], [completionRate] and [weeklyMetrics] of
    the object that [generateSubEpicTrendAnalysis] returns, which are
    computed from the lengths of the arrays and from the velocity data.
    The tallies [byType] and [byStatus], which the function keeps in plain
    objects keyed by strings of the issues, are left out. *)
Module TrendAnalysis.
Open Scope string_scope.
Open Scope list_scope.

(** One entry of [weeklyMetrics]. *)
Record metric := mkMetric {
  period : Js.val;
  completed : Num.t;
  storyPoints : Num.t
}.

(** [value || 0] on a number property. *)
Definition orZero (v : numval) : Num.t :=
  match v with
  | number n => if Num.truthy n then n else Num.Fin 0
  | _ => Num.Fin 0
  end.

(** [totalItems] *)
Definition totalItems (all : list ref) : Num.t := Num.ofNat (List.length all).

(** [completionRate], from [subEpicItems.completed] and [subEpicItems.all]. *)
Definition completionRate (completed all : list ref) : Num.t :=
  if Num.gt (Num.ofNat (List.length all)) (Num.Fin 0)
  then Num.round (Num.mul (Num.div (Num.ofNat (List.length completed))
                                   (Num.ofNat (List.length all)))
                          (Num.Fin 100))
  else Num.Fin 0.

(** [weeklyMetrics]; a missing [velocityData] is [None]. *)
Definition weeklyMetrics (velocityData : option (list Sample.t)) : list metric :=
  match velocityData with
  | Some (p :: l) =>
      List.map (fun period =>
                  mkMetric (Js.or (Js.or (Sample.weekEnding period) (Sample.sprint period))
                                  (Js.str "Period"))
                           (orZero (Sample.completedCount period))
                           (orZero (Sample.storyPoints period)))
               (p :: l)
  | _ => []
  end.

End TrendAnalysis.

(* ================================================================= *)
(** ** The counts of a report *)

(** The counts in the data that each report generator hands to its
    template. *)
Module ReportData.

(** [totalIssues: issues.length] *)
Definition totalIssues (issues : list ref) : Num.t := Num.ofNat (List.length issues).

(** [epicIssues] *)
Definition epicIssues (categorized : CategorizedSet.t) : Num.t :=
  let epics := CategorizedSet.epics categorized in
  Num.add (Num.add (Num.ofNat (List.length (Category.completed epics)))
                   (Num.ofNat (List.length (Category.inProgress epics))))
          (Num.ofNat (List.length (Category.newIssues epics))).

(** [subEpicIssues] *)
Definition subEpicIssues (categorized : CategorizedSet.t) : Num.t :=
  Num.ofNat (List.length (CategorizedSet.all categorized)).

End ReportData.

(* ================================================================= *)
(** ** The loop of [categorizeJiraCliIssues], step by step *)

Module Steps.
Import ReportGenerator Conditions Invariants.
Open Scope list_scope.

(** What the loop of [categorizeJiraCliIssues] does for one issue: the
    object it read, the address of the copy it made, and the two moments
    it built from the timestamps. *)
Record step := mkStep {
  src : Issue.t;
  addr : ref;
  created : Moment.t;
  updated : Moment.t
}.

(** The issue is new; the issue needs attention. *)
Definition isNew (oneWeekAgo : Moment.t) (s : step) : bool :=
  Moment.isAfter (created s) oneWeekAgo.

Definition needsAttention (now : Moment.t) (s : step) : bool :=
  needsAttentionTest now (updated s) (src s).

(** The steps of the loop over [issues], started with [rd] clock readings
    taken and [bk] the next free address. *)
Fixpoint stepsOf (now : Moment.t) (ck : nat -> Z) (hp : ref -> Issue.t)
    (rd : nat) (bk : ref) (issues : list ref) : list step :=
  match issues with
  | [] => []
  | r :: rest =>
      let o := hp r in
      let rd1 := (uses (Issue.created o) + rd)%nat in
      let rd2 := (uses (Issue.updated o) + rd1)%nat in
      let s := mkStep o bk (momentAt (Issue.created o) (ck rd))
                      (momentAt (Issue.updated o) (ck rd1)) in
      s :: stepsOf now ck hp rd2
             (if needsAttention now s then S (S bk) else S bk) rest
  end.

(** The objects a step builds: the copy, and the attention record if
    there is one, right after it. *)
Definition cells (now : Moment.t) (s : step) : list ref :=
  addr s :: (if needsAttention now s then [S (addr s)] else []).

(** The pushes of a list of steps. *)
Definition applySteps (oneWeekAgo now : Moment.t) (steps : list step)
    (c : Categorized.t) : Categorized.t :=
  fold_left (fun c s => pushed oneWeekAgo now (created s) (updated s) (src s) (addr s) c)
            steps c.

(** The copies of the steps that pass a test, and the attention records
    of those that need attention and pass it. *)
Definition copies (test : step -> bool) (steps : list step) : list ref :=
  List.map addr (filter test steps).

Definition records (now : Moment.t) (test : step -> bool) (steps : list step) : list ref :=
  List.map (fun s => S (addr s)) (filter (fun s => needsAttention now s && test s) steps).

Definition epicLevel (s : step) : bool := isEpicLevel (src s).
Definition completes (s : step) : bool := completionTest (src s).
Definition progresses (s : step) : bool :=
  negb (completionTest (src s)) && inProgressTest (src s).

(** The steps of a call in the world [w]. *)
Definition stepsIn (w : World) (issues : list ref) : list step :=
  stepsOf (nowOf w) (clock w) (heap w) (S (S (reads w))) (brk w) issues.

End Steps.

(* ================================================================= *)
(** ** Times, and what the time tests of the loop mean *)

Module Times.
Import ReportGenerator Conditions.
Open Scope string_scope.
Open Scope list_scope.

(** The largest time value of a Date, in ms. *)
Definition maxTime : Z := 8640000000000000.

(** A time value, and a timestamp that parses, within the range of a Date
    and not before the epoch. *)
Definition inRange (t : Z) : Prop := (0 <= t <= maxTime)%Z.

Definition stampInRange (s : Date.stamp) : Prop :=
  match s with Date.At t => inRange t | _ => True end.

(** A clock that never goes back and stays within the range of a Date. *)
Definition steady (w : World) : Prop :=
  (forall i j, (reads w <= i <= j)%nat -> (clock w i <= clock w j)%Z)
  /\ (forall i, (reads w <= i)%nat -> (clock w i <= maxTime)%Z).

(** A zone whose offsets from UTC stay within a day either way. *)
Definition mild (z : Zone.t) : Prop :=
  forall t, (- Date.msPerDay <= Zone.utcOffset z t <= Date.msPerDay)%Z
            /\ (- Date.msPerDay <= Zone.localOffset z t <= Date.msPerDay)%Z.

(** The local time in the zone [z] at the time [t], and the time at which
    the zone shows the same wall clock [num] calendar days earlier. *)
Definition localTime (z : Zone.t) (t : Z) : Z := (t + Zone.utcOffset z t)%Z.

Definition daysBefore (z : Zone.t) (t num : Z) : Z :=
  let moved := (localTime z t - num * Date.msPerDay)%Z in
  (moved - Zone.localOffset z moved)%Z.

(** The issue was created after the time [t]; an issue without a creation
    time counts as created at the moment it is looked at. *)
Definition createdAfter (t : Z) (o : Issue.t) : bool :=
  match Issue.created o with
  | Date.At c => (t <? c)%Z
  | Date.NoStamp => true
  | Date.BadStamp => false
  end.

(** The last update of the issue is at least [days] whole days before the
    time [t]. *)
Definition idle (days t : Z) (o : Issue.t) : bool :=
  match Issue.updated o with
  | Date.At u => (days * Date.msPerDay <=? t - u)%Z
  | _ => false
  end.

Definition unresolvedIdle (t : Z) (o : Issue.t) : bool :=
  negb (Js.truthy (Issue.resolution o)) && idle 4 t o.

(** The attention record of an issue at the time [t]. *)
Definition attentionRecord (t : Z) (o : Issue.t) : Issue.t :=
  attentionIssue (normalizedIssue o)
    (match Issue.updated o with Date.At u => Date.isoDate u | _ => "" end)
    (if idle 8 t o then "Stale (no updates for over a week)" else "No recent updates").

End Times.

(* ================================================================= *)
(** ** Where [groupIssuesByEpic] puts an issue *)

Module Placement.
Import ReportGenerator Spec.
Open Scope string_scope.
Open Scope list_scope.

(** [issue.epic && issue.epic.key], when truthy: the key of the epic that
    the issue refers to. *)
Definition epicKeyOf (o : Issue.t) : option Js.val :=
  match Issue.epic o with
  | Some e => if Js.truthy (Epic.key e) then Some (Epic.key e) else None
  | None => None
  end.

(** The epic information of a group is the one of an epic reference. *)
Definition describedBy (e : Epic.t) (g : EpicGroup.t) : Prop :=
  EpicInfo.key (EpicGroup.epic g) = Epic.key e
  /\ EpicInfo.summary (EpicGroup.epic g) = Epic.summary e
  /\ EpicInfo.url (EpicGroup.epic g) = Epic.url e
  /\ EpicInfo.progress (EpicGroup.epic g) = Epic.progress e.

(** Status, priority and assignee of a group are the placeholders, or
    those of the issue [o]. *)
Definition placeholders (g : EpicGroup.t) : Prop :=
  EpicInfo.status (EpicGroup.epic g) = Js.str "Unknown"
  /\ EpicInfo.priority (EpicGroup.epic g) = Js.str "Unknown"
  /\ EpicInfo.assignee (EpicGroup.epic g) = Js.null.

Definition statusOf (o : Issue.t) (g : EpicGroup.t) : Prop :=
  EpicInfo.status (EpicGroup.epic g) = Issue.status o
  /\ EpicInfo.priority (EpicGroup.epic g) = Issue.priority o
  /\ EpicInfo.assignee (EpicGroup.epic g) = Issue.assignee o.

(** A group under the key [k], after the issues [done]. *)
Record groupOk (store : ref -> Issue.t) (done : list ref) (k : Js.val) (g : EpicGroup.t)
  : Prop := {
  ok_key : EpicInfo.key (EpicGroup.epic g) = k;
  ok_truthy : Js.truthy k = true;
  ok_related : forall r, In r (EpicGroup.relatedIssues g) ->
               In r done /\ epicKeyOf (store r) = Some k /\ Issue.key (store r) <> k;
  ok_described : exists r e, In r done /\ Issue.epic (store r) = Some e /\ describedBy e g;
  ok_status : placeholders g
              \/ exists r, In r done /\ epicKeyOf (store r) = Some k
                           /\ Issue.key (store r) = k /\ statusOf (store r) g
}.

(** Where the loop of [groupIssuesByEpic] has put the issues [done]. *)
Record placeInv (store : ref -> Issue.t) (done : list ref) (st : grouper) : Prop := {
  place_keys : NoDup (List.map fst (epicGroups st));
  place_group : forall k g, In (k, g) (epicGroups st) -> groupOk store done k g;
  place_loose : forall r, In r (unassociatedIssues st) ->
                In r done /\ epicKeyOf (store r) = None;
  place_home : forall r, find (sameKey store r) done = Some r ->
               match epicKeyOf (store r) with
               | Some k => exists g, In (k, g) (epicGroups st)
                                     /\ (Issue.key (store r) = k
                                         \/ In r (EpicGroup.relatedIssues g))
               | None => In r (unassociatedIssues st)
               end
}.

End Placement.

(* ================================================================= *)
(** ** Measures of numbers and of results *)

Module Measures.
Import Num ReportGenerator.
Open Scope Q_scope.

(** A result that is negative or zero, the negative infinity included. *)
Definition nonpos (a : Num.t) : Prop :=
  match a with
  | Num.Fin x => x <= 0
  | Num.Inf s => s = true
  | Num.NaN => False
  end.

(** The values of the data points of a result. *)
Definition dataValues (v : Velocity.t) : list numval :=
  List.map DataPoint.value (Velocity.data v).



Definition total (counts : list Z) : Z := fold_right Z.add 0%Z counts.

End Measures.

(* ================================================================= *)
(** ** Inputs for the theorems on further behaviour *)

(** Inputs on which the theorems below are instantiated. *)
Module Samples.
Import Inputs.
Open Scope string_scope.
Open Scope list_scope.

(** A story in progress and unresolved, created two days and last
    updated five days before [noon]. *)
Definition quiet : Issue.t :=
  story "In Progress" Js.null (noon - 2 * Date.msPerDay) (noon - 5 * Date.msPerDay).

(** An epic without timestamps. *)
Definition payments : Issue.t :=
  Issue.make (Js.str "E-1") (Js.str "Payments") (Js.str "To Do") Js.null (Js.str "High")
             (Js.str "Epic") Js.undefined Date.NoStamp Date.NoStamp Js.null
             Js.undefined None None Js.undefined Js.undefined.

(** A store with three issues, at the addresses 0, 1 and 2, under a clock
    that stands at [noon]. *)
Definition board : World :=
  mkWorld Zone.utc (fun _ => noon) 0%nat
          (fun r => match r with
                    | 0%nat => doneFixed
                    | 1%nat => quiet
                    | _ => payments
                    end)
          3%nat.

Definition boardIssues : list ref := [0; 1; 2]%nat.

(** A zone that is four hours behind UTC until 2023-11-05T06:00Z and five
    hours behind from then on, as New York was. *)
Definition fallBack : Zone.t :=
  Zone.make (fun t => if (t <? 1699164000000)%Z then -14400000 else -18000000)%Z
            (fun l => if (l <? 1699149600000)%Z then -14400000 else -18000000)%Z.

(** 2023-11-08T12:00Z, three days after that change. *)
Definition afterChange : Z := 1699444800000.

(** A zone that is five hours behind UTC until 2023-03-12T07:00Z and four
    hours behind from then on. *)
Definition springForward : Zone.t :=
  Zone.make (fun t => if (t <? 1678604400000)%Z then -18000000 else -14400000)%Z
            (fun l => if (l <? 1678590000000)%Z then -18000000 else -14400000)%Z.

(** 2023-03-15T12:00Z, three days after that change. *)
Definition afterSpring : Z := 1678881600000.

(** A story created at 2023-11-01T11:30Z and updated a day before
    [afterChange]. *)
Definition lateStory : Issue.t :=
  story "To Do" Js.null 1698838200000 (afterChange - Date.msPerDay).

(** A store with that story at the address 0, in the zone [z], under a
    clock that stands at [afterChange]. *)
Definition lateBoard (z : Zone.t) : World :=
  mkWorld z (fun _ => afterChange) 0%nat (fun _ => lateStory) 1%nat.

(** Three periods with the same completed count. *)
Definition flat : list Sample.t := [completedOnly 8; completedOnly 8; completedOnly 8].

End Samples.

(* ================================================================= *)
(** * Facts *)

(** ** Rounding to a double *)

Module NumFacts.
Import Num.
Open Scope Q_scope.

Lemma pow2_pos k : 0 < pow2 k.
Proof. apply Qpower_0_lt. reflexivity. Qed.

Lemma pow2_add a b : pow2 (a + b) == pow2 a * pow2 b.
Proof. apply Qpower_plus. discriminate. Qed.

Lemma pow2_le a b : (a <= b)%Z -> pow2 a <= pow2 b.
Proof. intros H. apply Qpower_le_compat_l; [exact H | discriminate]. Qed.

Lemma pow2_lt_inv a b : pow2 a < pow2 b -> (a < b)%Z.
Proof. intros H. apply (Qpower_lt_compat_l_inv 2); [exact H | reflexivity]. Qed.

Lemma pow2_Z a : (0 <= a)%Z -> pow2 a == inject_Z (2 ^ a).
Proof. intros H. unfold pow2. now rewrite Zpower_Qpower. Qed.

Lemma Qrne_bounds y : (Qfloor y <= Qrne y <= Qfloor y + 1)%Z.
Proof.
  unfold Qrne.
  destruct (Qcompare _ _); [destruct (Z.even _) | |]; lia.
Qed.

Lemma Qrne_Z n : Qrne (inject_Z n) = n.
Proof.
  unfold Qrne. rewrite Qfloor_Z.
  destruct (Qcompare_spec (inject_Z n - inject_Z n) (1 # 2)) as [H | H | H];
    [exfalso; lra | reflexivity | exfalso; lra].
Qed.

Lemma Qrne_comp y z : y == z -> Qrne y = Qrne z.
Proof.
  intros E. unfold Qrne. rewrite (Qfloor_comp _ _ E).
  now rewrite (Qcompare_comp _ _ (Qminus_comp _ _ E _ _ (Qeq_refl _)) _ _ (Qeq_refl _)).
Qed.

Lemma Qrne_mono y z : y <= z -> (Qrne y <= Qrne z)%Z.
Proof.
  intros Hyz.
  pose proof (Qfloor_resp_le _ _ Hyz) as Hf.
  pose proof (Qrne_bounds y) as By. pose proof (Qrne_bounds z) as Bz.
  destruct (Z.eq_dec (Qfloor y) (Qfloor z)) as [E | NE]; [| lia].
  unfold Qrne in *. rewrite <- E in *.
  destruct (Qcompare_spec (y - inject_Z (Qfloor y)) (1 # 2)) as [Hy | Hy | Hy];
    destruct (Qcompare_spec (z - inject_Z (Qfloor y)) (1 # 2)) as [Hz | Hz | Hz];
    try lia; try (exfalso; lra); destruct (Z.even (Qfloor y)); lia.
Qed.

(** [ilog2] is the binade of its argument. *)
Lemma ilog2_spec x : 0 < x -> pow2 (ilog2 x) <= x < pow2 (ilog2 x + 1).
Proof.
  intros Hx. destruct x as [n d].
  assert (Hn : (0 < n)%Z) by (unfold Qlt in Hx; simpl in Hx; lia).
  unfold ilog2. cbn [Qnum Qden].
  set (a := Z.log2 n). set (b := Z.log2 (Zpos d)).
  destruct (Z.log2_spec n Hn) as [Ha1 Ha2]. fold a in Ha1, Ha2.
  destruct (Z.log2_spec (Zpos d) eq_refl) as [Hb1 Hb2]. fold b in Hb1, Hb2.
  assert (Ha0 : (0 <= a)%Z) by apply Z.log2_nonneg.
  assert (Hb0 : (0 <= b)%Z) by apply Z.log2_nonneg.
  assert (Hdpos : 0 < inject_Z (Zpos d)) by reflexivity.
  assert (Hxd : (n # d) * inject_Z (Zpos d) == inject_Z n).
  { rewrite (Qmake_Qdiv n d). field. discriminate. }
  pose proof (pow2_pos (a - b - 1)) as Hpk.
  pose proof (pow2_pos (a - b + 1)) as Hpk1.
  assert (Qa1 : pow2 a <= inject_Z n).
  { rewrite pow2_Z by lia. rewrite <- Zle_Qle. exact Ha1. }
  assert (Qa2 : inject_Z n < pow2 (a + 1)).
  { rewrite pow2_Z by lia. rewrite <- Zlt_Qlt.
    replace (a + 1)%Z with (Z.succ a) by lia. exact Ha2. }
  assert (Qb1 : pow2 b <= inject_Z (Zpos d)).
  { rewrite pow2_Z by lia. rewrite <- Zle_Qle. exact Hb1. }
  assert (Qb2 : inject_Z (Zpos d) < pow2 (b + 1)).
  { rewrite pow2_Z by lia. rewrite <- Zlt_Qlt.
    replace (b + 1)%Z with (Z.succ b) by lia. exact Hb2. }
  destruct (Qle_bool (pow2 (a - b)) (n # d)) eqn:Hc.
  - apply Qle_bool_iff in Hc. split; [exact Hc |].
    apply (Qmult_lt_r _ _ (inject_Z (Zpos d))); [exact Hdpos |].
    rewrite Hxd.
    eapply Qlt_le_trans; [exact Qa2 |].
    assert (E : pow2 (a + 1) == pow2 (a - b + 1) * pow2 b).
    { rewrite <- pow2_add. now replace (a - b + 1 + b)%Z with (a + 1)%Z by lia. }
    rewrite E. apply Qmult_le_l; [exact Hpk1 | exact Qb1].
  - assert (Hlt : n # d < pow2 (a - b)).
    { apply Qnot_le_lt. intros H. apply Qle_bool_iff in H. congruence. }
    replace (a - b - 1 + 1)%Z with (a - b)%Z by lia.
    split; [| exact Hlt].
    apply (Qmult_le_r _ _ (inject_Z (Zpos d))); [exact Hdpos |].
    rewrite Hxd.
    eapply Qle_trans; [| exact Qa1].
    assert (E : pow2 a == pow2 (a - b - 1) * pow2 (b + 1)).
    { rewrite <- pow2_add. now replace (a - b - 1 + (b + 1))%Z with a by lia. }
    rewrite E. apply Qmult_le_l; [exact Hpk |]. apply Qlt_le_weak. exact Qb2.
Qed.

Lemma ilog2_mono x y : 0 < x -> x <= y -> (ilog2 x <= ilog2 y)%Z.
Proof.
  intros Hx Hxy.
  destruct (ilog2_spec x Hx) as [Lx _].
  destruct (ilog2_spec y) as [_ Uy]; [lra |].
  assert (H : pow2 (ilog2 x) < pow2 (ilog2 y + 1)) by lra.
  apply pow2_lt_inv in H. lia.
Qed.

Lemma fexp_pos_eq x : 0 < x -> fexp x = Z.max (ilog2 x - 52) (-1074).
Proof.
  intros H. unfold fexp.
  destruct x as [n d].
  assert (Hn : (0 < n)%Z) by (unfold Qlt in H; simpl in H; lia).
  destruct n; try lia. reflexivity.
Qed.

Lemma rnd_pos_eq x :
  0 < x -> rnd x == inject_Z (Qrne (x / pow2 (fexp x))) * pow2 (fexp x).
Proof.
  intros H. unfold rnd.
  destruct (Qeq_bool x 0) eqn:E.
  - apply Qeq_bool_iff in E. lra.
  - apply Qred_correct.
Qed.

Lemma Qrne_scaled_le x n e :
  x <= inject_Z n * pow2 e -> (Qrne (x / pow2 e) <= n)%Z.
Proof.
  intros H. rewrite <- (Qrne_Z n). apply Qrne_mono.
  apply Qle_shift_div_r; [apply pow2_pos | exact H].
Qed.

Lemma Qrne_scaled_ge x n e :
  inject_Z n * pow2 e <= x -> (n <= Qrne (x / pow2 e))%Z.
Proof.
  intros H. rewrite <- (Qrne_Z n) at 1. apply Qrne_mono.
  apply Qle_shift_div_l; [apply pow2_pos | exact H].
Qed.

(** Rounding keeps the order: across a binade boundary the two results are
    separated by the power of two between them. *)
Lemma rnd_mono_pos x y : 0 < x -> x <= y -> rnd x <= rnd y.
Proof.
  intros Hx Hxy. assert (Hy : 0 < y) by lra.
  rewrite (rnd_pos_eq x Hx), (rnd_pos_eq y Hy).
  pose proof (ilog2_mono x y Hx Hxy) as Hl.
  rewrite (fexp_pos_eq x Hx), (fexp_pos_eq y Hy).
  set (ex := Z.max (ilog2 x - 52) (-1074)).
  set (ey := Z.max (ilog2 y - 52) (-1074)).
  assert (Hexy : (ex <= ey)%Z) by (unfold ex, ey; lia).
  pose proof (pow2_pos ex) as Pex. pose proof (pow2_pos ey) as Pey.
  destruct (Z.eq_dec ex ey) as [E | NE].
  - rewrite <- E. apply Qmult_le_compat_r; [| lra].
    rewrite <- Zle_Qle. apply Qrne_mono.
    apply Qmult_le_compat_r; [exact Hxy |].
    apply Qlt_le_weak, Qinv_lt_0_compat, Pex.
  - assert (Hey : ey = (ilog2 y - 52)%Z) by (unfold ex, ey in *; lia).
    destruct (ilog2_spec x Hx) as [_ Ux]. destruct (ilog2_spec y Hy) as [Ly _].
    apply Qle_trans with (pow2 (ey + 52)).
    + apply Qle_trans with (inject_Z (2 ^ 53) * pow2 ex).
      * apply Qmult_le_compat_r; [| lra]. rewrite <- Zle_Qle.
        apply Qrne_scaled_le.
        rewrite <- pow2_Z by lia. rewrite <- pow2_add.
        apply Qle_trans with (pow2 (ilog2 x + 1)); [lra |].
        apply pow2_le. unfold ex. lia.
      * rewrite <- pow2_Z by lia. rewrite <- pow2_add. apply pow2_le. lia.
    + apply Qle_trans with (inject_Z (2 ^ 52) * pow2 ey).
      * rewrite <- pow2_Z by lia. rewrite <- pow2_add. apply pow2_le. lia.
      * apply Qmult_le_compat_r; [| lra]. rewrite <- Zle_Qle.
        apply Qrne_scaled_ge.
        rewrite <- pow2_Z by lia. rewrite <- pow2_add.
        replace (52 + ey)%Z with (ilog2 y) by lia. exact Ly.
Qed.

Lemma rnd_nonneg x : 0 <= x -> 0 <= rnd x.
Proof.
  intros H. unfold rnd. destruct (Qeq_bool x 0) eqn:E; [lra |].
  rewrite Qred_correct.
  apply Qmult_le_0_compat; [| apply Qlt_le_weak, pow2_pos].
  change 0 with (inject_Z 0). rewrite <- Zle_Qle.
  apply Qrne_scaled_ge.
  assert (Z0 : inject_Z 0 * pow2 (fexp x) == 0) by ring.
  rewrite Z0. exact H.
Qed.

Lemma rnd_mono x y : 0 <= x -> x <= y -> rnd x <= rnd y.
Proof.
  intros Hx Hxy. destruct (Qeq_bool x 0) eqn:E.
  - unfold rnd at 1. rewrite E. apply rnd_nonneg. lra.
  - apply Qeq_bool_neq in E. apply rnd_mono_pos; [lra | exact Hxy].
Qed.

Lemma Qred_inject_Z n : Qred (inject_Z n) = inject_Z n.
Proof.
  unfold Qred, inject_Z.
  pose proof (Z.ggcd_gcd n 1) as G. pose proof (Z.ggcd_correct_divisors n 1) as D.
  destruct (Z.ggcd n 1) as [g [aa bb]]. simpl in G.
  rewrite Z.gcd_1_r in G. subst g. destruct D as [D1 D2].
  rewrite Z.mul_1_l in D1, D2. now subst.
Qed.

(** A small non-negative integer is a double: rounding leaves it alone. *)
Lemma rnd_exact x n :
  x == inject_Z n -> (0 <= n < 2 ^ 53)%Z -> rnd x = inject_Z n.
Proof.
  intros E Hn. unfold rnd.
  destruct (Qeq_bool x 0) eqn:E0.
  - apply Qeq_bool_iff in E0.
    assert (Hn0 : n = 0%Z) by (apply inject_Z_injective; rewrite <- E; exact E0).
    now subst.
  - apply Qeq_bool_neq in E0.
    assert (Hx : 0 < x).
    { rewrite E. change 0 with (inject_Z 0). rewrite <- Zlt_Qlt.
      assert (n <> 0)%Z; [| lia]. intros ->. apply E0. exact E. }
    rewrite <- (Qred_inject_Z n). apply Qred_complete.
    rewrite (fexp_pos_eq x Hx).
    destruct (ilog2_spec x Hx) as [L _].
    assert (Hl : (ilog2 x < 53)%Z).
    { apply pow2_lt_inv. eapply Qle_lt_trans; [exact L |].
      rewrite E. rewrite pow2_Z by lia. rewrite <- Zlt_Qlt. lia. }
    set (e := Z.max (ilog2 x - 52) (-1074)).
    assert (He : (e <= 0)%Z) by (unfold e; lia).
    assert (Hs : x / pow2 e == inject_Z (n * 2 ^ (- e))).
    { rewrite inject_Z_mult, <- pow2_Z by lia. rewrite E.
      unfold Qdiv, pow2. now rewrite Qpower_opp. }
    rewrite (Qrne_comp _ _ Hs), Qrne_Z.
    rewrite inject_Z_mult, <- pow2_Z by lia.
    pose proof (pow2_pos e) as Pe.
    unfold pow2 in *. rewrite Qpower_opp. field. lra.
Qed.

Lemma pow2_1024_big n : (0 <= n < 2 ^ 53)%Z -> inject_Z n < pow2 1024.
Proof.
  intros H. rewrite pow2_Z by lia. rewrite <- Zlt_Qlt.
  assert (2 ^ 53 < 2 ^ 1024)%Z by (apply Z.pow_lt_mono_r; lia). lia.
Qed.

Lemma ofQ_exact x n :
  x == inject_Z n -> (0 <= n < 2 ^ 53)%Z -> ofQ x = Fin (inject_Z n).
Proof.
  intros E Hn. unfold ofQ. rewrite (rnd_exact x n E Hn).
  destruct (Qle_bool (pow2 1024) (Qabs (inject_Z n))) eqn:B; [| reflexivity].
  apply Qle_bool_iff in B. rewrite Qabs_pos in B.
  - pose proof (pow2_1024_big n Hn). lra.
  - change 0 with (inject_Z 0). rewrite <- Zle_Qle. lia.
Qed.

Lemma ofNat_exact n : (Z.of_nat n < 2 ^ 53)%Z -> ofNat n = Fin (inject_Z (Z.of_nat n)).
Proof. intros H. apply ofQ_exact; [reflexivity | lia]. Qed.

(** An exact result between 0 and a small integer rounds to a double in
    the same range. *)
Lemma ofQ_bounded x b :
  0 <= x -> x <= inject_Z b -> (0 <= b < 2 ^ 53)%Z ->
  ofQ x = Fin (rnd x) /\ 0 <= rnd x <= inject_Z b.
Proof.
  intros H0 Hb Hr.
  assert (R : 0 <= rnd x <= inject_Z b).
  { split; [now apply rnd_nonneg |].
    rewrite <- (rnd_exact (inject_Z b) b (Qeq_refl _) Hr). now apply rnd_mono. }
  split; [| exact R].
  unfold ofQ. destruct (Qle_bool (pow2 1024) (Qabs (rnd x))) eqn:B; [| reflexivity].
  apply Qle_bool_iff in B. rewrite Qabs_pos in B by apply R.
  pose proof (pow2_1024_big b Hr). lra.
Qed.

End NumFacts.

(** ** Rounding error *)

Module RoundingFacts.
Import Num NumFacts Measures.
Open Scope Q_scope.

Lemma Qrne_error y : - (1 # 2) <= inject_Z (Qrne y) - y <= 1 # 2.
Proof.
  pose proof (Qfloor_le y) as L. pose proof (Qlt_floor y) as U.
  rewrite inject_Z_plus in U. change (inject_Z 1) with 1 in U.
  unfold Qrne.
  destruct (Qcompare_spec (y - inject_Z (Qfloor y)) (1 # 2)) as [H | H | H].
  - destruct (Z.even (Qfloor y)).
    + lra.
    + rewrite inject_Z_plus. change (inject_Z 1) with 1. lra.
  - lra.
  - rewrite inject_Z_plus. change (inject_Z 1) with 1. lra.
Qed.

(** Rounding moves a positive number by at most half a unit in its last
    place. *)
Lemma rnd_error x :
  0 < x -> - ((1 # 2) * pow2 (fexp x)) <= rnd x - x <= (1 # 2) * pow2 (fexp x).
Proof.
  intros H. rewrite (rnd_pos_eq x H).
  set (p := pow2 (fexp x)). pose proof (pow2_pos (fexp x)) as P. fold p in P.
  pose proof (Qrne_error (x / p)) as E.
  set (z := inject_Z (Qrne (x / p))) in *.
  assert (X : x == (x / p) * p) by (field; lra).
  set (y := x / p) in *.
  assert (D : z * p - x == (z - y) * p) by (rewrite X at 1; ring).
  rewrite D. split.
  - assert ((- (1 # 2)) * p <= (z - y) * p) by (apply Qmult_le_compat_r; lra). lra.
  - assert ((z - y) * p <= (1 # 2) * p) by (apply Qmult_le_compat_r; lra). lra.
Qed.

Lemma fexp_small x k :
  0 < x -> x < pow2 (k + 1) -> (-1074 <= k - 52)%Z -> pow2 (fexp x) <= pow2 (k - 52).
Proof.
  intros H U K. rewrite (fexp_pos_eq x H). apply pow2_le.
  destruct (ilog2_spec x H) as [L _].
  assert (I : pow2 (ilog2 x) < pow2 (k + 1)) by lra.
  apply pow2_lt_inv in I. lia.
Qed.

Lemma rnd_error_small x k :
  0 <= x -> x < pow2 (k + 1) -> (-1074 <= k - 52)%Z ->
  - ((1 # 2) * pow2 (k - 52)) <= rnd x - x <= (1 # 2) * pow2 (k - 52).
Proof.
  intros H U K. pose proof (pow2_pos (k - 52)) as P.
  destruct (Qeq_bool x 0) eqn:E.
  - assert (R : rnd x = 0) by (unfold rnd; now rewrite E).
    rewrite R. apply Qeq_bool_iff in E. lra.
  - apply Qeq_bool_neq in E. assert (X : 0 < x) by lra.
    pose proof (rnd_error x X). pose proof (fexp_small x k X U K). lra.
Qed.






End RoundingFacts.

(* ================================================================= *)
(** ** Work breakdown *)

Module BreakdownFacts.
Import Num NumFacts ReportGenerator.
Open Scope Q_scope.

(** One percentage, once the two lengths are known to be doubles. *)
Lemma share_bounds (n t : Z) :
  (0 <= n <= t)%Z -> (0 < t < 2 ^ 53)%Z ->
  exists k : Z,
    round (mul (div (Fin (inject_Z n)) (Fin (inject_Z t))) (Fin 100))
      = Fin (inject_Z k)
    /\ k = Qfloor (rnd (rnd (inject_Z n / inject_Z t) * 100) + (1 # 2))
    /\ (0 <= k <= 100)%Z.
Proof.
  intros Hn Ht.
  assert (Tpos : 0 < inject_Z t).
  { change 0 with (inject_Z 0). rewrite <- Zlt_Qlt. lia. }
  assert (Nnn : 0 <= inject_Z n).
  { change 0 with (inject_Z 0). rewrite <- Zle_Qle. lia. }
  assert (Nle : inject_Z n <= inject_Z t) by (rewrite <- Zle_Qle; lia).
  assert (Q0 : 0 <= inject_Z n / inject_Z t).
  { apply Qle_shift_div_l; [exact Tpos | lra]. }
  assert (Q1 : inject_Z n / inject_Z t <= inject_Z 1).
  { apply Qle_shift_div_r; [exact Tpos |]. change (inject_Z 1) with 1. lra. }
  destruct (ofQ_bounded _ 1 Q0 Q1) as [E1 [L1 U1]]; [lia |].
  change (inject_Z 1) with 1 in U1.
  assert (P0 : 0 <= rnd (inject_Z n / inject_Z t) * 100) by lra.
  assert (P1 : rnd (inject_Z n / inject_Z t) * 100 <= inject_Z 100).
  { change (inject_Z 100) with 100. lra. }
  destruct (ofQ_bounded _ 100 P0 P1) as [E2 [L2 U2]]; [lia |].
  change (inject_Z 100) with 100 in U2.
  eexists. split; [| split; [reflexivity |]].
  - unfold div. destruct (Qeq_bool (inject_Z t) 0) eqn:Z0.
    + apply Qeq_bool_iff in Z0. lra.
    + rewrite E1. unfold mul. rewrite E2. reflexivity.
  - set (y := rnd (rnd (inject_Z n / inject_Z t) * 100)) in *.
    split.
    + assert (H : (Qfloor 0 <= Qfloor (y + (1 # 2)))%Z) by (apply Qfloor_resp_le; lra).
      exact H.
    + assert (H : (Qfloor (y + (1 # 2)) <= Qfloor (inject_Z 100 + (1 # 2)))%Z).
      { apply Qfloor_resp_le. change (inject_Z 100) with 100. lra. }
      exact H.
Qed.

Lemma total_exact (cs : CategorizedSet.t) :
  (Spec.lengthCompleted cs < 2 ^ 32)%Z -> (Spec.lengthInProgress cs < 2 ^ 32)%Z ->
  (Spec.lengthAttention cs < 2 ^ 32)%Z ->
  add (add (ofNat (List.length (CategorizedSet.completedIssues cs)))
           (ofNat (List.length (CategorizedSet.inProgressIssues cs))))
      (ofNat (List.length (CategorizedSet.issuesNeedingAttention cs)))
  = Fin (inject_Z (Spec.lengthCompleted cs + Spec.lengthInProgress cs + Spec.lengthAttention cs)).
Proof.
  unfold Spec.lengthCompleted, Spec.lengthInProgress, Spec.lengthAttention.
  set (c := Z.of_nat _). set (p := Z.of_nat _). set (a := Z.of_nat _).
  intros Hc Hp Ha.
  assert (B : (2 ^ 32 * 4 < 2 ^ 53)%Z) by reflexivity.
  assert (Nc : (0 <= c)%Z) by apply Nat2Z.is_nonneg.
  assert (Np : (0 <= p)%Z) by apply Nat2Z.is_nonneg.
  assert (Na : (0 <= a)%Z) by apply Nat2Z.is_nonneg.
  rewrite !ofNat_exact by (fold c; fold p; fold a; lia).
  fold c. fold p. fold a.
  unfold add at 2. rewrite (ofQ_exact (inject_Z c + inject_Z p) (c + p)).
  - unfold add. apply ofQ_exact; [| lia]. now rewrite <- inject_Z_plus.
  - now rewrite <- inject_Z_plus.
  - lia.
Qed.

(** C9 (amended).  For every categorized set whose three arrays have a
    length a JavaScript array can have, [calculateWorkBreakdown] returns
    three zeros when the arrays are all empty, and otherwise, for each
    bucket, [Math.round((count / total) * 100)] evaluated in double
    arithmetic, quotient first; every percentage is an integer between 0
    and 100, so never NaN nor an infinity. *)
Theorem calculateWorkBreakdown_percentages (cs : CategorizedSet.t) :
  (Spec.lengthCompleted cs < 2 ^ 32)%Z ->
  (Spec.lengthInProgress cs < 2 ^ 32)%Z ->
  (Spec.lengthAttention cs < 2 ^ 32)%Z ->
  let total := (Spec.lengthCompleted cs + Spec.lengthInProgress cs + Spec.lengthAttention cs)%Z in
  let r := calculateWorkBreakdown cs in
  (total = 0%Z -> r = WorkBreakdown.make (Fin 0) (Fin 0) (Fin 0))
  /\ (total <> 0%Z ->
      r = WorkBreakdown.make
            (Fin (inject_Z (Spec.doublePercentage (Spec.lengthCompleted cs) total)))
            (Fin (inject_Z (Spec.doublePercentage (Spec.lengthInProgress cs) total)))
            (Fin (inject_Z (Spec.doublePercentage (Spec.lengthAttention cs) total))))
  /\ exists x y z : Z,
      r = WorkBreakdown.make (Fin (inject_Z x)) (Fin (inject_Z y)) (Fin (inject_Z z))
      /\ (0 <= x <= 100)%Z /\ (0 <= y <= 100)%Z /\ (0 <= z <= 100)%Z.
Proof.
  intros Hc Hp Ha total r.
  pose proof (total_exact cs Hc Hp Ha) as T. fold total in T.
  assert (Nc : (0 <= Spec.lengthCompleted cs)%Z) by apply Nat2Z.is_nonneg.
  assert (Np : (0 <= Spec.lengthInProgress cs)%Z) by apply Nat2Z.is_nonneg.
  assert (Na : (0 <= Spec.lengthAttention cs)%Z) by apply Nat2Z.is_nonneg.
  assert (B : (2 ^ 32 * 4 < 2 ^ 53)%Z) by reflexivity.
  destruct (Z.eq_dec total 0) as [Z0 | NZ].
  - assert (R : r = WorkBreakdown.make (Fin 0) (Fin 0) (Fin 0)).
    { unfold r, calculateWorkBreakdown. rewrite T, Z0. reflexivity. }
    split; [intros _; exact R |]. split; [intros C; contradiction |].
    exists 0%Z, 0%Z, 0%Z. rewrite R. repeat split; lia.
  - assert (Tp : (0 < total < 2 ^ 53)%Z) by (unfold total in *; lia).
    destruct (share_bounds (Spec.lengthCompleted cs) total) as (x & Ex & Vx & Bx);
      [unfold total; lia | exact Tp |].
    destruct (share_bounds (Spec.lengthInProgress cs) total) as (y & Ey & Vy & By);
      [unfold total; lia | exact Tp |].
    destruct (share_bounds (Spec.lengthAttention cs) total) as (z & Ez & Vz & Bz);
      [unfold total; lia | exact Tp |].
    assert (R : r = WorkBreakdown.make (Fin (inject_Z x)) (Fin (inject_Z y))
                                        (Fin (inject_Z z))).
    { unfold r, calculateWorkBreakdown. rewrite T.
      assert (E0 : eq (Fin (inject_Z total)) (Fin 0) = false).
      { unfold eq. destruct (Qeq_bool (inject_Z total) 0) eqn:Q; [| reflexivity].
        apply Qeq_bool_iff in Q. exfalso. apply NZ.
        apply inject_Z_injective. exact Q. }
      rewrite E0.
      rewrite !ofNat_exact by (unfold Spec.lengthCompleted, Spec.lengthInProgress,
                                 Spec.lengthAttention in *; lia).
      fold (Spec.lengthCompleted cs) (Spec.lengthInProgress cs) (Spec.lengthAttention cs).
      now rewrite Ex, Ey, Ez. }
    split; [intros C; contradiction |]. split.
    + intros _. rewrite R. unfold Spec.doublePercentage. now rewrite <- Vx, <- Vy, <- Vz.
    + exists x, y, z. split; [exact R |]. repeat split; lia.
Qed.

(** C9, witness: the theorem at 23 completed and 17 in-progress issues. *)
Lemma calculateWorkBreakdown_percentages_witness :
  exists x y z : Z,
    calculateWorkBreakdown Inputs.run_23_17
      = WorkBreakdown.make (Fin (inject_Z x)) (Fin (inject_Z y)) (Fin (inject_Z z))
    /\ (0 <= x <= 100)%Z /\ (0 <= y <= 100)%Z /\ (0 <= z <= 100)%Z.
Proof.
  refine (proj2 (proj2 (calculateWorkBreakdown_percentages Inputs.run_23_17 _ _ _)));
    vm_compute; reflexivity.
Defined.

(** C9, counterexample.  With 23 completed issues out of 40 the code
    returns 57: the double nearest to 23/40 times 100 is
    57.49999999999999, while 100 x 23 / 40 is 57.5 and rounds to 58. *)
Lemma calculateWorkBreakdown_not_exact_rounding :
  WorkBreakdown.completedPercentage (calculateWorkBreakdown Inputs.run_23_17) = Fin 57
  /\ Spec.exactPercentage 23 40 = Fin 58
  /\ WorkBreakdown.completedPercentage (calculateWorkBreakdown Inputs.run_23_17)
     <> Spec.exactPercentage 23 40.
Proof.
  split; [vm_compute; reflexivity |].
  split; [vm_compute; reflexivity |].
  intros H. vm_compute in H. discriminate H.
Qed.

End BreakdownFacts.

(** The model of the doubles against the doubles of the machine. *)
Module Hardware.
Import PrimFloat.

Example arithmetic_agrees :
  Num.ofFloat (1 / 3)%float = Num.div (Num.Fin 1) (Num.Fin 3)
  /\ Num.ofFloat (- 7 / 3)%float = Num.div (Num.Fin (- 7)) (Num.Fin 3)
  /\ Num.ofFloat (1 / 10 + 2 / 10)%float
     = Num.add (Num.div (Num.Fin 1) (Num.Fin 10)) (Num.div (Num.Fin 2) (Num.Fin 10))
  /\ Num.ofFloat (11 / 10)%float = Num.ofQ (11 # 10)
  /\ Num.ofFloat (8 * (11 / 10))%float = Num.mul (Num.Fin 8) (Num.ofQ (11 # 10))
  /\ Num.ofFloat (8 * (9 / 10))%float = Num.mul (Num.Fin 8) (Num.ofQ (9 # 10))
  /\ Num.ofFloat (22 / 3 * 10)%float
     = Num.mul (Num.div (Num.Fin 22) (Num.Fin 3)) (Num.Fin 10).
Proof. repeat split; vm_compute; reflexivity. Qed.

Example agrees_on_23_of_40 :
  Num.ofFloat (23 / 40 * 100)%float
  = Num.mul (Num.div (Num.ofNat 23) (Num.ofNat 40)) (Num.Fin 100)
  /\ Num.round (Num.ofFloat (23 / 40 * 100)%float) = Num.Fin 57
  /\ Num.round (Num.ofFloat (100 * 23 / 40)%float) = Num.Fin 58.
Proof. repeat split; vm_compute; reflexivity. Qed.

End Hardware.

(* ================================================================= *)
(** ** Velocity *)

Module VelocityFacts.
Import ReportGenerator NumFacts RoundingFacts Measures.
Open Scope string_scope.
Open Scope list_scope.

Lemma slice_last_two {A} (l : list A) : Js.slice l (-2) None = Spec.lastTwo l.
Proof.
  unfold Js.slice, Js.sliceIndex, Spec.lastTwo. cbn [Z.ltb Z.compare].
  set (n := List.length l).
  replace (Z.to_nat (Z.max (Z.of_nat n + -2) 0)) with (n - 2)%nat by lia.
  apply firstn_all2. rewrite length_skipn. fold n. lia.
Qed.

Lemma slice_except_last_two {A} (l : list A) :
  Js.slice l 0 (Some (-2)%Z) = Spec.exceptLastTwo l.
Proof.
  unfold Js.slice, Js.sliceIndex, Spec.exceptLastTwo. cbn [Z.ltb Z.compare].
  set (n := List.length l).
  replace (Z.min 0 (Z.of_nat n)) with 0%Z by lia.
  cbn [Z.to_nat skipn]. f_equal. lia.
Qed.


Lemma lastTwo_app {A} (older : list A) (a b : A) :
  Spec.lastTwo (older ++ [a; b]) = [a; b]
  /\ Spec.exceptLastTwo (older ++ [a; b]) = older.
Proof.
  unfold Spec.lastTwo, Spec.exceptLastTwo. rewrite length_app. cbn [List.length].
  replace (List.length older + 2 - 2)%nat with (List.length older + 0)%nat by lia.
  split.
  - now rewrite skipn_app, Nat.add_0_r, skipn_all, Nat.sub_diag.
  - rewrite firstn_app_2. cbn. apply app_nil_r.
Qed.












(** C6.  On the empty list, and on a missing list, the result is the
    sentinel: average 0, unit "items", trend "No data available", no
    data. *)
Theorem calculateVelocityMetrics_no_data :
  calculateVelocityMetrics (Some [])
    = Velocity.make (Num.Fin 0) "items" "No data available" []
  /\ calculateVelocityMetrics None
    = Velocity.make (Num.Fin 0) "items" "No data available" [].
Proof. split; reflexivity. Qed.

Lemma add_NaN_r (a : Num.t) : Num.add a Num.NaN = Num.NaN.
Proof. now destruct a. Qed.

Lemma sum_from_NaN (values : list numval) :
  fold_left (fun acc val => Num.add acc (toNumber val)) values Num.NaN = Num.NaN.
Proof. induction values as [| v values IH]; [reflexivity | exact IH]. Qed.

(** A sum over values one of which is missing is NaN. *)
Lemma sum_with_missing (values : list numval) :
  In noNumber values -> sum values = Num.NaN.
Proof.
  unfold sum. generalize (Num.Fin 0).
  induction values as [| v values IH]; intros acc H; [destruct H |].
  destruct H as [-> | H].
  - cbn [fold_left toNumber]. rewrite add_NaN_r. apply sum_from_NaN.
  - cbn [fold_left]. now apply IH.
Qed.

(** As soon as one sample has positive story points, the average runs
    over the story points of every sample, and a sample without the
    property turns it into NaN. *)
Lemma average_NaN_when_points_missing (samples : list Sample.t) (p m : Sample.t) :
  In p samples -> positivePoints p = true ->
  In m samples -> Sample.storyPoints m = noNumber ->
  Velocity.unit (calculateVelocityMetrics (Some samples)) = "story points"
  /\ Velocity.average (calculateVelocityMetrics (Some samples)) = Num.NaN.
Proof.
  intros Hp Pp Hm Pm.
  assert (E : existsb positivePoints samples = true).
  { apply existsb_exists. now exists p. }
  destruct samples as [| s l]; [destruct Hp |].
  unfold calculateVelocityMetrics. cbn [Velocity.unit Velocity.average].
  rewrite E. split; [reflexivity |].
  rewrite sum_with_missing; [reflexivity |].
  rewrite <- Pm. now apply in_map.
Qed.

(** C10.  There is a non-empty input in which one sample has positive
    story points and another has none, for which the unit is
    "story points" and the average is NaN. *)
Theorem calculateVelocityMetrics_average_NaN :
  exists samples : list Sample.t,
    samples <> []
    /\ (exists p, In p samples /\ positivePoints p = true)
    /\ (exists m, In m samples /\ Sample.storyPoints m = noNumber)
    /\ Velocity.unit (calculateVelocityMetrics (Some samples)) = "story points"
    /\ Velocity.average (calculateVelocityMetrics (Some samples)) = Num.NaN.
Proof.
  exists [Inputs.pointsOnly 5; Inputs.completedOnly 3].
  split; [discriminate |].
  split; [exists (Inputs.pointsOnly 5); split; [now left | reflexivity] |].
  split; [exists (Inputs.completedOnly 3); split; [now right; left | reflexivity] |].
  apply (average_NaN_when_points_missing _ (Inputs.pointsOnly 5) (Inputs.completedOnly 3));
    [now left | reflexivity | now right; left | reflexivity].
Qed.

End VelocityFacts.

(* ================================================================= *)
(** ** Grouping by epic *)

Module GroupingFacts.
Import ReportGenerator Invariants.
Open Scope list_scope.

Lemma strictEq_eq (a b : Js.val) : Js.strictEq a b = true <-> a = b.
Proof.
  destruct a, b; cbn; split; intros H; try discriminate; try reflexivity.
  - apply String.eqb_eq in H. now subst.
  - injection H as ->. apply String.eqb_refl.
Qed.

Lemma strictEq_neq (a b : Js.val) : Js.strictEq a b = false <-> a <> b.
Proof.
  rewrite <- strictEq_eq. destruct (Js.strictEq a b); split; congruence.
Qed.

(** C3, at the failing input: three stories of E-1 and the epic E-1
    without an epic reference.  The one group keeps the three stories, its
    status, priority and assignee stay at their defaults, and the epic is
    listed among the unassociated issues. *)
Theorem groupIssuesByEpic_epic_not_absorbed :
  groupIssuesByEpic Inputs.storiesThenEpic [0; 1; 2; 3]%nat
  = Grouping.make
      [EpicGroup.make
         (EpicInfo.make (Js.str "E-1"%string) (Js.str "Epic"%string) Js.undefined
                        (Js.str "Unknown"%string) (Js.str "Unknown"%string) Js.null None)
         [0; 1; 2]%nat]
      [3%nat].
Proof. vm_compute. reflexivity. Qed.

(** The branch that absorbs the epic is taken only by an issue that
    names itself as its epic. *)
Example groupIssuesByEpic_self_epic_absorbed :
  groupIssuesByEpic Inputs.storiesThenSelfEpic [0; 1; 2; 3]%nat
  = Grouping.make
      [EpicGroup.make
         (EpicInfo.make (Js.str "E-1"%string) (Js.str "Epic"%string) Js.undefined
                        (Js.str "In Progress"%string) (Js.str "High"%string) Js.null None)
         [0; 1; 2]%nat]
      [].
Proof. vm_compute. reflexivity. Qed.

Lemma find_app {A} (f : A -> bool) (l l' : list A) :
  find f (l ++ l') = match find f l with Some x => Some x | None => find f l' end.
Proof. induction l as [| a l IH]; [reflexivity |]. cbn. now destruct (f a). Qed.

Lemma find_none_iff {A} (f : A -> bool) (l : list A) :
  find f l = None <-> forall x, In x l -> f x = false.
Proof.
  split; [apply find_none |].
  induction l as [| a l IH]; [reflexivity |]. intros H. cbn.
  rewrite (H a (or_introl eq_refl)). apply IH. intros x Hx. apply H. now right.
Qed.

Lemma sameKey_ext store r r' l :
  keyOf store r = keyOf store r' ->
  find (Spec.sameKey store r) l = find (Spec.sameKey store r') l.
Proof.
  intros E. unfold keyOf in E.
  induction l as [| x l IH]; [reflexivity |]. cbn. unfold Spec.sameKey at 1 3.
  rewrite E. now rewrite IH.
Qed.

Lemma has_get {V} (m : JsMap.t V) k : JsMap.has m k = true <-> exists v, JsMap.get m k = Some v.
Proof.
  unfold JsMap.has. destruct (JsMap.get m k); split; intros H; try discriminate; eauto.
  now destruct H.
Qed.

Lemma related_set_absent m k g :
  JsMap.has m k = false -> EpicGroup.relatedIssues g = [] ->
  related (JsMap.set m k g) = related m /\ JsMap.has (JsMap.set m k g) k = true.
Proof.
  unfold JsMap.has, related, JsMap.values.
  induction m as [| [k' v] m IH]; intros H G; cbn in *.
  - rewrite G. split; [reflexivity |].
    assert (E : Js.strictEq k k = true) by now apply strictEq_eq. now rewrite E.
  - destruct (Js.strictEq k' k) eqn:E; [discriminate |].
    cbn. rewrite E. destruct (IH H G) as [R S]. now rewrite R.
Qed.

Lemma related_update_info m k o :
  related (JsMap.update m k (setEpicInfo o)) = related m.
Proof.
  unfold related, JsMap.values.
  induction m as [| [k' v] m IH]; [reflexivity |]. cbn.
  destruct (Js.strictEq k' k); cbn; [reflexivity | now rewrite IH].
Qed.

Lemma addRelated_fresh store r g :
  (forall x, In x (EpicGroup.relatedIssues g) -> keyOf store x <> keyOf store r) ->
  EpicGroup.relatedIssues (addRelated store r g) = EpicGroup.relatedIssues g ++ [r].
Proof.
  intros H. unfold addRelated.
  destruct (find _ _) eqn:F; [| reflexivity].
  apply find_some in F. destruct F as [I E]. apply strictEq_eq in E.
  exfalso. now apply (H _ I).
Qed.

Lemma related_update_add store m k r :
  JsMap.has m k = true ->
  (forall x, In x (related m) -> keyOf store x <> keyOf store r) ->
  Permutation (related (JsMap.update m k (addRelated store r))) (r :: related m).
Proof.
  unfold JsMap.has, related, JsMap.values.
  induction m as [| [k' v] m IH]; intros H F; cbn in *; [discriminate |].
  destruct (Js.strictEq k' k) eqn:E; cbn.
  - rewrite addRelated_fresh.
    + rewrite <- app_assoc. cbn. symmetry. apply Permutation_middle.
    + intros x Hx. apply F. apply in_or_app. now left.
  - eapply Permutation_trans; [| symmetry; apply Permutation_middle].
    apply Permutation_app_head. apply IH; [exact H |].
    intros x Hx. apply F. apply in_or_app. now right.
Qed.

Lemma set_has_add k s k' :
  JsSet.has s k = false ->
  JsSet.has (JsSet.add s k) k' = JsSet.has s k' || Js.strictEq k' k.
Proof.
  intros H. unfold JsSet.add. rewrite H. unfold JsSet.has.
  rewrite existsb_app. cbn. now rewrite orb_false_r.
Qed.

Lemma listed_first_none store done st r :
  groupInv store done st ->
  JsSet.has (processedIssues st) (keyOf store r) = false ->
  (forall x, In x done -> keyOf store x <> keyOf store r)
  /\ (forall x, In x (listed st) -> keyOf store x <> keyOf store r).
Proof.
  intros I H.
  assert (D : forall x, In x done -> keyOf store x <> keyOf store r).
  { intros x Hx E.
    assert (S : JsSet.has (processedIssues st) (keyOf store r) = true).
    { apply (inv_seen _ _ _ I). now exists x. }
    congruence. }
  split; [exact D |].
  intros x Hx. apply D.
  pose proof (inv_first _ _ _ I x Hx) as F. now apply find_some in F.
Qed.

(** What one new key does to the invariant, whatever list it joins. *)
Lemma groupInv_extend store done st r groups unassociated :
  groupInv store done st ->
  JsSet.has (processedIssues st) (keyOf store r) = false ->
  (Permutation (related groups ++ unassociated) (r :: listed st)
   \/ (related groups ++ unassociated = listed st /\ Spec.isOwnEpic (store r))) ->
  groupInv store (done ++ [r])
    (mkGrouper groups unassociated (JsSet.add (processedIssues st) (keyOf store r))).
Proof.
  intros I H P.
  destruct (listed_first_none _ _ _ _ I H) as [D L].
  assert (Fr : find (Spec.sameKey store r) (done ++ [r]) = Some r).
  { rewrite find_app.
    assert (N : find (Spec.sameKey store r) done = None).
    { apply find_none_iff. intros x Hx. apply strictEq_neq. now apply D. }
    rewrite N. cbn. unfold Spec.sameKey.
    assert (E : Js.strictEq (Issue.key (store r)) (Issue.key (store r)) = true)
      by now apply strictEq_eq.
    now rewrite E. }
  assert (Sub : forall x, In x (listed st) -> In x (related groups ++ unassociated)).
  { intros x Hx. destruct P as [P | [P _]].
    - apply (Permutation_in _ (Permutation_sym P)). now right.
    - now rewrite P. }
  constructor; unfold listed; cbn [epicGroups unassociatedIssues processedIssues].
  - intros k. rewrite set_has_add by exact H. rewrite orb_true_iff.
    rewrite (inv_seen _ _ _ I k), strictEq_eq. split.
    + intros [[x [Hx E]] | E].
      * exists x. split; [apply in_or_app; now left | exact E].
      * exists r. split; [apply in_or_app; right; now left | now symmetry].
    + intros [x [Hx E]]. apply in_app_or in Hx. destruct Hx as [Hx | [<- | []]].
      * left. now exists x.
      * right. now symmetry.
  - destruct P as [P | [P _]].
    + apply (Permutation_NoDup (Permutation_map _ (Permutation_sym P))).
      cbn. constructor; [| exact (inv_nodup _ _ _ I)].
      intros C. apply in_map_iff in C. destruct C as [x [E Hx]].
      now apply (L x Hx).
    + rewrite P. exact (inv_nodup _ _ _ I).
  - intros x Hx.
    assert (C : x = r \/ In x (listed st)).
    { destruct P as [P | [P _]].
      - apply (Permutation_in _ P) in Hx. destruct Hx as [<- | Hx]; auto.
      - rewrite P in Hx. now right. }
    destruct C as [-> | C]; [exact Fr |].
    rewrite find_app. now rewrite (inv_first _ _ _ I x C).
  - intros x Hx. apply in_app_or in Hx. destruct Hx as [Hx | [<- | []]].
    + destruct (inv_all _ _ _ I x Hx) as [f [F W]].
      exists f. split; [rewrite find_app; now rewrite F |].
      destruct W as [W | W]; [left; now apply Sub | now right].
    + exists r. split; [exact Fr |].
      destruct P as [P | [_ P]]; [left | now right].
      apply (Permutation_in _ (Permutation_sym P)). now left.
Qed.

Lemma groupInv_seen store done st r :
  groupInv store done st ->
  JsSet.has (processedIssues st) (keyOf store r) = true ->
  groupInv store (done ++ [r]) st.
Proof.
  intros I H.
  destruct (proj1 (inv_seen _ _ _ I _) H) as [r0 [H0 E0]].
  constructor.
  - intros k. rewrite (inv_seen _ _ _ I k). split.
    + intros [x [Hx E]]. exists x. split; [apply in_or_app; now left | exact E].
    + intros [x [Hx E]]. apply in_app_or in Hx. destruct Hx as [Hx | [<- | []]].
      * now exists x.
      * exists r0. split; [exact H0 | congruence].
  - exact (inv_nodup _ _ _ I).
  - intros x Hx. rewrite find_app. now rewrite (inv_first _ _ _ I x Hx).
  - intros x Hx.
    assert (C : exists y, In y done /\ keyOf store y = keyOf store x).
    { apply in_app_or in Hx. destruct Hx as [Hx | [<- | []]].
      - now exists x.
      - now exists r0. }
    destruct C as [y [Hy E]].
    destruct (inv_all _ _ _ I y Hy) as [f [F W]].
    exists f. split; [| exact W].
    rewrite find_app. rewrite (sameKey_ext store x y _ (eq_sym E)). now rewrite F.
Qed.

Lemma groupIssue_inv store done st r :
  groupInv store done st -> groupInv store (done ++ [r]) (groupIssue store st r).
Proof.
  intros I. unfold groupIssue. fold (keyOf store r).
  destruct (JsSet.has (processedIssues st) (keyOf store r)) eqn:H.
  - now apply groupInv_seen.
  - destruct (listed_first_none _ _ _ _ I H) as [D L].
    assert (U : forall groups, related groups = related (epicGroups st) ->
      Permutation (related groups ++ (unassociatedIssues st ++ [r])) (r :: listed st)).
    { intros groups E. rewrite E. unfold listed. rewrite app_assoc.
      symmetry. apply Permutation_cons_append. }
    destruct (Issue.epic (store r)) as [epic |] eqn:Ep.
    + destruct (Js.truthy (Epic.key epic)) eqn:T.
      * set (groups := if negb (JsMap.has (epicGroups st) (Epic.key epic))
                       then JsMap.set (epicGroups st) (Epic.key epic) (newGroup epic)
                       else epicGroups st).
        assert (G : related groups = related (epicGroups st)
                    /\ JsMap.has groups (Epic.key epic) = true).
        { unfold groups. destruct (JsMap.has (epicGroups st) (Epic.key epic)) eqn:Hs; cbn.
          - now split.
          - now apply related_set_absent. }
        destruct G as [G1 G2].
        destruct (Js.strictEq (keyOf store r) (Epic.key epic)) eqn:Own.
        -- apply groupInv_extend; [exact I | exact H |]. right.
           rewrite related_update_info, G1. split; [reflexivity |].
           exists epic. repeat split; [exact Ep | exact T |].
           now apply strictEq_eq.
        -- apply groupInv_extend; [exact I | exact H |]. left.
           unfold listed. rewrite <- G1.
           apply (Permutation_app_tail (unassociatedIssues st)
                    (related_update_add store groups (Epic.key epic) r G2
                       ltac:(rewrite G1; intros x Hx; apply L; unfold listed;
                             apply in_or_app; now left))).
      * apply groupInv_extend; [exact I | exact H |]. left. now apply U.
    + apply groupInv_extend; [exact I | exact H |]. left. now apply U.
Qed.

Lemma fold_groupIssue_inv store rest done st :
  groupInv store done st ->
  groupInv store (done ++ rest) (fold_left (groupIssue store) rest st).
Proof.
  revert done st. induction rest as [| r rest IH]; intros done st I; cbn.
  - now rewrite app_nil_r.
  - replace (done ++ r :: rest) with ((done ++ [r]) ++ rest)
      by (now rewrite <- app_assoc).
    apply IH. now apply groupIssue_inv.
Qed.

Lemma groupInv_init store : groupInv store [] (mkGrouper [] [] []).
Proof.
  constructor; cbn.
  - intros k. split; [discriminate | intros [r [[] _]]].
  - constructor.
  - intros r [].
  - intros r [].
Qed.

(** C4.  For every input list, duplicates included, no key occurs twice
    among the issues that [groupIssuesByEpic] lists, be it in one group,
    across groups, or between a group and the unassociated issues; every
    listed issue is the first entry of the input with its key, so later
    entries with that key are dropped without an error; and the first
    entry of each key is listed, unless it is the epic of its own group. *)
Theorem groupIssuesByEpic_each_key_once (store : ref -> Issue.t) (issues : list ref) :
  let placed := Spec.placed (groupIssuesByEpic store issues) in
  NoDup (List.map (fun r => Issue.key (store r)) placed)
  /\ (forall r, In r placed -> find (Spec.sameKey store r) issues = Some r)
  /\ (forall r, In r issues ->
      exists f, find (Spec.sameKey store r) issues = Some f
                /\ (In f placed \/ Spec.isOwnEpic (store f))).
Proof.
  pose proof (fold_groupIssue_inv store issues [] _ (groupInv_init store)) as I.
  cbn [app] in I. cbv zeta.
  unfold Spec.placed, groupIssuesByEpic. cbn [Grouping.epicsWithIssues Grouping.unassociatedIssues].
  split; [exact (inv_nodup _ _ _ I) |].
  split; [exact (inv_first _ _ _ I) | exact (inv_all _ _ _ I)].
Qed.

End GroupingFacts.

(* ================================================================= *)
(** ** Categorisation *)

Module CategorizeFacts.
Import ReportGenerator Conditions Spec Inputs Invariants.
Open Scope list_scope.

Lemma moment_run s tz ck rd hp bk :
  Moment.moment s (mkWorld tz ck rd hp bk)
  = Normal (momentAt s (ck rd)) (mkWorld tz ck (uses s + rd) hp bk).
Proof. destruct s; reflexivity. Qed.

Lemma timeClip_cases t : Date.timeClip t = Num.NaN \/ exists x, Date.timeClip t = Num.Fin x.
Proof.
  destruct t as [| s | x]; cbn; auto.
  destruct (Qle_bool (Qabs x) _); eauto.
Qed.

Lemma momentAt_cases s t :
  Moment.d (momentAt s t) = Num.NaN \/ exists x, Moment.d (momentAt s t) = Num.Fin x.
Proof. destruct s; cbn; auto using timeClip_cases. Qed.

Lemma diff_NaN now updated :
  Moment.d updated = Num.NaN -> Num.gt (Moment.diff now updated) (Num.Fin 3) = false.
Proof.
  intros E. unfold Moment.diff. rewrite E.
  destruct (Moment.d now); reflexivity.
Qed.

Lemma categorizeIssue_run now oneWeekAgo c r tz ck rd hp bk :
  let w := mkWorld tz ck rd hp bk in
  let o := hp r in
  let created := momentAt (Issue.created o) (ck rd) in
  let updated := momentAt (Issue.updated o) (ck (uses (Issue.created o) + rd)%nat) in
  categorizeIssue now oneWeekAgo c r w
  = Normal (pushed oneWeekAgo now created updated o bk c) (stepWorld now updated o w).
Proof.
  intros w o created updated.
  unfold categorizeIssue, bind at 1, load. cbn [heap w]. fold o.
  unfold bind at 1. unfold w. rewrite moment_run. fold created.
  unfold bind at 1. rewrite moment_run. fold updated.
  unfold bind at 1, alloc. cbn [brk heap clock reads zone].
  unfold pushed, stepWorld. fold (isEpicLevel o). fold (lowerStatus o).
  fold (completionTest o). fold (inProgressTest o). fold (needsAttentionTest now updated o).
  cbn [brk heap clock reads zone].
  destruct (needsAttentionTest now updated o) eqn:A; [| reflexivity].
  unfold Moment.format, attentionObject.
  destruct (momentAt_cases (Issue.updated o) (ck (uses (Issue.created o) + rd)%nat))
    as [N | [x X]]; fold updated in N || fold updated in X.
  - unfold needsAttentionTest in A. rewrite (diff_NaN now updated N) in A. discriminate.
  - rewrite X. reflexivity.
Qed.

Ltac pushed_cases :=
  unfold pushed, Categorized.onTarget;
  repeat match goal with
         | |- context [if ?b then _ else _] => destruct b eqn:?
         end.

Ltac in_lists :=
  cbn -[In]; intros; rewrite ?in_app_iff in *; cbn [In] in *; intuition (try congruence).

Lemma pushed_plain wk now cr up o n c x :
  In x (plainRefs (pushed wk now cr up o n c)) -> In x (plainRefs c) \/ x = n.
Proof. unfold plainRefs. pushed_cases; in_lists. Qed.

Lemma pushed_attention wk now cr up o n c x :
  In x (attentionRefs (pushed wk now cr up o n c)) ->
  In x (attentionRefs c) \/ (x = S n /\ needsAttentionTest now up o = true).
Proof. unfold attentionRefs. pushed_cases; in_lists. Qed.

Lemma pushed_progress wk now cr up o n c x :
  In x (progressRefs (pushed wk now cr up o n c)) ->
  In x (progressRefs c) \/ (x = n /\ completionTest o = false).
Proof. unfold progressRefs. pushed_cases; in_lists. Qed.

Lemma pushed_completed wk now cr up o n c :
  completionTest o = true ->
  In n (Categorized.completed (pushed wk now cr up o n c))
  /\ In n (levelCompleted (pushed wk now cr up o n c)).
Proof. intros H. unfold levelCompleted. pushed_cases; try congruence; in_lists. Qed.

Lemma pushed_completed_mono wk now cr up o n c x :
  (In x (Categorized.completed c) -> In x (Categorized.completed (pushed wk now cr up o n c)))
  /\ (In x (levelCompleted c) -> In x (levelCompleted (pushed wk now cr up o n c))).
Proof. unfold levelCompleted. pushed_cases; in_lists. Qed.

Lemma completionTest_normalized o : completionTest (normalizedIssue o) = completionTest o.
Proof. reflexivity. Qed.

Lemma write_same h a o : write h a o a = o.
Proof. unfold write. now rewrite Nat.eqb_refl. Qed.

Lemma write_other h a o x : x <> a -> write h a o x = h x.
Proof. intros H. unfold write. apply Nat.eqb_neq in H. now rewrite H. Qed.

Lemma stepWorld_facts now updated o w :
  let w1 := stepWorld now updated o w in
  clock w1 = clock w
  /\ (brk w < brk w1 <= S (S (brk w)))%nat
  /\ (forall a, (a < brk w)%nat -> heap w1 a = heap w a)
  /\ heap w1 (brk w) = normalizedIssue o
  /\ (needsAttentionTest now updated o = true ->
      brk w1 = S (S (brk w)) /\ heap w1 (S (brk w)) = attentionObject now updated o)
  /\ (needsAttentionTest now updated o = false -> brk w1 = S (brk w))
  /\ reads w1 = (uses (Issue.updated o) + (uses (Issue.created o) + reads w))%nat.
Proof.
  unfold stepWorld. destruct (needsAttentionTest now updated o); cbn.
  - repeat split; try lia; try discriminate.
    + intros a Ha. rewrite !write_other by lia. reflexivity.
    + rewrite write_other by lia. apply write_same.
    + apply write_same.
  - repeat split; try lia; try discriminate.
    + intros a Ha. rewrite write_other by lia. reflexivity.
    + apply write_same.
Qed.

Lemma uses_le s : (uses s <= 1)%nat.
Proof. destruct s; cbn; lia. Qed.

Lemma forEach_run now oneWeekAgo issues : forall c w,
  (forall r, In r issues -> (r < brk w)%nat) ->
  exists c' w',
    forEach (categorizeIssue now oneWeekAgo) issues c w = Normal c' w'
    /\ runFacts issues c w c' w'.
Proof.
  induction issues as [| r issues IH]; intros c w V.
  - exists c, w. split; [reflexivity |].
    constructor; auto; try lia.
    intros src [].
  - destruct w as [tz ck rd hp bk]. cbn [forEach]. unfold bind.
    rewrite categorizeIssue_run. cbv zeta.
    set (o := hp r).
    set (created := momentAt (Issue.created o) (ck rd)).
    set (updated := momentAt (Issue.updated o) (ck (uses (Issue.created o) + rd)%nat)).
    set (w0 := mkWorld tz ck rd hp bk) in *.
    set (c1 := pushed oneWeekAgo now created updated o bk c).
    set (w1 := stepWorld now updated o w0).
    destruct (stepWorld_facts now updated o w0) as (S1 & S2 & S3 & S4 & S5 & S6 & S7).
    fold w1 in S1, S2, S3, S4, S5, S6, S7. cbn [brk heap reads w0] in S2, S3, S4, S5, S6, S7.
    assert (Vr : (r < bk)%nat) by (apply V; now left).
    assert (V1 : forall r', In r' issues -> (r' < brk w1)%nat).
    { intros r' H. specialize (V r' (or_intror H)). cbn in V. lia. }
    destruct (IH c1 w1 V1) as (c' & w' & E & F).
    exists c', w'. split; [exact E |].
    assert (Hsrc : forall src, In src issues -> heap w1 src = hp src).
    { intros src H. apply S3. apply (V src). now right. }
    assert (Keep : forall a, (a < brk w1)%nat -> heap w' a = heap w1 a)
      by exact (run_heap _ _ _ _ _ F).
    pose proof (uses_le (Issue.created o)) as U1.
    pose proof (uses_le (Issue.updated o)) as U2.
    constructor; cbn [brk heap clock reads w0].
    + rewrite (run_clock _ _ _ _ _ F). exact S1.
    + pose proof (run_brk _ _ _ _ _ F). lia.
    + pose proof (run_reads _ _ _ _ _ F) as R. rewrite S7 in R. cbn [List.length]. lia.
    + intros a Ha. rewrite Keep by lia. now apply S3.
    + intros x Hx. pose proof (run_brk _ _ _ _ _ F) as B.
      destruct (run_plain _ _ _ _ _ F x Hx) as [H | [Hr [src [Hs Hh]]]].
      * apply pushed_plain in H. destruct H as [H | ->]; [now left | right].
        split; [lia |]. exists r. split; [now left |].
        rewrite Keep by lia. exact S4.
      * right. split; [lia |]. exists src. split; [now right |].
        now rewrite <- (Hsrc src Hs).
    + intros x Hx. pose proof (run_brk _ _ _ _ _ F) as B.
      destruct (run_attention _ _ _ _ _ F x Hx) as [H | [Hr (src & lu & rs & Hs & Hh & Ht)]].
      * apply pushed_attention in H. destruct H as [H | [-> A]]; [now left | right].
        destruct (S5 A) as [Eb Eh].
        split; [lia |]. exists r. do 2 eexists. split; [now left |].
        rewrite Keep by lia. rewrite Eh. split; [reflexivity |].
        unfold needsAttentionTest in A. apply andb_true_iff in A.
        destruct A as [_ A]. now apply negb_true_iff in A.
      * right. split; [lia |]. exists src, lu, rs. split; [now right |].
        rewrite <- (Hsrc src Hs). now split.
    + intros x Hx.
      destruct (run_progress _ _ _ _ _ F x Hx) as [H | [Hr Hc]].
      * apply pushed_progress in H. destruct H as [H | [-> Cf]]; [now left | right].
        split; [lia |]. rewrite Keep by lia. rewrite S4.
        now rewrite completionTest_normalized.
      * right. split; [lia | exact Hc].
    + intros src Hs Hc. destruct Hs as [<- | Hs].
      * destruct (pushed_completed oneWeekAgo now created updated o bk c Hc) as [P1 P2].
        exists bk. destruct (run_mono _ _ _ _ _ F bk) as [M1 M2].
        split; [now apply M1 |]. split; [now apply M2 |]. split; [lia |].
        rewrite Keep by lia. exact S4.
      * rewrite <- Hsrc in Hc by exact Hs.
        destruct (run_completed _ _ _ _ _ F src Hs Hc) as (x & X1 & X2 & X3 & X4).
        exists x. split; [exact X1 |]. split; [exact X2 |]. split; [lia |].
        now rewrite <- (Hsrc src Hs).
    + intros x. destruct (run_mono _ _ _ _ _ F x) as [M1 M2].
      destruct (pushed_completed_mono oneWeekAgo now created updated o bk c x) as [Q1 Q2].
      split; auto.
Qed.

Lemma categorizeJiraCliIssues_run issues w :
  categorizeJiraCliIssues issues w
  = match forEach (categorizeIssue (nowOf w) (oneWeekAgoOf w)) issues
            Categorized.empty (started w) with
    | Normal c w' => Normal (resultOf c) w'
    | Throw e => Throw e
    end.
Proof.
  destruct w as [tz ck rd hp bk].
  unfold categorizeJiraCliIssues, bind at 1. rewrite moment_run.
  unfold bind at 1. rewrite moment_run.
  unfold bind at 1, Moment.subtract.
  unfold bind at 1. reflexivity.
Qed.

Lemma recordOf_normalized o : recordOf (normalizedIssue o) o.
Proof. reflexivity. Qed.

Lemma recordOf_attention o lu rs : recordOf (attentionIssue (normalizedIssue o) lu rs) o.
Proof. reflexivity. Qed.

Lemma recordOf_tests o issue :
  recordOf o issue ->
  Issue.resolution o = Issue.resolution issue /\ completionTest o = completionTest issue.
Proof.
  unfold recordOf. intros H.
  assert (R : Issue.resolution (withoutAttention o) = Issue.resolution (normalizedIssue issue))
    by now rewrite H.
  assert (S : Issue.status (withoutAttention o) = Issue.status (normalizedIssue issue))
    by now rewrite H.
  cbn in R, S. split; [exact R |].
  unfold completionTest, lowerStatus. now rewrite R, S.
Qed.

Lemma categorizeJiraCliIssues_facts issues w :
  (forall r, In r issues -> (r < brk w)%nat) ->
  exists c w',
    categorizeJiraCliIssues issues w = Normal (resultOf c) w'
    /\ runFacts issues Categorized.empty (started w) c w'.
Proof.
  intros V. rewrite categorizeJiraCliIssues_run.
  destruct (forEach_run (nowOf w) (oneWeekAgoOf w) issues Categorized.empty (started w) V)
    as (c & w' & E & F).
  exists c, w'. rewrite E. now split.
Qed.

Lemma bucketRefs_resultOf c x :
  In x (bucketRefs (resultOf c)) -> In x (plainRefs c) \/ In x (attentionRefs c).
Proof. unfold bucketRefs, resultOf, plainRefs, attentionRefs. in_lists. Qed.

Lemma stepWorld_same now updated o w w' k :
  sameInputs (2 + k) w w' ->
  sameInputs k (stepWorld now updated o w) (stepWorld now updated o w').
Proof.
  intros (B & H & C). unfold stepWorld, sameInputs.
  pose proof (uses_le (Issue.created o)) as U1.
  pose proof (uses_le (Issue.updated o)) as U2.
  assert (Cl : forall i, (i < k)%nat ->
    clock w (i + (uses (Issue.updated o) + (uses (Issue.created o) + reads w)))
    = clock w' (i + (uses (Issue.updated o) + (uses (Issue.created o) + reads w')))).
  { intros i Hi.
    replace (i + (uses (Issue.updated o) + (uses (Issue.created o) + reads w)))%nat
      with ((i + uses (Issue.updated o) + uses (Issue.created o)) + reads w)%nat by lia.
    replace (i + (uses (Issue.updated o) + (uses (Issue.created o) + reads w')))%nat
      with ((i + uses (Issue.updated o) + uses (Issue.created o)) + reads w')%nat by lia.
    apply C. lia. }
  destruct (needsAttentionTest now updated o); cbn; rewrite <- B;
    (split; [reflexivity |]); (split; [| exact Cl]);
    intros a; unfold write; repeat destruct (Nat.eqb _ _); auto.
Qed.

Lemma forEach_same now oneWeekAgo issues : forall c w w',
  sameInputs (2 * List.length issues) w w' ->
  exists c' v v',
    forEach (categorizeIssue now oneWeekAgo) issues c w = Normal c' v
    /\ forEach (categorizeIssue now oneWeekAgo) issues c w' = Normal c' v'
    /\ sameStore v v'.
Proof.
  induction issues as [| r issues IH]; intros c w w' S.
  - exists c, w, w'. repeat split; try reflexivity; apply S.
  - destruct S as (B & H & C).
    assert (S : sameInputs (2 + 2 * List.length issues) w w').
    { repeat split; try assumption. intros i Hi. apply C. cbn [List.length]. lia. }
    destruct w as [tz ck rd hp bk], w' as [tz' ck' rd' hp' bk'].
    cbn [brk heap clock reads zone] in B, H, C. subst bk'.
    cbn [forEach]. unfold bind. rewrite !categorizeIssue_run. cbv zeta.
    rewrite <- (H r).
    pose proof (uses_le (Issue.created (hp r))) as U1.
    assert (C0 : ck' rd' = ck rd).
    { symmetry. apply (C 0%nat). cbn [List.length]. lia. }
    rewrite C0.
    assert (C1 : ck' (uses (Issue.created (hp r)) + rd')%nat
                 = ck (uses (Issue.created (hp r)) + rd)%nat).
    { symmetry. apply C. cbn [List.length]. lia. }
    rewrite C1.
    apply IH. now apply stepWorld_same.
Qed.

(** C7 (amended).  For every list of issue objects of the store,
    [categorizeJiraCliIssues] returns without throwing and leaves the input
    objects as they were; every entry of every array of the result is a
    fresh object, not a member of the input list, that records a member
    of the input list: its copy [normalizedIssue], or that copy with
    [lastUpdated] and [reason] added. *)
Theorem categorizeJiraCliIssues_copies (issues : list ref) (w : World) :
  (forall r, In r issues -> (r < brk w)%nat) ->
  exists cs w',
    categorizeJiraCliIssues issues w = Normal cs w'
    /\ (forall a, (a < brk w)%nat -> heap w' a = heap w a)
    /\ (forall x, In x (bucketRefs cs) ->
        ~ In x issues
        /\ exists src, In src issues /\ recordOf (heap w' x) (heap w src)).
Proof.
  intros V. destruct (categorizeJiraCliIssues_facts issues w V) as (c & w' & E & F).
  exists (resultOf c), w'. split; [exact E |].
  split; [exact (run_heap _ _ _ _ _ F) |].
  intros x Hx. apply bucketRefs_resultOf in Hx. destruct Hx as [Hx | Hx].
  - destruct (run_plain _ _ _ _ _ F x Hx) as [[] | [B (src & Hs & Hh)]].
    split.
    + intros I. specialize (V x I). cbn in B. lia.
    + exists src. split; [exact Hs |]. cbn [heap started] in Hh. rewrite Hh.
      apply recordOf_normalized.
  - destruct (run_attention _ _ _ _ _ F x Hx) as [[] | [B (src & lu & rs & Hs & Hh & _)]].
    split.
    + intros I. specialize (V x I). cbn in B. lia.
    + exists src. split; [exact Hs |]. cbn [heap started] in Hh. rewrite Hh.
      apply recordOf_attention.
Qed.

(** C7, witness: the theorem on a store with the one issue [doneFixed]. *)
Lemma categorizeJiraCliIssues_copies_witness :
  exists cs w',
    categorizeJiraCliIssues [0%nat] (oneIssue doneFixed noon 9) = Normal cs w'
    /\ (forall a, (a < 1)%nat -> heap w' a = doneFixed)
    /\ (forall x, In x (bucketRefs cs) ->
        ~ In x [0%nat]
        /\ exists src, In src [0%nat] /\ recordOf (heap w' x) doneFixed).
Proof.
  apply (categorizeJiraCliIssues_copies [0%nat] (oneIssue doneFixed noon 9)).
  intros r' [<- | []]. cbn. lia.
Defined.

(** C7, counterexample.  The one input object is at address 0; the
    completed array of the result holds the object at address 1, which is
    no member of the input list. *)
Lemma buckets_hold_copies_not_inputs :
  match categorizeJiraCliIssues [0%nat] (oneIssue doneFixed noon 9) with
  | Normal cs w' => ~ (forall x, In x (bucketRefs cs) -> In x [0%nat])
  | Throw _ => False
  end.
Proof.
  vm_compute. intros H. destruct (H 1%nat) as [E | []]; [| discriminate E].
  now left.
Qed.

(** C8 (amended).  For every issue of the input whose resolution is truthy
    (neither null, undefined nor the empty string), whose lower-cased
    status contains one of "done", "resolved", "closed", "fixed", and also
    one of "in progress", "in review", "testing", "code review",
    [categorizeJiraCliIssues] puts a record of the issue in the completed
    arrays and in none of the in-progress arrays. *)
Theorem categorize_completed_wins (issues : list ref) (w : World) (r : ref) :
  (forall r', In r' issues -> (r' < brk w)%nat) ->
  In r issues ->
  completionTest (heap w r) = true ->
  inProgressTest (heap w r) = true ->
  exists cs w',
    categorizeJiraCliIssues issues w = Normal cs w'
    /\ Forall (fun bucket => placedIn w' bucket (heap w r)) (completedBuckets cs)
    /\ ~ placedIn w' (inProgressBuckets cs) (heap w r).
Proof.
  intros V Hr Hc _. destruct (categorizeJiraCliIssues_facts issues w V) as (c & w' & E & F).
  exists (resultOf c), w'. split; [exact E |]. split.
  - destruct (run_completed _ _ _ _ _ F r Hr Hc) as (x & X1 & X2 & _ & X4).
    cbn [heap started] in X4.
    assert (R : recordOf (heap w' x) (heap w r)) by (rewrite X4; apply recordOf_normalized).
    unfold completedBuckets. repeat constructor; exists x; (split; [assumption | exact R]).
  - intros (x & Hx & R).
    assert (P : In x (progressRefs c)).
    { revert Hx. unfold inProgressBuckets, resultOf, progressRefs. in_lists. }
    destruct (run_progress _ _ _ _ _ F x P) as [[] | [_ Cf]].
    destruct (recordOf_tests _ _ R) as [_ T]. congruence.
Qed.

(** C8, witness: status "Closed (testing)", resolution "Fixed". *)
Lemma categorize_completed_wins_witness :
  exists cs w',
    categorizeJiraCliIssues [0%nat] (oneIssue closedTesting noon 9) = Normal cs w'
    /\ Forall (fun bucket => placedIn w' bucket closedTesting) (completedBuckets cs)
    /\ ~ placedIn w' (inProgressBuckets cs) closedTesting.
Proof.
  apply (categorize_completed_wins [0%nat] (oneIssue closedTesting noon 9) 0%nat).
  - intros r' [<- | []]. cbn. lia.
  - now left.
  - reflexivity.
  - reflexivity.
Defined.

(** C8, counterexample.  With the empty string for a resolution, which is
    not null, and the status "Done testing", both tests as the claim words
    them hold, and the issue lands in [inProgress], not in [completed]. *)
Lemma empty_resolution_not_completed :
  statedCompletionTest doneTestingUnresolved = true
  /\ inProgressTest doneTestingUnresolved = true
  /\ match categorizeJiraCliIssues [0%nat] (oneIssue doneTestingUnresolved noon 9) with
     | Normal cs w' =>
         CategorizedSet.completed cs = []
         /\ CategorizedSet.inProgress cs = [1%nat]
         /\ ~ (placedIn w' (CategorizedSet.completed cs) doneTestingUnresolved
               /\ ~ placedIn w' (CategorizedSet.inProgress cs) doneTestingUnresolved)
     | Throw _ => False
     end.
Proof.
  split; [reflexivity |]. split; [reflexivity |].
  vm_compute. split; [reflexivity |]. split; [reflexivity |].
  intros [[x [[] _]] _].
Qed.

(** C1 (amended).  An issue of the input with status "Done", resolution
    "Fixed" and an update 10 days before the clock reading has a record in
    the completed arrays and in none of the needs-attention arrays: the
    attention branch requires a falsy resolution. *)
Theorem categorize_done_fixed_stale (issues : list ref) (w : World) (r : ref) :
  (forall r', In r' issues -> (r' < brk w)%nat) ->
  In r issues ->
  Issue.status (heap w r) = Js.str "Done" ->
  Issue.resolution (heap w r) = Js.str "Fixed" ->
  Issue.updated (heap w r) = Date.At (clock w (reads w) - 10 * Date.msPerDay) ->
  exists cs w',
    categorizeJiraCliIssues issues w = Normal cs w'
    /\ Forall (fun bucket => placedIn w' bucket (heap w r)) (completedBuckets cs)
    /\ ~ placedIn w' (attentionBuckets cs) (heap w r).
Proof.
  intros V Hr St Rs _.
  assert (Hc : completionTest (heap w r) = true).
  { unfold completionTest, lowerStatus. now rewrite St, Rs. }
  destruct (categorizeJiraCliIssues_facts issues w V) as (c & w' & E & F).
  exists (resultOf c), w'. split; [exact E |]. split.
  - destruct (run_completed _ _ _ _ _ F r Hr Hc) as (x & X1 & X2 & _ & X4).
    cbn [heap started] in X4.
    assert (R : recordOf (heap w' x) (heap w r)) by (rewrite X4; apply recordOf_normalized).
    unfold completedBuckets. repeat constructor; exists x; (split; [assumption | exact R]).
  - intros (x & Hx & R).
    assert (P : In x (attentionRefs c)).
    { revert Hx. unfold attentionBuckets, resultOf, attentionRefs. in_lists. }
    destruct (run_attention _ _ _ _ _ F x P) as [[] | [_ (src & lu & rs & _ & Hh & Ht)]].
    destruct (recordOf_tests _ _ R) as [T _].
    rewrite Hh in T. cbn in T. cbn [heap started] in Ht. rewrite T, Rs in Ht. discriminate.
Qed.

(** C1, witness: the theorem on a store with the one issue [doneFixed]. *)
Lemma categorize_done_fixed_stale_witness :
  exists cs w',
    categorizeJiraCliIssues [0%nat] (oneIssue doneFixed noon 9) = Normal cs w'
    /\ Forall (fun bucket => placedIn w' bucket doneFixed) (completedBuckets cs)
    /\ ~ placedIn w' (attentionBuckets cs) doneFixed.
Proof.
  apply (categorize_done_fixed_stale [0%nat] (oneIssue doneFixed noon 9) 0%nat).
  - intros r' [<- | []]. cbn. lia.
  - now left.
  - reflexivity.
  - reflexivity.
  - reflexivity.
Defined.

(** C1, counterexample.  For the issue [doneFixed], updated 10 days before
    the clock reading [noon], [completed] holds its copy and
    [needsAttention] is empty. *)
Lemma done_fixed_not_in_needsAttention :
  match categorizeJiraCliIssues [0%nat] (oneIssue doneFixed noon 9) with
  | Normal cs w' =>
      CategorizedSet.completed cs = [1%nat]
      /\ CategorizedSet.needsAttention cs = []
      /\ ~ (placedIn w' (CategorizedSet.completed cs) doneFixed
            /\ placedIn w' (CategorizedSet.needsAttention cs) doneFixed)
  | Throw _ => False
  end.
Proof.
  vm_compute. split; [reflexivity |]. split; [reflexivity |].
  intros [_ [x [[] _]]].
Qed.

Lemma daysBack_same (z z' : Zone.t) (tv : Num.t) (num : Z) :
  (forall t, Zone.utcOffset z t = Zone.utcOffset z' t) ->
  (forall l, Zone.localOffset z l = Zone.localOffset z' l) ->
  Date.daysBack z tv num = Date.daysBack z' tv num.
Proof.
  intros U L. destruct tv as [| s | x]; [reflexivity | reflexivity |].
  unfold Date.daysBack. now rewrite U, L.
Qed.

(** C2 (amended).  [categorizeJiraCliIssues] has the one parameter
    [issues]; it reads the system clock itself, once for [now], once for
    [oneWeekAgo] and once more for each missing [created] or [updated]
    property, it takes [oneWeekAgo] seven calendar days back in the time
    zone of the process, and an argument passed for [now] is ignored.
    For every issue list, two calls in the same time zone on stores with
    the same objects under clocks that agree on the next 2 + 2 x length
    readings return the same buckets and build the same objects,
    whatever is passed for [now]. *)
Theorem categorize_determined_by_clock_and_zone
    (issues : list ref) (a b : option Z) (w w' : World) :
  (forall t, Zone.utcOffset (zone w) t = Zone.utcOffset (zone w') t) ->
  (forall l, Zone.localOffset (zone w) l = Zone.localOffset (zone w') l) ->
  brk w = brk w' ->
  (forall x, heap w x = heap w' x) ->
  (forall i, (i < 2 + 2 * List.length issues)%nat ->
             clock w (i + reads w) = clock w' (i + reads w')) ->
  exists cs v v',
    categorize issues a w = Normal cs v
    /\ categorize issues b w' = Normal cs v'
    /\ brk v = brk v' /\ (forall x, heap v x = heap v' x).
Proof.
  intros ZU ZL B H C. unfold categorize. rewrite !categorizeJiraCliIssues_run.
  assert (N : nowOf w = nowOf w').
  { unfold nowOf. f_equal. apply (C 0%nat). lia. }
  assert (W : oneWeekAgoOf w = oneWeekAgoOf w').
  { assert (C1 : clock w (S (reads w)) = clock w' (S (reads w'))).
    { apply (C 1%nat). lia. }
    unfold oneWeekAgoOf. rewrite C1. f_equal. now apply daysBack_same. }
  rewrite <- N, <- W.
  destruct (forEach_same (nowOf w) (oneWeekAgoOf w) issues Categorized.empty
              (started w) (started w')) as (c & v & v' & E & E' & S).
  - repeat split; cbn; try assumption. intros i Hi.
    replace (i + S (S (reads w)))%nat with ((2 + i) + reads w)%nat by lia.
    replace (i + S (S (reads w')))%nat with ((2 + i) + reads w')%nat by lia.
    apply C. lia.
  - exists (resultOf c), v, v'. rewrite E, E'. destruct S as [S1 S2]. now repeat split.
Qed.

(** C2, witness: two clocks that agree on four readings and differ later,
    both in UTC, and two different arguments for [now]. *)
Lemma categorize_determined_by_clock_and_zone_witness :
  exists cs v v',
    categorize [0%nat] (Some noon) (oneIssue toDo noon 9) = Normal cs v
    /\ categorize [0%nat] None (oneIssue toDo noon 4) = Normal cs v'
    /\ brk v = brk v' /\ (forall x, heap v x = heap v' x).
Proof.
  apply (categorize_determined_by_clock_and_zone [0%nat] (Some noon) None
           (oneIssue toDo noon 9) (oneIssue toDo noon 4)).
  - reflexivity.
  - reflexivity.
  - reflexivity.
  - intros x. reflexivity.
  - intros i Hi. cbn in Hi.
    destruct i as [| [| [| [| i]]]]; [reflexivity .. | lia].
Defined.

(** C2, counterexample.  The same issue list and the same argument [noon]
    for [now], under a clock one day after [noon] and under a clock thirty
    days after it: the issue is new in the first result and stale in the
    second. *)
Lemma categorize_follows_clock_not_argument :
  match categorize [0%nat] (Some noon) (oneIssue toDo (noon + 1 * Date.msPerDay) 9),
        categorize [0%nat] (Some noon) (oneIssue toDo (noon + 30 * Date.msPerDay) 9) with
  | Normal cs _, Normal cs' _ =>
      CategorizedSet.newIssues cs = [1%nat]
      /\ CategorizedSet.needsAttention cs = []
      /\ CategorizedSet.newIssues cs' = []
      /\ CategorizedSet.needsAttention cs' = [2%nat]
      /\ cs <> cs'
  | _, _ => False
  end.
Proof. vm_compute. repeat (split; [reflexivity |]). discriminate. Qed.

End CategorizeFacts.

(* ================================================================= *)
(** * Further behaviour of the code *)

(* ================================================================= *)
(** ** The loop of the categorisation *)

Module StepFacts.
Import ReportGenerator Conditions Invariants CategorizeFacts Steps.
Open Scope list_scope.

Ltac push_cases :=
  unfold pushed, Categorized.onTarget;
  match goal with
  | s : step |- _ =>
      destruct (isEpicLevel (src s)), (Moment.isAfter (created s) _),
        (completionTest (src s)), (inProgressTest (src s)),
        (needsAttentionTest _ (updated s) (src s))
  end;
  cbn; rewrite ?app_nil_r; reflexivity.

Section OneStep.
Variables (wk now : Moment.t) (s : step) (c : Categorized.t).
Let c' := pushed wk now (created s) (updated s) (src s) (addr s) c.
Let n := addr s.
Let pick (b : bool) : list ref := if b then [n] else [].
Let rec (b : bool) : list ref := if needsAttention now s && b then [S n] else [].

Lemma pushed_buckets :
  Categorized.all c' = Categorized.all c ++ pick (negb (epicLevel s))
  /\ Categorized.completed c' = Categorized.completed c ++ pick (completes s)
  /\ Categorized.inProgress c' = Categorized.inProgress c ++ pick (progresses s)
  /\ Categorized.newIssues c' = Categorized.newIssues c ++ pick (isNew wk s)
  /\ Categorized.needsAttention c' = Categorized.needsAttention c ++ rec true.
Proof.
  unfold c', pick, rec, n, epicLevel, completes, progresses, isNew, needsAttention.
  repeat split; push_cases.
Qed.

Lemma pushed_level_buckets (level : bool) :
  let cat := if level then Categorized.epics else Categorized.subEpicItems in
  let here := Bool.eqb (epicLevel s) level in
  Category.completed (cat c') = Category.completed (cat c) ++ pick (here && completes s)
  /\ Category.inProgress (cat c') = Category.inProgress (cat c) ++ pick (here && progresses s)
  /\ Category.newIssues (cat c') = Category.newIssues (cat c) ++ pick (here && isNew wk s)
  /\ Category.needsAttention (cat c') = Category.needsAttention (cat c) ++ rec here.
Proof.
  unfold c', pick, rec, n, epicLevel, completes, progresses, isNew, needsAttention.
  destruct level; cbv zeta; repeat split; push_cases.
Qed.

End OneStep.

Lemma applySteps_app wk now l1 l2 c :
  applySteps wk now (l1 ++ l2) c = applySteps wk now l2 (applySteps wk now l1 c).
Proof. apply fold_left_app. Qed.

Lemma applySteps_cons wk now s steps c :
  applySteps wk now (s :: steps) c
  = applySteps wk now steps (pushed wk now (created s) (updated s) (src s) (addr s) c).
Proof. reflexivity. Qed.

Lemma copies_cons test s steps :
  copies test (s :: steps) = (if test s then [addr s] else []) ++ copies test steps.
Proof. unfold copies. cbn [filter]. now destruct (test s). Qed.

Lemma records_cons now test s steps :
  records now test (s :: steps)
  = (if needsAttention now s && test s then [S (addr s)] else []) ++ records now test steps.
Proof. unfold records. cbn [filter]. now destruct (needsAttention now s && test s). Qed.

(** The arrays after the pushes of a list of steps. *)
Lemma applySteps_buckets wk now steps : forall c,
  let c' := applySteps wk now steps c in
  Categorized.all c' = Categorized.all c ++ copies (fun s => negb (epicLevel s)) steps
  /\ Categorized.completed c' = Categorized.completed c ++ copies completes steps
  /\ Categorized.inProgress c' = Categorized.inProgress c ++ copies progresses steps
  /\ Categorized.newIssues c' = Categorized.newIssues c ++ copies (isNew wk) steps
  /\ Categorized.needsAttention c'
     = Categorized.needsAttention c ++ records now (fun _ => true) steps.
Proof.
  induction steps as [| s steps IH]; intros c; cbv zeta.
  - cbn. now rewrite !app_nil_r.
  - rewrite applySteps_cons.
    destruct (IH (pushed wk now (created s) (updated s) (src s) (addr s) c))
      as (A1 & A2 & A3 & A4 & A5).
    destruct (pushed_buckets wk now s c) as (B1 & B2 & B3 & B4 & B5).
    rewrite A1, A2, A3, A4, A5, B1, B2, B3, B4, B5.
    rewrite !copies_cons, records_cons, <- !app_assoc. repeat split.
Qed.

Lemma applySteps_level_buckets wk now (level : bool) steps : forall c,
  let cat := if level then Categorized.epics else Categorized.subEpicItems in
  let here := fun s => Bool.eqb (epicLevel s) level in
  let c' := applySteps wk now steps c in
  Category.completed (cat c')
  = Category.completed (cat c) ++ copies (fun s => here s && completes s) steps
  /\ Category.inProgress (cat c')
     = Category.inProgress (cat c) ++ copies (fun s => here s && progresses s) steps
  /\ Category.newIssues (cat c')
     = Category.newIssues (cat c) ++ copies (fun s => here s && isNew wk s) steps
  /\ Category.needsAttention (cat c')
     = Category.needsAttention (cat c) ++ records now here steps.
Proof.
  induction steps as [| s steps IH]; intros c; cbv zeta.
  - cbn. now rewrite !app_nil_r.
  - rewrite applySteps_cons.
    destruct (IH (pushed wk now (created s) (updated s) (src s) (addr s) c))
      as (A1 & A2 & A3 & A4).
    destruct (pushed_level_buckets wk now s c level) as (B1 & B2 & B3 & B4).
    cbv zeta in A1, A2, A3, A4, B1, B2, B3, B4.
    rewrite A1, A2, A3, A4, B1, B2, B3, B4.
    rewrite !copies_cons, records_cons, <- !app_assoc. repeat split.
Qed.

Lemma stepsOf_ext now ck rd issues : forall hp hp' bk,
  (forall r, In r issues -> hp r = hp' r) ->
  stepsOf now ck hp rd bk issues = stepsOf now ck hp' rd bk issues.
Proof.
  revert rd. induction issues as [| r issues IH]; intros rd hp hp' bk H; [reflexivity |].
  cbn [stepsOf]. rewrite <- (H r) by now left. cbv zeta. f_equal.
  apply IH. intros r' Hr'. apply H. now right.
Qed.

Lemma stepsOf_src now ck hp issues : forall rd bk,
  List.map src (stepsOf now ck hp rd bk issues) = List.map hp issues.
Proof.
  induction issues as [| r issues IH]; intros rd bk; [reflexivity |].
  cbn [stepsOf List.map src]. cbv zeta. now rewrite IH.
Qed.

(** The objects of a run lie one after the other from the first free
    address on. *)
Lemma stepsOf_cells now ck hp issues : forall rd bk,
  let steps := stepsOf now ck hp rd bk issues in
  flat_map (cells now) steps = seq bk (List.length (flat_map (cells now) steps)).
Proof.
  induction issues as [| r issues IH]; intros rd bk; [reflexivity |].
  cbn [stepsOf]. cbv zeta. cbn [flat_map]. unfold cells at 1 3. cbn [addr].
  rewrite IH at 1.
  destruct (needsAttention now _); cbn [app List.length seq]; reflexivity.
Qed.

Lemma stepsOf_addr now ck hp issues rd bk s :
  In s (stepsOf now ck hp rd bk issues) -> (bk <= addr s)%nat.
Proof.
  intros H.
  assert (I : In (addr s) (flat_map (cells now) (stepsOf now ck hp rd bk issues))).
  { apply in_flat_map. exists s. split; [exact H | now left]. }
  rewrite stepsOf_cells in I. apply in_seq in I. lia.
Qed.

(** Each moment of a step is read off the issue's timestamp, or off a
    clock reading taken during the loop. *)
Lemma stepsOf_moments now ck hp issues : forall rd bk s,
  In s (stepsOf now ck hp rd bk issues) ->
  exists i j, (rd <= i <= j)%nat
    /\ created s = momentAt (Issue.created (src s)) (ck i)
    /\ updated s = momentAt (Issue.updated (src s)) (ck j).
Proof.
  induction issues as [| r issues IH]; intros rd bk s; [intros [] |].
  cbn [stepsOf]. cbv zeta. intros [<- | H].
  - cbn [created updated src]. eexists _, _. split; [| split; reflexivity]. lia.
  - destruct (IH _ _ _ H) as (i & j & L & A & B). exists i, j. split; [lia | now split].
Qed.

(** The loop, step by step. *)
Lemma forEach_steps now wk issues : forall c tz ck rd hp bk,
  (forall r, In r issues -> (r < bk)%nat) ->
  let steps := stepsOf now ck hp rd bk issues in
  exists w',
    forEach (categorizeIssue now wk) issues c (mkWorld tz ck rd hp bk)
    = Normal (applySteps wk now steps c) w'
    /\ (forall a, (a < bk)%nat -> heap w' a = hp a)
    /\ (forall s, In s steps ->
        heap w' (addr s) = normalizedIssue (src s)
        /\ (needsAttention now s = true ->
            heap w' (S (addr s)) = attentionObject now (updated s) (src s))).
Proof.
  induction issues as [| r issues IH]; intros c tz ck rd hp bk V.
  - exists (mkWorld tz ck rd hp bk). split; [reflexivity |]. split; [reflexivity |].
    intros s [].
  - cbn [forEach]. unfold bind. rewrite categorizeIssue_run. cbv zeta.
    cbn [stepsOf]. cbv zeta.
    set (o := hp r).
    set (cr := momentAt (Issue.created o) (ck rd)).
    set (up := momentAt (Issue.updated o) (ck (uses (Issue.created o) + rd)%nat)).
    set (s0 := mkStep o bk cr up).
    set (w0 := mkWorld tz ck rd hp bk).
    destruct (stepWorld_facts now up o w0) as (S1 & S2 & S3 & S4 & S5 & S6 & S7).
    cbn [brk heap reads clock w0] in S1, S2, S3, S4, S5, S6, S7.
    change (needsAttention now s0) with (needsAttentionTest now up o).
    destruct (stepWorld now up o w0) as [tz1 ck1 rd1 hp1 bk1] eqn:W1.
    cbn [brk heap reads clock] in S1, S2, S3, S4, S5, S6, S7. subst ck1 rd1.
    assert (B1 : bk1 = if needsAttentionTest now up o then S (S bk) else S bk).
    { destruct (needsAttentionTest now up o); [now apply S5 | now apply S6]. }
    rewrite <- B1.
    assert (V1 : forall r', In r' issues -> (r' < bk1)%nat).
    { intros r' H. specialize (V r' (or_intror H)). lia. }
    destruct (IH (pushed wk now cr up o bk c) tz1 ck
                 (uses (Issue.updated o) + (uses (Issue.created o) + rd))%nat hp1 bk1 V1)
      as (w' & E & K & F).
    rewrite (stepsOf_ext now ck _ issues hp1 hp bk1) in E, F
      by (intros r' H; apply S3, V; now right).
    exists w'. split; [exact E |]. split.
    + intros a Ha. rewrite K by lia. now apply S3.
    + intros s [<- | H]; [| now apply F].
      unfold s0. cbn [addr src updated]. split.
      * rewrite K by lia. exact S4.
      * intros A. change (needsAttentionTest now up o = true) in A.
        destruct (S5 A) as [B2 H2]. rewrite K by lia. exact H2.
Qed.

(** A call of [categorizeJiraCliIssues], step by step. *)
Lemma categorizeJiraCliIssues_steps issues w :
  (forall r, In r issues -> (r < brk w)%nat) ->
  let steps := stepsIn w issues in
  exists w',
    categorizeJiraCliIssues issues w
    = Normal (resultOf (applySteps (oneWeekAgoOf w) (nowOf w) steps Categorized.empty)) w'
    /\ (forall a, (a < brk w)%nat -> heap w' a = heap w a)
    /\ (forall s, In s steps ->
        heap w' (addr s) = normalizedIssue (src s)
        /\ (needsAttention (nowOf w) s = true ->
            heap w' (S (addr s)) = attentionObject (nowOf w) (updated s) (src s))).
Proof.
  intros V. rewrite categorizeJiraCliIssues_run.
  destruct (forEach_steps (nowOf w) (oneWeekAgoOf w) issues Categorized.empty
              (zone w) (clock w) (S (S (reads w))) (heap w) (brk w) V) as (w' & E & K & F).
  exists w'. unfold started. rewrite E. split; [reflexivity | now split].
Qed.

End StepFacts.

(* ================================================================= *)
(** ** What the arrays of a categorisation hold *)

Module BucketFacts.
Import ReportGenerator Conditions Invariants Spec CategorizeFacts Steps StepFacts.
Open Scope list_scope.

Lemma filter_map_comm {A B} (f : A -> B) (p : B -> bool) (l : list A) :
  filter p (List.map f l) = List.map f (filter (fun x => p (f x)) l).
Proof.
  induction l as [| x l IH]; [reflexivity |].
  cbn. destruct (p (f x)); cbn; now rewrite IH.
Qed.

Lemma filter_filter {A} (p q : A -> bool) (l : list A) :
  filter p (filter q l) = filter (fun x => q x && p x) l.
Proof.
  induction l as [| x l IH]; [reflexivity |].
  cbn. destruct (q x); cbn; [destruct (p x) |]; now rewrite IH.
Qed.

(** The copies of the steps that pass a test on the issue are the copies
    of the issues that pass it, in order. *)
Lemma copies_heap (hp : ref -> Issue.t) (test : Issue.t -> bool) (steps : list step) :
  (forall s, In s steps -> hp (addr s) = normalizedIssue (src s)) ->
  List.map hp (copies (fun s => test (src s)) steps)
  = List.map normalizedIssue (filter test (List.map src steps)).
Proof.
  intros F. unfold copies. rewrite filter_map_comm, !map_map.
  apply map_ext_in. intros s Hs. apply F. apply filter_In in Hs. tauto.
Qed.

Lemma isEpicLevel_normalized o : isEpicLevel (normalizedIssue o) = isEpicLevel o.
Proof.
  unfold isEpicLevel, normalizedIssue. cbn.
  destruct (Js.or (Issue.issuetype o) (Issue.type o)) as [| | [| a s]]; reflexivity.
Qed.

Lemma isEpicLevel_attention now updated o :
  isEpicLevel (attentionObject now updated o) = isEpicLevel o.
Proof. rewrite <- (isEpicLevel_normalized o). reflexivity. Qed.

Lemma copies_level (hp : ref -> Issue.t) (level : bool) (test : step -> bool) steps :
  (forall s, In s steps -> hp (addr s) = normalizedIssue (src s)) ->
  copies (fun s => Bool.eqb (epicLevel s) level && test s) steps
  = filter (fun r => Bool.eqb (isEpicLevel (hp r)) level) (copies test steps).
Proof.
  intros F. unfold copies. rewrite filter_map_comm, filter_filter. f_equal.
  apply filter_ext_in. intros s Hs. rewrite (F s Hs), isEpicLevel_normalized.
  unfold epicLevel. apply andb_comm.
Qed.

Lemma records_level (hp : ref -> Issue.t) now (level : bool) steps :
  (forall s, In s steps -> needsAttention now s = true ->
             hp (S (addr s)) = attentionObject now (updated s) (src s)) ->
  records now (fun s => Bool.eqb (epicLevel s) level) steps
  = filter (fun r => Bool.eqb (isEpicLevel (hp r)) level) (records now (fun _ => true) steps).
Proof.
  intros F. unfold records. rewrite filter_map_comm, filter_filter. f_equal.
  apply filter_ext_in. intros s Hs.
  destruct (needsAttention now s) eqn:A; [| reflexivity].
  rewrite (F s Hs A), isEpicLevel_attention. reflexivity.
Qed.

(** X1.  The arrays filled by the status tests hold, in the order of the input,
    the copies of the issues that pass the test: [completed] of those with
    a truthy resolution and a done word in the status, [inProgress] of
    those that are not completed and have a progress word, [all] of those
    below epic level. *)
Theorem categorizeJiraCliIssues_status_buckets (issues : list ref) (w : World) :
  (forall r, In r issues -> (r < brk w)%nat) ->
  exists cs w',
    categorizeJiraCliIssues issues w = Normal cs w'
    /\ List.map (heap w') (CategorizedSet.completed cs)
       = List.map normalizedIssue (filter completionTest (List.map (heap w) issues))
    /\ List.map (heap w') (CategorizedSet.inProgress cs)
       = List.map normalizedIssue
           (filter (fun o => negb (completionTest o) && inProgressTest o)
                   (List.map (heap w) issues))
    /\ List.map (heap w') (CategorizedSet.all cs)
       = List.map normalizedIssue
           (filter (fun o => negb (isEpicLevel o)) (List.map (heap w) issues)).
Proof.
  intros V. destruct (categorizeJiraCliIssues_steps issues w V) as (w' & E & K & F).
  eexists _, w'. split; [exact E |].
  cbn [resultOf CategorizedSet.completed CategorizedSet.inProgress CategorizedSet.all].
  destruct (applySteps_buckets (oneWeekAgoOf w) (nowOf w) (stepsIn w issues) Categorized.empty)
    as (A1 & A2 & A3 & _).
  rewrite A1, A2, A3. cbn [Categorized.empty Categorized.all Categorized.completed
                            Categorized.inProgress app].
  assert (F1 : forall s, In s (stepsIn w issues) -> heap w' (addr s) = normalizedIssue (src s))
    by (intros s Hs; now apply F).
  rewrite <- (stepsOf_src (nowOf w) (clock w) (heap w) issues (S (S (reads w))) (brk w)).
  fold (stepsIn w issues).
  repeat split.
  - exact (copies_heap (heap w') completionTest _ F1).
  - exact (copies_heap (heap w') (fun o => negb (completionTest o) && inProgressTest o) _ F1).
  - exact (copies_heap (heap w') (fun o => negb (isEpicLevel o)) _ F1).
Qed.

(** X1, witness.  The theorem on the three issues of [Samples.board]. *)
Lemma categorizeJiraCliIssues_status_buckets_witness :
  exists cs w',
    categorizeJiraCliIssues Samples.boardIssues Samples.board = Normal cs w'
    /\ List.map (heap w') (CategorizedSet.completed cs)
       = List.map normalizedIssue
           (filter completionTest (List.map (heap Samples.board) Samples.boardIssues))
    /\ List.map (heap w') (CategorizedSet.inProgress cs)
       = List.map normalizedIssue
           (filter (fun o => negb (completionTest o) && inProgressTest o)
                   (List.map (heap Samples.board) Samples.boardIssues))
    /\ List.map (heap w') (CategorizedSet.all cs)
       = List.map normalizedIssue
           (filter (fun o => negb (isEpicLevel o))
                   (List.map (heap Samples.board) Samples.boardIssues)).
Proof.
  apply (categorizeJiraCliIssues_status_buckets Samples.boardIssues Samples.board).
  intros r [<- | [<- | [<- | []]]]; cbn; lia.
Defined.

(** X2.  Every array of [epics] holds the objects of the legacy array of its
    name whose type is epic, initiative or theme, and the array of
    [subEpicItems] holds the others, both in the order of the legacy
    array. *)
Theorem categorizeJiraCliIssues_levels (issues : list ref) (w : World) :
  (forall r, In r issues -> (r < brk w)%nat) ->
  exists cs w',
    categorizeJiraCliIssues issues w = Normal cs w'
    /\ forall level : bool,
       let cat := if level then CategorizedSet.epics cs else CategorizedSet.subEpicItems cs in
       let ofLevel := filter (fun r => Bool.eqb (isEpicLevel (heap w' r)) level) in
       Category.completed cat = ofLevel (CategorizedSet.completed cs)
       /\ Category.inProgress cat = ofLevel (CategorizedSet.inProgress cs)
       /\ Category.newIssues cat = ofLevel (CategorizedSet.newIssues cs)
       /\ Category.needsAttention cat = ofLevel (CategorizedSet.needsAttention cs).
Proof.
  intros V. destruct (categorizeJiraCliIssues_steps issues w V) as (w' & E & K & F).
  eexists _, w'. split; [exact E |]. intros level. cbv zeta.
  set (steps := stepsIn w issues) in *.
  set (c := applySteps (oneWeekAgoOf w) (nowOf w) steps Categorized.empty).
  destruct (applySteps_buckets (oneWeekAgoOf w) (nowOf w) steps Categorized.empty)
    as (_ & A2 & A3 & A4 & A5).
  destruct (applySteps_level_buckets (oneWeekAgoOf w) (nowOf w) level steps Categorized.empty)
    as (B1 & B2 & B3 & B4).
  fold c in A2, A3, A4, A5, B1, B2, B3, B4.
  assert (F1 : forall s, In s steps -> heap w' (addr s) = normalizedIssue (src s))
    by (intros s Hs; now apply F).
  assert (F2 : forall s, In s steps -> needsAttention (nowOf w) s = true ->
               heap w' (S (addr s)) = attentionObject (nowOf w) (updated s) (src s))
    by (intros s Hs; now apply F).
  cbn [resultOf CategorizedSet.completed CategorizedSet.inProgress CategorizedSet.newIssues
       CategorizedSet.needsAttention CategorizedSet.epics CategorizedSet.subEpicItems].
  rewrite A2, A3, A4, A5.
  cbn [Categorized.empty Categorized.completed Categorized.inProgress Categorized.newIssues
       Categorized.needsAttention app].
  rewrite <- (copies_level (heap w') level completes steps F1).
  rewrite <- (copies_level (heap w') level progresses steps F1).
  rewrite <- (copies_level (heap w') level (isNew (oneWeekAgoOf w)) steps F1).
  rewrite <- (records_level (heap w') (nowOf w) level steps F2).
  destruct level; cbv zeta in B1, B2, B3, B4;
    cbn [Categorized.empty Categorized.epics Categorized.subEpicItems Category.empty
         Category.completed Category.inProgress Category.newIssues Category.needsAttention app]
      in B1, B2, B3, B4;
    now rewrite B1, B2, B3, B4.
Qed.

(** X2, witness.  The theorem on the three issues of [Samples.board]. *)
Lemma categorizeJiraCliIssues_levels_witness :
  exists cs w',
    categorizeJiraCliIssues Samples.boardIssues Samples.board = Normal cs w'
    /\ forall level : bool,
       let cat := if level then CategorizedSet.epics cs else CategorizedSet.subEpicItems cs in
       let ofLevel := filter (fun r => Bool.eqb (isEpicLevel (heap w' r)) level) in
       Category.completed cat = ofLevel (CategorizedSet.completed cs)
       /\ Category.inProgress cat = ofLevel (CategorizedSet.inProgress cs)
       /\ Category.newIssues cat = ofLevel (CategorizedSet.newIssues cs)
       /\ Category.needsAttention cat = ofLevel (CategorizedSet.needsAttention cs).
Proof.
  apply (categorizeJiraCliIssues_levels Samples.boardIssues Samples.board).
  intros r [<- | [<- | [<- | []]]]; cbn; lia.
Defined.

(** X3.  No issue has a record both in [completed] and in [needsAttention]:
    every object of [completed] has a truthy resolution and every object
    of [needsAttention] a falsy one. *)
Theorem categorizeJiraCliIssues_completed_never_attention (issues : list ref) (w : World) :
  (forall r, In r issues -> (r < brk w)%nat) ->
  exists cs w',
    categorizeJiraCliIssues issues w = Normal cs w'
    /\ (forall x, In x (CategorizedSet.completed cs) ->
        Js.truthy (Issue.resolution (heap w' x)) = true)
    /\ (forall x, In x (CategorizedSet.needsAttention cs) ->
        Js.truthy (Issue.resolution (heap w' x)) = false)
    /\ (forall issue, ~ (placedIn w' (CategorizedSet.completed cs) issue
                         /\ placedIn w' (CategorizedSet.needsAttention cs) issue)).
Proof.
  intros V. destruct (categorizeJiraCliIssues_steps issues w V) as (w' & E & K & F).
  eexists _, w'. split; [exact E |].
  set (steps := stepsIn w issues) in *.
  destruct (applySteps_buckets (oneWeekAgoOf w) (nowOf w) steps Categorized.empty)
    as (_ & A2 & _ & _ & A5).
  cbn [resultOf CategorizedSet.completed CategorizedSet.needsAttention].
  rewrite A2, A5. cbn [Categorized.empty Categorized.completed Categorized.needsAttention app].
  assert (C : forall x, In x (copies completes steps) ->
                Js.truthy (Issue.resolution (heap w' x)) = true).
  { intros x Hx. apply in_map_iff in Hx. destruct Hx as (s & <- & Hs).
    apply filter_In in Hs. destruct Hs as [Hs T].
    destruct (F s Hs) as [-> _]. unfold completes, completionTest in T.
    apply andb_true_iff in T. cbn. tauto. }
  assert (A : forall x, In x (records (nowOf w) (fun _ => true) steps) ->
                Js.truthy (Issue.resolution (heap w' x)) = false).
  { intros x Hx. apply in_map_iff in Hx. destruct Hx as (s & <- & Hs).
    apply filter_In in Hs. destruct Hs as [Hs T]. rewrite andb_true_r in T.
    destruct (F s Hs) as [_ ->]; [| exact T].
    unfold needsAttention, needsAttentionTest in T.
    apply andb_true_iff in T. destruct T as [_ T]. apply negb_true_iff in T. exact T. }
  split; [exact C |]. split; [exact A |].
  intros issue [(x & Hx & Rx) (y & Hy & Ry)].
  apply recordOf_tests in Rx, Ry. destruct Rx as [Rx _]. destruct Ry as [Ry _].
  specialize (C x Hx). specialize (A y Hy). congruence.
Qed.

(** X3, witness.  The theorem on the three issues of [Samples.board]. *)
Lemma categorizeJiraCliIssues_completed_never_attention_witness :
  exists cs w',
    categorizeJiraCliIssues Samples.boardIssues Samples.board = Normal cs w'
    /\ (forall x, In x (CategorizedSet.completed cs) ->
        Js.truthy (Issue.resolution (heap w' x)) = true)
    /\ (forall x, In x (CategorizedSet.needsAttention cs) ->
        Js.truthy (Issue.resolution (heap w' x)) = false)
    /\ (forall issue, ~ (placedIn w' (CategorizedSet.completed cs) issue
                         /\ placedIn w' (CategorizedSet.needsAttention cs) issue)).
Proof.
  apply (categorizeJiraCliIssues_completed_never_attention Samples.boardIssues Samples.board).
  intros r [<- | [<- | [<- | []]]]; cbn; lia.
Defined.

End BucketFacts.

(* ================================================================= *)
(** ** Time values in doubles *)

Module TimeFacts.
Import ReportGenerator Conditions Invariants Spec CategorizeFacts NumFacts Times Measures.
Open Scope list_scope.
Open Scope Q_scope.

Lemma rnd_nonpos x : x <= 0 -> Num.rnd x <= 0.
Proof.
  intros H. unfold Num.rnd. destruct (Qeq_bool x 0) eqn:E; [lra |].
  rewrite Qred_correct.
  assert (Z0 : inject_Z 0 * Num.pow2 (Num.fexp x) == 0) by ring.
  assert (L : (Num.Qrne (x / Num.pow2 (Num.fexp x)) <= 0)%Z).
  { apply Qrne_scaled_le. rewrite Z0. exact H. }
  rewrite Zle_Qle in L.
  pose proof (pow2_pos (Num.fexp x)) as P.
  change (inject_Z 0) with 0 in L. nra.
Qed.

Lemma ofQ_nonpos x : x <= 0 -> nonpos (Num.ofQ x).
Proof.
  intros H. unfold Num.ofQ.
  destruct (Qle_bool _ _).
  - cbn. apply Qle_bool_iff. exact H.
  - cbn. now apply rnd_nonpos.
Qed.

Lemma div_nonpos a y : nonpos a -> 0 < y -> nonpos (Num.div a (Num.Fin y)).
Proof.
  intros Ha Hy. destruct a as [| s | x]; cbn in Ha; [destruct Ha | |].
  - subst s. cbn. unfold Num.isNeg.
    replace (Qle_bool 0 y) with true; [reflexivity |].
    symmetry. apply Qle_bool_iff. lra.
  - cbn. destruct (Qeq_bool y 0) eqn:E; [apply Qeq_bool_iff in E; lra |].
    apply ofQ_nonpos.
    assert (x / y <= 0 / y).
    { apply Qmult_le_compat_r; [exact Ha | apply Qlt_le_weak, Qinv_lt_0_compat, Hy]. }
    assert (0 / y == 0) by (field; lra). lra.
Qed.

Lemma floor_nonpos a : nonpos a -> nonpos (Num.floor a).
Proof.
  destruct a as [| s | x]; cbn; auto. intros H.
  pose proof (Qfloor_le x). lra.
Qed.

Lemma gt_nonpos a k : nonpos a -> 0 <= k -> Num.gt a (Num.Fin k) = false.
Proof.
  intros Ha Hk. destruct a as [| s | x]; cbn in *; [destruct Ha | now subst |].
  apply negb_false_iff. apply Qle_bool_iff. lra.
Qed.

Lemma ofZ_exact n : (0 <= n < 2 ^ 53)%Z -> Num.ofZ n = Num.Fin (inject_Z n).
Proof. intros H. apply ofQ_exact; [reflexivity | exact H]. Qed.

Lemma maxTime_small : (maxTime < 2 ^ 53)%Z.
Proof. reflexivity. Qed.

Lemma timeClip_exact n :
  (0 <= n <= maxTime)%Z -> Date.timeClip (Num.Fin (inject_Z n)) = Num.Fin (inject_Z n).
Proof.
  intros H. unfold Date.timeClip.
  assert (P : 0 <= inject_Z n) by (change 0 with (inject_Z 0); rewrite <- Zle_Qle; lia).
  replace (Qle_bool (Qabs (inject_Z n)) (inject_Z 8640000000000000)) with true.
  - replace (Qle_bool 0 (inject_Z n)) with true by (symmetry; now apply Qle_bool_iff).
    rewrite Qfloor_Z. now rewrite Z.add_0_r.
  - symmetry. apply Qle_bool_iff. rewrite Qabs_pos by exact P.
    rewrite <- Zle_Qle. exact (proj2 H).
Qed.

(** The Date of a time value in range is that time value. *)
Lemma time_exact n :
  (0 <= n <= maxTime)%Z -> Date.timeClip (Num.ofZ n) = Num.Fin (inject_Z n).
Proof.
  intros H. pose proof maxTime_small. rewrite ofZ_exact by lia. now apply timeClip_exact.
Qed.

Lemma sub_exact a b :
  (0 <= a - b < 2 ^ 53)%Z ->
  Num.sub (Num.Fin (inject_Z a)) (Num.Fin (inject_Z b)) = Num.Fin (inject_Z (a - b)).
Proof.
  intros H. unfold Num.sub, Num.neg, Num.add. apply ofQ_exact; [| exact H].
  unfold Z.sub. rewrite inject_Z_plus, inject_Z_opp. reflexivity.
Qed.

Lemma sub_nonpos a b :
  (a <= b)%Z -> nonpos (Num.sub (Num.Fin (inject_Z a)) (Num.Fin (inject_Z b))).
Proof.
  intros H. unfold Num.sub, Num.neg, Num.add. apply ofQ_nonpos.
  rewrite Zle_Qle in H. lra.
Qed.

Lemma gt_Z a b : Num.gt (Num.Fin (inject_Z a)) (Num.Fin (inject_Z b)) = (b <? a)%Z.
Proof.
  unfold Num.gt, Num.lt.
  destruct (Z.ltb_spec b a) as [H | H].
  - apply negb_true_iff. destruct (Qle_bool _ _) eqn:E; [| reflexivity].
    apply Qle_bool_iff in E. rewrite <- Zle_Qle in E. lia.
  - apply negb_false_iff. apply Qle_bool_iff. now rewrite Zle_Qle in H.
Qed.

Lemma msPerDay_pos : 0 < inject_Z Date.msPerDay.
Proof. reflexivity. Qed.

(** The quotient of a time span by the length of a day is below [k] days
    after rounding as soon as the span is. *)
Lemma days_below (x k : Z) (limit : Q) :
  (0 <= x < k * Date.msPerDay)%Z ->
  limit = Num.rnd (inject_Z (k * Date.msPerDay - 1) / inject_Z Date.msPerDay) ->
  limit < inject_Z k ->
  (Qfloor (Num.rnd (inject_Z x / inject_Z Date.msPerDay)) < k)%Z.
Proof.
  intros Hx -> Hl.
  assert (M : Num.rnd (inject_Z x / inject_Z Date.msPerDay)
              <= Num.rnd (inject_Z (k * Date.msPerDay - 1) / inject_Z Date.msPerDay)).
  { apply rnd_mono.
    - apply Qle_shift_div_l; [apply msPerDay_pos |].
      assert (0 <= inject_Z x) by (change 0 with (inject_Z 0); rewrite <- Zle_Qle; lia). lra.
    - apply Qmult_le_compat_r.
      + rewrite <- Zle_Qle. lia.
      + apply Qlt_le_weak, Qinv_lt_0_compat, msPerDay_pos. }
  apply Z.lt_nge. intros G.
  rewrite Zle_Qle in G.
  pose proof (Qfloor_le (Num.rnd (inject_Z x / inject_Z Date.msPerDay))). lra.
Qed.

Lemma days_reached (x k : Z) :
  (0 <= k < 2 ^ 53)%Z -> (k * Date.msPerDay <= x)%Z ->
  (k <= Qfloor (Num.rnd (inject_Z x / inject_Z Date.msPerDay)))%Z.
Proof.
  intros Hk Hx.
  assert (M : Num.rnd (inject_Z k) <= Num.rnd (inject_Z x / inject_Z Date.msPerDay)).
  { apply rnd_mono.
    - change 0 with (inject_Z 0). rewrite <- Zle_Qle. lia.
    - apply Qle_shift_div_l; [apply msPerDay_pos |].
      rewrite <- inject_Z_mult, <- Zle_Qle. exact Hx. }
  rewrite (rnd_exact (inject_Z k) k) in M by (reflexivity || exact Hk).
  rewrite <- (Qfloor_Z k). now apply Qfloor_resp_le.
Qed.

(** [diff] in days of two Dates in range, the later one first. *)
Lemma diff_exact t u :
  (0 <= u <= t)%Z -> (t <= maxTime)%Z ->
  Moment.diff (Moment.make (Num.Fin (inject_Z t))) (Moment.make (Num.Fin (inject_Z u)))
  = Num.Fin (inject_Z (Qfloor (Num.rnd (inject_Z (t - u) / inject_Z Date.msPerDay)))).
Proof.
  intros Hu Ht. pose proof maxTime_small as MS. unfold Moment.diff. cbn [Moment.d].
  rewrite sub_exact by lia.
  rewrite ofZ_exact by (cbv; split; [discriminate | reflexivity]).
  unfold Num.div.
  replace (Qeq_bool (inject_Z Date.msPerDay) 0) with false by reflexivity.
  destruct (ofQ_bounded (inject_Z (t - u) / inject_Z Date.msPerDay) (t - u)) as [E _].
  - apply Qle_shift_div_l; [apply msPerDay_pos |].
    assert (0 <= inject_Z (t - u)) by (change 0 with (inject_Z 0); rewrite <- Zle_Qle; lia). lra.
  - apply Qle_shift_div_r; [apply msPerDay_pos |].
    assert (0 <= inject_Z (t - u)) by (change 0 with (inject_Z 0); rewrite <- Zle_Qle; lia).
    assert (1 <= inject_Z Date.msPerDay) by (rewrite <- (Zle_Qle 1); cbv; discriminate). nra.
  - lia.
  - rewrite E. reflexivity.
Qed.

(** [now.diff(updated, 'days') > k - 1] for two Dates in range says that
    at least [k] whole days lie between them, for the two values of [k]
    that the loop uses. *)
Lemma diff_gt t u (k : Z) :
  (0 <= u <= maxTime)%Z -> (0 <= t <= maxTime)%Z -> k = 4%Z \/ k = 8%Z ->
  Num.gt (Moment.diff (Moment.make (Num.Fin (inject_Z t))) (Moment.make (Num.Fin (inject_Z u))))
         (Num.Fin (inject_Z (k - 1)))
  = (k * Date.msPerDay <=? t - u)%Z.
Proof.
  intros Hu Ht Hk.
  destruct (Z.le_gt_cases u t) as [L | L].
  - rewrite diff_exact by lia. rewrite gt_Z.
    destruct (Z.leb_spec (k * Date.msPerDay) (t - u)) as [G | G].
    + apply Z.ltb_lt.
      assert (k <= Qfloor (Num.rnd (inject_Z (t - u) / inject_Z Date.msPerDay)))%Z; [| lia].
      apply days_reached; [| exact G]. destruct Hk; subst k; cbv; split; congruence.
    + apply Z.ltb_ge.
      assert (Qfloor (Num.rnd (inject_Z (t - u) / inject_Z Date.msPerDay)) < k)%Z; [| lia].
      destruct Hk; subst k.
      * eapply days_below; [lia | reflexivity | vm_compute; reflexivity].
      * eapply days_below; [lia | reflexivity | vm_compute; reflexivity].
  - rewrite gt_nonpos.
    + symmetry. apply Z.leb_gt. destruct Hk; subst k; cbv [Date.msPerDay]; lia.
    + apply floor_nonpos. unfold Moment.diff. cbn [Moment.d].
      rewrite ofZ_exact by (cbv; split; [discriminate | reflexivity]).
      apply div_nonpos; [| apply msPerDay_pos]. apply sub_nonpos. lia.
    + change 0 with (inject_Z 0). rewrite <- Zle_Qle. destruct Hk; subst k; lia.
Qed.

End TimeFacts.

(* ================================================================= *)
(** ** The time tests of the categorisation *)

Module ThresholdFacts.
Import ReportGenerator Conditions Invariants Spec CategorizeFacts NumFacts RoundingFacts
  Steps Times StepFacts BucketFacts TimeFacts.
Open Scope string_scope.
Open Scope list_scope.

Lemma stepsIn_src w issues s :
  In s (stepsIn w issues) -> In (src s) (List.map (heap w) issues).
Proof.
  intros H. unfold stepsIn in H.
  rewrite <- (stepsOf_src (nowOf w) (clock w) (heap w) issues (S (S (reads w))) (brk w)).
  now apply in_map.
Qed.

Lemma nowOf_exact w :
  inRange (clock w (reads w)) ->
  nowOf w = Moment.make (Num.Fin (inject_Z (clock w (reads w)))).
Proof. intros H. unfold nowOf, momentAt. now rewrite time_exact. Qed.

(** Going back whole days from a time in range, in any zone, is exact. *)
Lemma daysBack_exact z t n :
  inRange t -> inRange (daysBefore z t n) ->
  Date.daysBack z (Num.Fin (inject_Z t)) n = Num.Fin (inject_Z (daysBefore z t n)).
Proof.
  intros Ht Hb. unfold Date.daysBack. rewrite Qfloor_Z.
  fold (localTime z t). fold (daysBefore z t n). now apply time_exact.
Qed.

(** In a zone whose offsets stay within a day, [n] calendar days back
    are between [n - 2] and [n + 2] times 24 hours back. *)
Lemma daysBefore_bounds z t n :
  mild z ->
  (t - (n + 2) * Date.msPerDay <= daysBefore z t n <= t - (n - 2) * Date.msPerDay)%Z.
Proof.
  intros Z. unfold daysBefore, localTime.
  destruct (Z t) as [U _].
  destruct (Z (t + Zone.utcOffset z t - n * Date.msPerDay)%Z) as [_ L].
  lia.
Qed.

Lemma oneWeekAgoOf_exact w :
  mild (zone w) ->
  (9 * Date.msPerDay <= clock w (S (reads w)) <= maxTime)%Z ->
  oneWeekAgoOf w
  = Moment.make (Num.Fin (inject_Z (daysBefore (zone w) (clock w (S (reads w))) 7))).
Proof.
  intros Z H. pose proof (daysBefore_bounds (zone w) (clock w (S (reads w))) 7 Z) as B.
  unfold oneWeekAgoOf, momentAt. cbn [Moment.d].
  rewrite time_exact by (unfold Date.msPerDay in H; lia).
  rewrite daysBack_exact; [reflexivity | |]; unfold inRange, Date.msPerDay in *; lia.
Qed.

(** Under a steady clock the loop finds an issue new when its creation
    time is after [oneWeekAgo]. *)
Lemma isNew_createdAfter issues w s :
  steady w -> mild (zone w) -> (9 * Date.msPerDay <= clock w (reads w))%Z ->
  (forall o, In o (List.map (heap w) issues) -> stampInRange (Issue.created o)) ->
  In s (stepsIn w issues) ->
  isNew (oneWeekAgoOf w) s
  = createdAfter (daysBefore (zone w) (clock w (S (reads w))) 7) (src s).
Proof.
  intros [Mono Bound] Z Start Stamps Hs.
  assert (T1 : (9 * Date.msPerDay <= clock w (S (reads w)) <= maxTime)%Z).
  { split; [| apply Bound; lia]. specialize (Mono (reads w) (S (reads w))). lia. }
  rewrite (oneWeekAgoOf_exact w Z T1).
  pose proof (daysBefore_bounds (zone w) (clock w (S (reads w))) 7 Z) as B.
  specialize (Stamps (src s) (stepsIn_src w issues s Hs)).
  destruct (stepsOf_moments _ _ _ _ _ _ _ Hs) as (i & j & L & C & _).
  unfold isNew, createdAfter, Moment.isAfter. rewrite C.
  destruct (Issue.created (src s)) as [| | c]; cbn [momentAt Moment.d].
  - assert (Ti : (clock w (S (reads w)) <= clock w i <= maxTime)%Z).
    { split; [apply Mono | apply Bound]; lia. }
    rewrite time_exact by (unfold Date.msPerDay in T1; lia).
    rewrite gt_Z. apply Z.ltb_lt. unfold Date.msPerDay in *. lia.
  - reflexivity.
  - cbn in Stamps. unfold inRange in Stamps. rewrite time_exact by exact Stamps.
    apply gt_Z.
Qed.

(** ... and in need of attention when it is unresolved and was last
    updated four whole days before [now]. *)
Lemma needsAttention_unresolvedIdle issues w s :
  steady w -> (0 <= clock w (reads w))%Z ->
  (forall o, In o (List.map (heap w) issues) -> stampInRange (Issue.updated o)) ->
  In s (stepsIn w issues) ->
  needsAttention (nowOf w) s = unresolvedIdle (clock w (reads w)) (src s)
  /\ (needsAttention (nowOf w) s = true ->
      attentionObject (nowOf w) (updated s) (src s)
      = attentionRecord (clock w (reads w)) (src s)).
Proof.
  intros [Mono Bound] Start Stamps Hs.
  assert (T0 : inRange (clock w (reads w))).
  { split; [exact Start | apply Bound; lia]. }
  rewrite (nowOf_exact w T0).
  specialize (Stamps (src s) (stepsIn_src w issues s Hs)).
  destruct (stepsOf_moments _ _ _ _ _ _ _ Hs) as (i & j & L & _ & U).
  unfold needsAttention, needsAttentionTest, unresolvedIdle, attentionObject,
    attentionRecord, idle.
  rewrite U.
  destruct (Issue.updated (src s)) as [| | u]; cbn [momentAt Moment.d].
  - assert (Tj : (clock w (reads w) <= clock w j <= maxTime)%Z).
    { split; [apply Mono | apply Bound]; lia. }
    rewrite time_exact by (unfold inRange in T0; lia).
    change (Num.Fin 3) with (Num.Fin (inject_Z (4 - 1))).
    rewrite diff_gt by (unfold inRange in T0; lia || now left).
    replace (4 * Date.msPerDay <=? clock w (reads w) - clock w j)%Z with false
      by (symmetry; apply Z.leb_gt; unfold Date.msPerDay; lia).
    rewrite andb_false_r. split; [reflexivity | discriminate].
  - replace (Num.gt _ _) with false by (symmetry; now apply diff_NaN).
    rewrite andb_false_r. split; [reflexivity | discriminate].
  - cbn in Stamps. unfold inRange in Stamps, T0.
    rewrite time_exact by exact Stamps. cbn [Moment.d].
    change (Num.Fin 3) with (Num.Fin (inject_Z (4 - 1))).
    change (Num.Fin 7) with (Num.Fin (inject_Z (8 - 1))).
    rewrite !diff_gt by (lia || now left || now right).
    rewrite Qfloor_Z. split; [apply andb_comm | reflexivity].
Qed.

Lemma records_heap (hp : ref -> Issue.t) now (test : Issue.t -> bool)
    (record : Issue.t -> Issue.t) (steps : list step) :
  (forall s, In s steps -> needsAttention now s = test (src s)) ->
  (forall s, In s steps -> needsAttention now s = true -> hp (S (addr s)) = record (src s)) ->
  List.map hp (records now (fun _ => true) steps)
  = List.map record (filter test (List.map src steps)).
Proof.
  intros T F. unfold records. rewrite filter_map_comm, !map_map.
  rewrite (filter_ext_in _ (fun s => test (src s))).
  - apply map_ext_in. intros s Hs. apply filter_In in Hs. destruct Hs as [Hs A].
    apply F; [exact Hs |]. now rewrite T.
  - intros s Hs. rewrite andb_true_r. now apply T.
Qed.

(** X4.  Under a clock that never goes back and shows a time at least nine
    days after the epoch, in a time zone whose offsets from UTC stay
    within a day, [newIssues] holds, in the order of the input, the
    copies of the issues created after [oneWeekAgo], the time at which
    the zone shows, seven calendar days before the second clock reading
    of the call, the wall clock of that reading; those without a creation
    time are included and those whose creation time does not parse are
    left out. *)
Theorem categorizeJiraCliIssues_newIssues (issues : list ref) (w : World) :
  (forall r, In r issues -> (r < brk w)%nat) ->
  steady w ->
  mild (zone w) ->
  (9 * Date.msPerDay <= clock w (reads w))%Z ->
  (forall o, In o (List.map (heap w) issues) -> stampInRange (Issue.created o)) ->
  exists cs w',
    categorizeJiraCliIssues issues w = Normal cs w'
    /\ List.map (heap w') (CategorizedSet.newIssues cs)
       = List.map normalizedIssue
           (filter (createdAfter (daysBefore (zone w) (clock w (S (reads w))) 7))
                   (List.map (heap w) issues)).
Proof.
  intros V St Z Start Stamps.
  destruct (categorizeJiraCliIssues_steps issues w V) as (w' & E & K & F).
  eexists _, w'. split; [exact E |].
  set (steps := stepsIn w issues) in *.
  destruct (applySteps_buckets (oneWeekAgoOf w) (nowOf w) steps Categorized.empty)
    as (_ & _ & _ & A4 & _).
  cbn [resultOf CategorizedSet.newIssues]. rewrite A4.
  cbn [Categorized.empty Categorized.newIssues app].
  rewrite <- (stepsOf_src (nowOf w) (clock w) (heap w) issues (S (S (reads w))) (brk w)).
  fold (stepsIn w issues). fold steps.
  rewrite <- (copies_heap (heap w')) by (intros s Hs; now apply F).
  unfold copies. do 2 f_equal. apply filter_ext_in. intros s Hs.
  now apply (isNew_createdAfter issues).
Qed.

Lemma fallBack_mild : mild Samples.fallBack.
Proof.
  intros t. unfold Samples.fallBack, Date.msPerDay. cbn [Zone.utcOffset Zone.localOffset].
  destruct (t <? 1699164000000)%Z, (t <? 1699149600000)%Z; lia.
Qed.

(** X4, witness.  The theorem on [Samples.lateBoard] in the zone
    [Samples.fallBack], where the seven calendar days before the clock
    reading are 169 hours. *)
Lemma categorizeJiraCliIssues_newIssues_witness :
  exists cs w',
    categorizeJiraCliIssues [0%nat] (Samples.lateBoard Samples.fallBack) = Normal cs w'
    /\ List.map (heap w') (CategorizedSet.newIssues cs)
       = List.map normalizedIssue
           (filter (createdAfter (Samples.afterChange - 169 * 3600000))
                   [Samples.lateStory]).
Proof.
  apply (categorizeJiraCliIssues_newIssues [0%nat] (Samples.lateBoard Samples.fallBack)).
  - intros r [<- | []]; cbn; lia.
  - split; intros; cbn; unfold maxTime, Samples.afterChange; lia.
  - exact fallBack_mild.
  - cbn. unfold Samples.afterChange, Date.msPerDay. lia.
  - intros o [<- | []]; cbn; unfold inRange, maxTime; lia.
Defined.

(** X5.  Under a clock that never goes back, [needsAttention] holds, in the
    order of the input, one record for each issue with a falsy resolution
    whose last update lies four whole days or more before the first clock
    reading of the call: the copy of the issue with the UTC date of the
    update as [lastUpdated] and a reason that says stale from eight whole
    days on.  An issue whose update time is missing or does not parse
    gets no record. *)
Theorem categorizeJiraCliIssues_needsAttention (issues : list ref) (w : World) :
  (forall r, In r issues -> (r < brk w)%nat) ->
  steady w ->
  (0 <= clock w (reads w))%Z ->
  (forall o, In o (List.map (heap w) issues) -> stampInRange (Issue.updated o)) ->
  exists cs w',
    categorizeJiraCliIssues issues w = Normal cs w'
    /\ List.map (heap w') (CategorizedSet.needsAttention cs)
       = List.map (attentionRecord (clock w (reads w)))
           (filter (unresolvedIdle (clock w (reads w))) (List.map (heap w) issues)).
Proof.
  intros V St Start Stamps.
  destruct (categorizeJiraCliIssues_steps issues w V) as (w' & E & K & F).
  eexists _, w'. split; [exact E |].
  set (steps := stepsIn w issues) in *.
  destruct (applySteps_buckets (oneWeekAgoOf w) (nowOf w) steps Categorized.empty)
    as (_ & _ & _ & _ & A5).
  cbn [resultOf CategorizedSet.needsAttention]. rewrite A5.
  cbn [Categorized.empty Categorized.needsAttention app].
  rewrite <- (stepsOf_src (nowOf w) (clock w) (heap w) issues (S (S (reads w))) (brk w)).
  fold (stepsIn w issues). fold steps.
  apply records_heap.
  - intros s Hs. now apply (needsAttention_unresolvedIdle issues w s St Start Stamps).
  - intros s Hs A. destruct (F s Hs) as [_ ->]; [| exact A].
    now apply (needsAttention_unresolvedIdle issues w s St Start Stamps).
Qed.

(** X5, witness.  The theorem on the three issues of [Samples.board], whose clock
    stands still. *)
Lemma categorizeJiraCliIssues_needsAttention_witness :
  exists cs w',
    categorizeJiraCliIssues Samples.boardIssues Samples.board = Normal cs w'
    /\ List.map (heap w') (CategorizedSet.needsAttention cs)
       = List.map (attentionRecord Inputs.noon)
           (filter (unresolvedIdle Inputs.noon)
                   (List.map (heap Samples.board) Samples.boardIssues)).
Proof.
  apply (categorizeJiraCliIssues_needsAttention Samples.boardIssues Samples.board).
  - intros r [<- | [<- | [<- | []]]]; cbn; lia.
  - split; intros; cbn; unfold maxTime, Inputs.noon; lia.
  - cbn. unfold Inputs.noon. lia.
  - intros o [<- | [<- | [<- | []]]]; cbn;
      unfold inRange, maxTime, Inputs.noon, Date.msPerDay; try lia; exact I.
Defined.

(** The quotient of a time span by the length of a day, rounded to a
    double, has the whole days of the span as its integer part. *)
Lemma days_floor (x k : Z) :
  (0 <= k)%Z -> (k * Date.msPerDay <= x < (k + 1) * Date.msPerDay)%Z -> (x <= maxTime)%Z ->
  Qfloor (Num.rnd (inject_Z x / inject_Z Date.msPerDay)) = k.
Proof.
  intros Hk Hx Hm.
  assert (Xq : (inject_Z x <= inject_Z maxTime)%Q) by (rewrite <- Zle_Qle; exact Hm).
  assert (Lq : (inject_Z k * 86400000 <= inject_Z x)%Q).
  { change 86400000%Q with (inject_Z Date.msPerDay).
    rewrite <- inject_Z_mult, <- Zle_Qle. lia. }
  assert (Uq : (inject_Z x <= (inject_Z k + 1) * 86400000 - 1)%Q).
  { assert (Uz : (inject_Z (x + 1) <= inject_Z ((k + 1) * Date.msPerDay))%Q)
      by (rewrite <- Zle_Qle; lia).
    rewrite inject_Z_mult, !inject_Z_plus in Uz.
    change (inject_Z Date.msPerDay) with 86400000%Q in Uz.
    change (inject_Z 1) with 1%Q in Uz. lra. }
  assert (Kq : (0 <= inject_Z k)%Q) by (rewrite <- (Zle_Qle 0); exact Hk).
  set (q := (inject_Z x / inject_Z Date.msPerDay)%Q).
  assert (Q : (q * 86400000 == inject_Z x)%Q).
  { unfold q. change (inject_Z Date.msPerDay) with 86400000%Q. field. }
  change (inject_Z maxTime) with 8640000000000000%Q in Xq.
  assert (E : (- ((1 # 2) * Num.pow2 (26 - 52)) <= Num.rnd q - q
               <= (1 # 2) * Num.pow2 (26 - 52))%Q).
  { apply rnd_error_small; [lra | | lia].
    assert (P : (Num.pow2 (26 + 1) == 134217728)%Q) by reflexivity. lra. }
  assert (P : (Num.pow2 (26 - 52) == 1 # 67108864)%Q) by reflexivity.
  rewrite P in E.
  apply Z.le_antisymm.
  - apply Z.lt_succ_r. apply Z.lt_nge. intros G. rewrite Zle_Qle in G.
    unfold Z.succ in G. rewrite inject_Z_plus in G. change (inject_Z 1) with 1%Q in G.
    pose proof (Qfloor_le (Num.rnd q)). lra.
  - apply days_reached; [| lia]. unfold maxTime, Date.msPerDay in *. lia.
Qed.

(** X6.  [subtract(n, 'days')] on a moment moves the wall clock of the time
    zone back by [n] calendar days, and [diff] in days of the moment and
    the result is [n] when the span between them is [n] times 24 hours or
    more, and [n - 1] when a change of the offset makes it shorter; the
    moment is after the result.  Both times are in the range of a Date
    and the change of the offset is less than a day. *)
Theorem subtract_then_diff (w : World) (t n : Z) :
  (1 <= n)%Z ->
  inRange t ->
  inRange (daysBefore (zone w) t n) ->
  (- Date.msPerDay < t - daysBefore (zone w) t n - n * Date.msPerDay < Date.msPerDay)%Z ->
  exists m',
    Moment.subtract (Moment.make (Date.timeClip (Num.ofZ t))) n w = Normal m' w
    /\ Moment.d m' = Num.Fin (inject_Z (daysBefore (zone w) t n))
    /\ Moment.diff (Moment.make (Date.timeClip (Num.ofZ t))) m'
       = Num.Fin (inject_Z (if (t - daysBefore (zone w) t n <? n * Date.msPerDay)%Z
                            then n - 1 else n))
    /\ Moment.isAfter (Moment.make (Date.timeClip (Num.ofZ t))) m' = true.
Proof.
  intros Hn Ht Hb Hs. pose proof maxTime_small as MS.
  set (before := daysBefore (zone w) t n) in *.
  exists (Moment.make (Num.Fin (inject_Z before))).
  unfold inRange in Ht, Hb. rewrite time_exact by exact Ht.
  split; [| split; [reflexivity | split]].
  - unfold Moment.subtract. cbn [Moment.d]. rewrite daysBack_exact by assumption.
    reflexivity.
  - assert (B : (before <= t)%Z) by (unfold Date.msPerDay in *; lia).
    rewrite diff_exact by lia. do 2 f_equal.
    apply days_floor; [| | lia].
    + destruct (_ <? _)%Z; lia.
    + destruct (Z.ltb_spec (t - before) (n * Date.msPerDay)); unfold Date.msPerDay in *; lia.
  - unfold Moment.isAfter. cbn [Moment.d]. rewrite gt_Z.
    apply Z.ltb_lt. unfold Date.msPerDay in *. lia.
Qed.

(** X6, witness.  The theorem three days after the clocks went forward:
    seven calendar days back are 167 hours, and [diff] gives 6. *)
Lemma subtract_then_diff_witness :
  exists m',
    Moment.subtract (Moment.make (Date.timeClip (Num.ofZ Samples.afterSpring))) 7
                    (Samples.lateBoard Samples.springForward)
    = Normal m' (Samples.lateBoard Samples.springForward)
    /\ Moment.d m' = Num.Fin (inject_Z (Samples.afterSpring - 167 * 3600000))
    /\ Moment.diff (Moment.make (Date.timeClip (Num.ofZ Samples.afterSpring))) m'
       = Num.Fin (inject_Z 6)
    /\ Moment.isAfter (Moment.make (Date.timeClip (Num.ofZ Samples.afterSpring))) m' = true.
Proof.
  apply (subtract_then_diff (Samples.lateBoard Samples.springForward) Samples.afterSpring 7).
  - lia.
  - unfold inRange, maxTime, Samples.afterSpring. lia.
  - vm_compute. split; discriminate.
  - vm_compute. split; reflexivity.
Defined.

(** X22.  The same issue under the same clock is new in one time zone and
    not in another: created 168.5 hours before the clock reading, it is
    left out of [newIssues] in UTC, where the seven calendar days are 168
    hours, and is in [newIssues] in a zone whose clocks went back an hour
    in between, where they are 169 hours. *)
Theorem categorizeJiraCliIssues_zone :
  match categorizeJiraCliIssues [0%nat] (Samples.lateBoard Zone.utc),
        categorizeJiraCliIssues [0%nat] (Samples.lateBoard Samples.fallBack) with
  | Normal cs _, Normal cs' w' =>
      CategorizedSet.newIssues cs = []
      /\ List.map (heap w') (CategorizedSet.newIssues cs') = [normalizedIssue Samples.lateStory]
      /\ daysBefore Zone.utc Samples.afterChange 7 = 1698840000000%Z
      /\ daysBefore Samples.fallBack Samples.afterChange 7 = 1698836400000%Z
  | _, _ => False
  end.
Proof. vm_compute. repeat split; reflexivity. Qed.

End ThresholdFacts.

(* ================================================================= *)
(** ** The groups of [groupIssuesByEpic] *)

Module PlacementFacts.
Import ReportGenerator Conditions Invariants Spec GroupingFacts Placement.
Open Scope list_scope.

Section MapFacts.
Context {V : Type}.
Implicit Types (m : JsMap.t V) (k : Js.val).

Lemma has_keys m k : JsMap.has m k = true <-> In k (List.map fst m).
Proof.
  unfold JsMap.has. induction m as [| [k' v] m IH]; cbn.
  - split; [discriminate | intros []].
  - destruct (Js.strictEq k' k) eqn:E.
    + apply strictEq_eq in E. split; auto.
    + apply strictEq_neq in E. rewrite IH.
      split; [auto | intros [H | H]; [contradiction | exact H]].
Qed.

Lemma set_absent m k v : JsMap.has m k = false -> JsMap.set m k v = m ++ [(k, v)].
Proof.
  unfold JsMap.has. induction m as [| [k' v'] m IH]; cbn; [reflexivity |].
  destruct (Js.strictEq k' k); [discriminate |]. intros H. now rewrite IH.
Qed.

Lemma update_map m k f :
  NoDup (List.map fst m) ->
  JsMap.update m k f
  = List.map (fun p => if Js.strictEq (fst p) k then (fst p, f (snd p)) else p) m.
Proof.
  induction m as [| [k' v] m IH]; cbn; [reflexivity |]. intros N.
  inversion N as [| ? ? N1 N2]; subst.
  destruct (Js.strictEq k' k) eqn:E.
  - f_equal. apply strictEq_eq in E. subst k'.
    rewrite <- (map_id m) at 1. apply map_ext_in. intros [k1 v1] H. cbn.
    destruct (Js.strictEq k1 k) eqn:E1; [| reflexivity].
    apply strictEq_eq in E1. subst k1. exfalso. apply N1.
    change k with (fst (k, v1)). now apply in_map.
  - now rewrite IH.
Qed.

Lemma update_keys m k f : List.map fst (JsMap.update m k f) = List.map fst m.
Proof.
  induction m as [| [k' v] m IH]; cbn; [reflexivity |].
  destruct (Js.strictEq k' k); cbn; [reflexivity | now rewrite IH].
Qed.

Lemma update_entry m k f k' v' :
  NoDup (List.map fst m) ->
  In (k', v') (JsMap.update m k f) ->
  (k' <> k /\ In (k', v') m) \/ (k' = k /\ exists v, In (k, v) m /\ v' = f v).
Proof.
  intros N H. rewrite (update_map m k f N) in H. apply in_map_iff in H.
  destruct H as ([k1 v1] & E & I). cbn in E.
  destruct (Js.strictEq k1 k) eqn:Ek.
  - apply strictEq_eq in Ek. subst k1. injection E as <- <-. right. eauto.
  - apply strictEq_neq in Ek. injection E as <- <-. left. split; assumption.
Qed.

Lemma update_keeps m k f k' v :
  NoDup (List.map fst m) -> In (k', v) m ->
  In (k', if Js.strictEq k' k then f v else v) (JsMap.update m k f).
Proof.
  intros N H. rewrite (update_map m k f N). apply in_map_iff.
  exists (k', v). split; [| exact H]. cbn. now destruct (Js.strictEq k' k).
Qed.

End MapFacts.

Lemma NoDup_snoc {A} (l : list A) (a : A) : NoDup l -> ~ In a l -> NoDup (l ++ [a]).
Proof.
  induction l as [| x l IH]; intros N I; cbn.
  - constructor; [intros [] | constructor].
  - inversion N as [| ? ? N1 N2]; subst. constructor.
    + intros H. apply in_app_or in H. destruct H as [H | [H | []]]; [contradiction |].
      subst. apply I. now left.
    + apply IH; [exact N2 |]. intros H. apply I. now right.
Qed.

Lemma groupOk_mono store done done' k g :
  (forall r, In r done -> In r done') -> groupOk store done k g -> groupOk store done' k g.
Proof.
  intros S [K T R D St]. constructor; auto.
  - intros r Hr. destruct (R r Hr) as (A & B & C). auto.
  - destruct D as (r & e & A & B & C). exists r, e. auto.
  - destruct St as [P | (r & A & B & C & D')]; [now left | right]. exists r. auto.
Qed.

Lemma addRelated_cases store r g :
  addRelated store r g = g
  \/ addRelated store r g = EpicGroup.make (EpicGroup.epic g) (EpicGroup.relatedIssues g ++ [r]).
Proof. unfold addRelated. destruct (find _ _); auto. Qed.

Lemma addRelated_keeps store r g x :
  In x (EpicGroup.relatedIssues g) -> In x (EpicGroup.relatedIssues (addRelated store r g)).
Proof.
  intros H. destruct (addRelated_cases store r g) as [-> | ->]; [exact H |].
  cbn. apply in_or_app. now left.
Qed.

Lemma find_sameKey_in store r l :
  In r l -> exists f, find (sameKey store r) l = Some f.
Proof.
  intros H. destruct (find (sameKey store r) l) eqn:F; [eauto |].
  apply find_none with (x := r) in F; [| exact H].
  unfold sameKey in F. apply strictEq_neq in F. congruence.
Qed.

Lemma find_sameKey_snoc store r l x :
  In r l -> find (sameKey store r) (l ++ [x]) = find (sameKey store r) l.
Proof.
  intros H. rewrite find_app. destruct (find_sameKey_in store r l H) as [f ->]. reflexivity.
Qed.

(** The first of its key in [done ++ [r]] is [r] itself when the key of
    [r] has not been seen, and the first of its key in [done] otherwise. *)
Lemma first_snoc store done r x :
  find (sameKey store x) (done ++ [r]) = Some x ->
  find (sameKey store x) done = Some x
  \/ (x = r /\ forall y, In y done -> keyOf store y <> keyOf store r).
Proof.
  rewrite find_app. destruct (find (sameKey store x) done) eqn:F; [auto |].
  cbn. destruct (sameKey store x r) eqn:E; [| discriminate].
  intros H. injection H as <-. right. split; [reflexivity |].
  intros y Hy. apply find_none with (x := y) in F; [| exact Hy].
  unfold sameKey in F. apply strictEq_neq in F. exact F.
Qed.

Lemma placeInv_init store : placeInv store [] (mkGrouper [] [] []).
Proof.
  constructor; cbn.
  - constructor.
  - intros k g [].
  - intros r [].
  - intros r H. discriminate.
Qed.

Lemma placeInv_seen store done st r :
  groupInv store done st ->
  JsSet.has (processedIssues st) (keyOf store r) = true ->
  placeInv store done st -> placeInv store (done ++ [r]) st.
Proof.
  intros G H [K Gp L Hm].
  assert (S : forall x, In x done -> In x (done ++ [r])) by (intros; apply in_or_app; auto).
  constructor.
  - exact K.
  - intros k g I. apply (groupOk_mono store done); auto.
  - intros x I. destruct (L x I). auto.
  - intros x F. apply Hm. destruct (first_snoc _ _ _ _ F) as [F' | [-> N]]; [exact F' |].
    exfalso. apply (inv_seen _ _ _ G) in H. destruct H as (y & Hy & E).
    now apply (N y Hy).
Qed.

Lemma placeInv_loose store done st r :
  JsSet.has (processedIssues st) (keyOf store r) = false ->
  groupInv store done st ->
  epicKeyOf (store r) = None ->
  placeInv store done st ->
  placeInv store (done ++ [r])
    (mkGrouper (epicGroups st) (unassociatedIssues st ++ [r])
               (JsSet.add (processedIssues st) (Issue.key (store r)))).
Proof.
  intros H G E [K Gp L Hm].
  assert (S : forall x, In x done -> In x (done ++ [r])) by (intros; apply in_or_app; auto).
  constructor; cbn [epicGroups unassociatedIssues].
  - exact K.
  - intros k g I. apply (groupOk_mono store done); auto.
  - intros x I. apply in_app_or in I. destruct I as [I | [<- | []]].
    + destruct (L x I). auto.
    + split; [apply in_or_app; right; now left | exact E].
  - intros x F. destruct (first_snoc _ _ _ _ F) as [F' | [-> N]].
    + specialize (Hm x F'). destruct (epicKeyOf (store x)); [exact Hm |].
      apply in_or_app. now left.
    + rewrite E. apply in_or_app. right. now left.
Qed.

Lemma placeInv_grouped store done st r epic :
  JsSet.has (processedIssues st) (keyOf store r) = false ->
  groupInv store done st ->
  Issue.epic (store r) = Some epic -> Js.truthy (Epic.key epic) = true ->
  placeInv store done st ->
  let k := Epic.key epic in
  let groups := if negb (JsMap.has (epicGroups st) k)
                then JsMap.set (epicGroups st) k (newGroup epic) else epicGroups st in
  placeInv store (done ++ [r])
    (mkGrouper (JsMap.update groups k
                  (if Js.strictEq (Issue.key (store r)) k then setEpicInfo (store r)
                   else addRelated store r))
               (unassociatedIssues st) (JsSet.add (processedIssues st) (Issue.key (store r)))).
Proof.
  intros H G Ep T [K Gp L Hm] k groups.
  assert (S : forall x, In x done -> In x (done ++ [r])) by (intros; apply in_or_app; auto).
  assert (Rin : In r (done ++ [r])) by (apply in_or_app; right; now left).
  assert (EK : epicKeyOf (store r) = Some k) by (unfold epicKeyOf; now rewrite Ep, T).
  (* the map with the group of [k] in it *)
  assert (K1 : NoDup (List.map fst groups)).
  { unfold groups. destruct (JsMap.has (epicGroups st) k) eqn:Hk; cbn [negb]; [exact K |].
    rewrite set_absent by exact Hk. rewrite map_app. cbn.
    apply NoDup_snoc; [exact K |]. intros I. apply has_keys in I. congruence. }
  assert (G1 : forall k' g, In (k', g) groups -> groupOk store (done ++ [r]) k' g).
  { unfold groups. intros k' g I.
    destruct (JsMap.has (epicGroups st) k) eqn:Hk; cbn [negb] in I.
    - apply (groupOk_mono store done); auto.
    - rewrite set_absent in I by exact Hk. apply in_app_or in I.
      destruct I as [I | [I | []]]; [apply (groupOk_mono store done); auto |].
      injection I as <- <-. constructor; cbn.
      + reflexivity.
      + exact T.
      + intros x [].
      + exists r, epic. repeat split; auto.
      + left. repeat split. }
  assert (Has : exists g, In (k, g) groups).
  { unfold groups. destruct (JsMap.has (epicGroups st) k) eqn:Hk; cbn [negb].
    - apply has_keys in Hk. apply in_map_iff in Hk. destruct Hk as ([k1 g1] & E1 & I1).
      cbn in E1. subst k1. eauto.
    - rewrite set_absent by exact Hk. exists (newGroup epic). apply in_or_app. right. now left. }
  assert (Old : forall k' g, In (k', g) (epicGroups st) -> In (k', g) groups).
  { unfold groups. intros k' g I. destruct (JsMap.has (epicGroups st) k) eqn:Hk; cbn [negb];
      [exact I |]. rewrite set_absent by exact Hk. apply in_or_app. now left. }
  set (f := if Js.strictEq (Issue.key (store r)) k then setEpicInfo (store r)
            else addRelated store r).
  assert (Keep : forall g x, In x (EpicGroup.relatedIssues g) ->
                             In x (EpicGroup.relatedIssues (f g))).
  { intros g x I. unfold f. destruct (Js.strictEq _ _); [exact I | now apply addRelated_keeps]. }
  constructor; cbn [epicGroups unassociatedIssues].
  - rewrite update_keys. exact K1.
  - intros k' g' I. apply update_entry in I; [| exact K1].
    destruct I as [[_ I] | [-> (g & I & ->)]]; [now apply G1 |].
    destruct (G1 k g I) as [A B C D E]. unfold f.
    destruct (Js.strictEq (Issue.key (store r)) k) eqn:Own.
    + apply strictEq_eq in Own. constructor; cbn; auto.
      right. exists r. repeat split; auto.
    + apply strictEq_neq in Own.
      destruct (addRelated_cases store r g) as [-> | ->]; [now constructor |].
      constructor; cbn; auto.
      intros x Hx. apply in_app_or in Hx. destruct Hx as [Hx | [<- | []]]; auto.
  - intros x I. destruct (L x I). auto.
  - intros x F. destruct (first_snoc _ _ _ _ F) as [F' | [-> N]].
    + specialize (Hm x F'). destruct (epicKeyOf (store x)) as [kx |]; [| exact Hm].
      destruct Hm as (g & I & P).
      exists (if Js.strictEq kx k then f g else g). split.
      * apply update_keeps; [exact K1 | now apply Old].
      * destruct P as [P | P]; [now left | right].
        destruct (Js.strictEq kx k); [now apply Keep | exact P].
    + rewrite EK. destruct Has as (g & I). exists (f g). split.
      * pose proof (update_keeps groups k f k g K1 I) as U.
        replace (Js.strictEq k k) with true in U by (symmetry; now apply strictEq_eq).
        exact U.
      * unfold f. destruct (Js.strictEq (Issue.key (store r)) k) eqn:Own.
        -- left. now apply strictEq_eq.
        -- right. rewrite addRelated_fresh; [apply in_or_app; right; now left |].
           intros y Hy. destruct (listed_first_none _ _ _ _ G H) as [ND NL].
           destruct (G1 k g I) as [_ _ C _ _]. destruct (C y Hy) as (Yd & _ & _).
           apply in_app_or in Yd. destruct Yd as [Yd | [<- | []]]; [now apply ND |].
           exfalso.
           (* [r] itself cannot be related yet: its key is unseen *)
           unfold groups in I.
           destruct (JsMap.has (epicGroups st) k) eqn:Hk; cbn [negb] in I.
           ++ destruct (Gp k g I) as [_ _ C' _ _]. destruct (C' _ Hy) as (Yd' & _).
              now apply (ND _ Yd').
           ++ rewrite set_absent in I by exact Hk. apply in_app_or in I.
              destruct I as [I | [I | []]].
              ** destruct (Gp k g I) as [_ _ C' _ _]. destruct (C' _ Hy) as (Yd' & _).
                 now apply (ND _ Yd').
              ** injection I as <-. destruct Hy.
Qed.

Lemma groupIssue_place store done st r :
  groupInv store done st -> placeInv store done st ->
  placeInv store (done ++ [r]) (groupIssue store st r).
Proof.
  intros G P. unfold groupIssue. fold (keyOf store r).
  destruct (JsSet.has (processedIssues st) (keyOf store r)) eqn:H.
  - now apply placeInv_seen.
  - destruct (Issue.epic (store r)) as [epic |] eqn:Ep.
    + destruct (Js.truthy (Epic.key epic)) eqn:T.
      * pose proof (placeInv_grouped store done st r epic H G Ep T P) as Q. cbv zeta in Q.
        unfold keyOf.
        destruct (Js.strictEq (Issue.key (store r)) (Epic.key epic)); exact Q.
      * apply placeInv_loose; auto. unfold epicKeyOf. now rewrite Ep, T.
    + apply placeInv_loose; auto. unfold epicKeyOf. now rewrite Ep.
Qed.

Lemma fold_groupIssue_place store rest : forall done st,
  groupInv store done st -> placeInv store done st ->
  placeInv store (done ++ rest) (fold_left (groupIssue store) rest st).
Proof.
  induction rest as [| r rest IH]; intros done st G P; cbn.
  - now rewrite app_nil_r.
  - replace (done ++ r :: rest) with ((done ++ [r]) ++ rest) by now rewrite <- app_assoc.
    apply IH; [now apply groupIssue_inv | now apply groupIssue_place].
Qed.

Lemma groupIssuesByEpic_place store issues :
  placeInv store issues (fold_left (groupIssue store) issues (mkGrouper [] [] [])).
Proof.
  apply (fold_groupIssue_place store issues [] _ (groupInv_init store) (placeInv_init store)).
Qed.

Lemma values_entry {V} (m : JsMap.t V) (g : V) :
  In g (JsMap.values m) <-> exists k, In (k, g) m.
Proof.
  unfold JsMap.values. rewrite in_map_iff. split.
  - intros ([k v] & E & I). cbn in E. subst. eauto.
  - intros (k & I). exists (k, g). auto.
Qed.

Lemma keys_of_groups store done (m : JsMap.t EpicGroup.t) :
  (forall k g, In (k, g) m -> groupOk store done k g) ->
  List.map (fun g => EpicInfo.key (EpicGroup.epic g)) (JsMap.values m) = List.map fst m.
Proof.
  intros H. unfold JsMap.values. rewrite map_map. apply map_ext_in.
  intros [k g] I. cbn. now destruct (H k g I).
Qed.

(** X7.  No two groups have the same key, which is truthy; every related issue
    of a group is an issue of the input that refers to the group's key as
    its epic and has another key itself; every unassociated issue is an
    issue of the input with no epic reference, or one without a key. *)
Theorem groupIssuesByEpic_members (store : ref -> Issue.t) (issues : list ref) :
  let result := groupIssuesByEpic store issues in
  NoDup (List.map (fun g => EpicInfo.key (EpicGroup.epic g)) (Grouping.epicsWithIssues result))
  /\ (forall g, In g (Grouping.epicsWithIssues result) ->
      Js.truthy (EpicInfo.key (EpicGroup.epic g)) = true
      /\ forall r, In r (EpicGroup.relatedIssues g) ->
         In r issues
         /\ epicKeyOf (store r) = Some (EpicInfo.key (EpicGroup.epic g))
         /\ Issue.key (store r) <> EpicInfo.key (EpicGroup.epic g))
  /\ (forall r, In r (Grouping.unassociatedIssues result) ->
      In r issues /\ epicKeyOf (store r) = None).
Proof.
  cbv zeta. unfold groupIssuesByEpic.
  cbn [Grouping.epicsWithIssues Grouping.unassociatedIssues].
  destruct (groupIssuesByEpic_place store issues) as [K Gp L _].
  split; [| split].
  - rewrite (keys_of_groups store issues _ Gp). exact K.
  - intros g I. apply values_entry in I. destruct I as (k & I).
    destruct (Gp k g I) as [A B C _ _]. rewrite A. auto.
  - exact L.
Qed.

(** X8.  The key, summary, url and progress of every group are those of the
    epic reference of an input issue.  Its status, priority and assignee
    are either "Unknown", "Unknown" and null, or those of an input issue
    that refers to itself as its epic under the group's key: nothing
    else fills them in. *)
Theorem groupIssuesByEpic_epic_info (store : ref -> Issue.t) (issues : list ref) :
  forall g, In g (Grouping.epicsWithIssues (groupIssuesByEpic store issues)) ->
    (exists r e, In r issues /\ Issue.epic (store r) = Some e /\ describedBy e g)
    /\ (placeholders g
        \/ exists r, In r issues
             /\ epicKeyOf (store r) = Some (EpicInfo.key (EpicGroup.epic g))
             /\ Issue.key (store r) = EpicInfo.key (EpicGroup.epic g)
             /\ statusOf (store r) g).
Proof.
  unfold groupIssuesByEpic. cbn [Grouping.epicsWithIssues].
  destruct (groupIssuesByEpic_place store issues) as [_ Gp _ _].
  intros g I. apply values_entry in I. destruct I as (k & I).
  destruct (Gp k g I) as [A _ _ D E]. rewrite A. auto.
Qed.

(** X8, witness.  The theorem on the group of E-1 made from three stories and the epic
    that names itself. *)
Lemma groupIssuesByEpic_epic_info_witness :
  let g := EpicGroup.make
             (EpicInfo.make (Js.str "E-1"%string) (Js.str "Epic"%string) Js.undefined
                            (Js.str "In Progress"%string) (Js.str "High"%string) Js.null None)
             [0; 1; 2]%nat in
  (exists r e, In r [0; 1; 2; 3]%nat
               /\ Issue.epic (Inputs.storiesThenSelfEpic r) = Some e /\ describedBy e g)
  /\ (placeholders g
      \/ exists r, In r [0; 1; 2; 3]%nat
           /\ epicKeyOf (Inputs.storiesThenSelfEpic r) = Some (EpicInfo.key (EpicGroup.epic g))
           /\ Issue.key (Inputs.storiesThenSelfEpic r) = EpicInfo.key (EpicGroup.epic g)
           /\ statusOf (Inputs.storiesThenSelfEpic r) g).
Proof.
  apply (groupIssuesByEpic_epic_info Inputs.storiesThenSelfEpic [0; 1; 2; 3]%nat).
  vm_compute. left. reflexivity.
Defined.

(** X9.  The first issue of the input with a given key lands where its epic
    reference says: without one it is among the unassociated issues; with
    one there is a group of that key, and the issue is a related issue of
    it unless it is the epic itself. *)
Theorem groupIssuesByEpic_first_placed (store : ref -> Issue.t) (issues : list ref) (r : ref) :
  find (sameKey store r) issues = Some r ->
  let result := groupIssuesByEpic store issues in
  match epicKeyOf (store r) with
  | Some k =>
      exists g, In g (Grouping.epicsWithIssues result)
                /\ EpicInfo.key (EpicGroup.epic g) = k
                /\ (Issue.key (store r) = k \/ In r (EpicGroup.relatedIssues g))
  | None => In r (Grouping.unassociatedIssues result)
  end.
Proof.
  intros F. cbv zeta. unfold groupIssuesByEpic.
  cbn [Grouping.epicsWithIssues Grouping.unassociatedIssues].
  destruct (groupIssuesByEpic_place store issues) as [_ Gp _ Hm].
  specialize (Hm r F). destruct (epicKeyOf (store r)) as [k |]; [| exact Hm].
  destruct Hm as (g & I & P). exists g. split; [| split].
  - apply values_entry. eauto.
  - now destruct (Gp k g I).
  - exact P.
Qed.

(** X9, witness.  The theorem on the first story of E-1. *)
Lemma groupIssuesByEpic_first_placed_witness :
  let result := groupIssuesByEpic Inputs.storiesThenEpic [0; 1; 2; 3]%nat in
  match epicKeyOf (Inputs.storiesThenEpic 0%nat) with
  | Some k =>
      exists g, In g (Grouping.epicsWithIssues result)
                /\ EpicInfo.key (EpicGroup.epic g) = k
                /\ (Issue.key (Inputs.storiesThenEpic 0%nat) = k
                    \/ In 0%nat (EpicGroup.relatedIssues g))
  | None => In 0%nat (Grouping.unassociatedIssues result)
  end.
Proof.
  apply (groupIssuesByEpic_first_placed Inputs.storiesThenEpic [0; 1; 2; 3]%nat 0%nat).
  reflexivity.
Defined.

End PlacementFacts.

(* ================================================================= *)
(** ** The velocity metrics *)

Module SeriesFacts.
Import ReportGenerator NumFacts VelocityFacts Measures.
Open Scope string_scope.
Open Scope list_scope.

Lemma data_values (s : Sample.t) (l : list Sample.t) :
  dataValues (calculateVelocityMetrics (Some (s :: l)))
  = List.map (fun item => if existsb positivePoints (s :: l)
                          then Sample.storyPoints item
                          else Sample.completedCount item) (s :: l).
Proof.
  unfold dataValues, calculateVelocityMetrics. cbn [Velocity.data].
  rewrite map_map. reflexivity.
Qed.

Lemma or_truthy a b : Js.truthy b = true -> Js.truthy (Js.or a b) = true.
Proof. intros H. unfold Js.or. now destruct (Js.truthy a) eqn:E. Qed.

(** X10.  For a non-empty input the result has one data point per sample, in
    order, each with a truthy period label; the unit is "story points" or
    "items"; and the trend is one of "Increasing", "Decreasing" and
    "Stable", never the text of the empty case. *)
Theorem calculateVelocityMetrics_shape (s : Sample.t) (l : list Sample.t) :
  let v := calculateVelocityMetrics (Some (s :: l)) in
  List.length (Velocity.data v) = List.length (s :: l)
  /\ Forall (fun p => Js.truthy (DataPoint.period p) = true) (Velocity.data v)
  /\ ((Velocity.unit v = "story points"
       /\ dataValues v = List.map Sample.storyPoints (s :: l)
       /\ exists item, In item (s :: l) /\ positivePoints item = true)
      \/ (Velocity.unit v = "items"
          /\ dataValues v = List.map Sample.completedCount (s :: l)
          /\ forall item, In item (s :: l) -> positivePoints item = false))
  /\ (Velocity.trend v = "Increasing" \/ Velocity.trend v = "Decreasing"
      \/ Velocity.trend v = "Stable").
Proof.
  cbv zeta. split; [| split; [| split]].
  - unfold calculateVelocityMetrics. cbn [Velocity.data]. apply length_map.
  - unfold calculateVelocityMetrics. cbn [Velocity.data]. apply Forall_map.
    apply Forall_forall. intros item _. cbn [DataPoint.period]. now apply or_truthy.
  - rewrite data_values. unfold calculateVelocityMetrics. cbn [Velocity.unit].
    destruct (existsb positivePoints (s :: l)) eqn:E.
    + left. split; [reflexivity |]. split; [reflexivity |].
      apply existsb_exists in E. exact E.
    + right. split; [reflexivity |]. split; [reflexivity |].
      intros item I. destruct (positivePoints item) eqn:P; [| reflexivity].
      assert (X : existsb positivePoints (s :: l) = true) by (apply existsb_exists; eauto).
      congruence.
  - unfold calculateVelocityMetrics. cbn [Velocity.trend].
    repeat match goal with |- context [if ?b then _ else _] => destruct b end; auto.
Qed.

Lemma mean_with_missing (values : list numval) :
  In noNumber values -> mean values = Num.NaN.
Proof. intros H. unfold mean. now rewrite sum_with_missing. Qed.

Lemma lt_NaN_l a : Num.lt Num.NaN a = false.
Proof. reflexivity. Qed.

Lemma lt_NaN_r a : Num.lt a Num.NaN = false.
Proof. now destruct a. Qed.

(** X11.  As soon as one data point of the result has no value, because its
    sample lacks the metric in use, the average is NaN and the trend is
    "Stable". *)
Theorem calculateVelocityMetrics_missing_value (s : Sample.t) (l : list Sample.t) :
  let v := calculateVelocityMetrics (Some (s :: l)) in
  In noNumber (dataValues v) ->
  Velocity.average v = Num.NaN /\ Velocity.trend v = "Stable".
Proof.
  cbv zeta. rewrite data_values. intros H.
  unfold calculateVelocityMetrics. cbn [Velocity.average Velocity.trend].
  set (values := List.map _ (s :: l)) in *.
  split.
  - now rewrite sum_with_missing.
  - rewrite slice_last_two, slice_except_last_two.
    destruct (2 <=? List.length values)%nat; [| reflexivity].
    destruct (_ && _); [| reflexivity].
    assert (S : In noNumber (Spec.exceptLastTwo values) \/ In noNumber (Spec.lastTwo values)).
    { apply in_app_or. unfold Spec.exceptLastTwo, Spec.lastTwo. now rewrite firstn_skipn. }
    destruct S as [S | S]; rewrite (mean_with_missing _ S).
    + cbn [Num.mul]. unfold Num.gt. now rewrite lt_NaN_l, lt_NaN_r.
    + unfold Num.gt. now rewrite lt_NaN_l, lt_NaN_r.
Qed.

(** X11, witness.  The theorem on a sample with story points followed by one without. *)
Lemma calculateVelocityMetrics_missing_value_witness :
  let v := calculateVelocityMetrics (Some [Inputs.pointsOnly 5; Inputs.completedOnly 3]) in
  Velocity.average v = Num.NaN /\ Velocity.trend v = "Stable".
Proof.
  apply (calculateVelocityMetrics_missing_value (Inputs.pointsOnly 5) [Inputs.completedOnly 3]).
  right. left. reflexivity.
Defined.

Open Scope Q_scope.

Lemma inject_Z_nonneg n : (0 <= n)%Z -> 0 <= inject_Z n.
Proof. intros H. change 0 with (inject_Z 0). now rewrite <- Zle_Qle. Qed.

(** The sum of [k] values [n], small enough to be exact. *)
Lemma sum_constant (n : Z) (values : list numval) : forall a : Z,
  Forall (fun v => v = number (Num.Fin (inject_Z n))) values ->
  (0 <= n)%Z -> (0 <= a)%Z -> (a + Z.of_nat (List.length values) * n < 2 ^ 53)%Z ->
  fold_left (fun acc val => Num.add acc (toNumber val)) values (Num.Fin (inject_Z a))
  = Num.Fin (inject_Z (a + Z.of_nat (List.length values) * n)).
Proof.
  induction values as [| v values IH]; intros a F Hn Ha B.
  - cbn. now rewrite Z.add_0_r.
  - inversion F as [| ? ? -> F']; subst. cbn [fold_left toNumber].
    cbn [List.length] in B. rewrite Nat2Z.inj_succ in B.
    unfold Num.add. rewrite (ofQ_exact _ (a + n)).
    + rewrite IH; [| exact F' | exact Hn | lia | nia].
      f_equal. f_equal. cbn [List.length]. lia.
    + now rewrite inject_Z_plus.
    + nia.
Qed.

Lemma mean_constant (n : Z) (values : list numval) :
  Forall (fun v => v = number (Num.Fin (inject_Z n))) values -> values <> [] ->
  (0 <= n)%Z -> (Z.of_nat (List.length values) * n < 2 ^ 53)%Z ->
  (Z.of_nat (List.length values) < 2 ^ 53)%Z ->
  mean values = Num.Fin (inject_Z n).
Proof.
  intros F N Hn B L. unfold mean, sum.
  change (Num.Fin 0) with (Num.Fin (inject_Z 0)).
  rewrite (sum_constant n values 0 F Hn) by lia.
  rewrite ofNat_exact by exact L. cbn [Z.add].
  set (k := Z.of_nat (List.length values)) in *.
  assert (K : (0 < k)%Z) by (destruct values; [contradiction | unfold k; cbn; lia]).
  unfold Num.div.
  assert (NZ : ~ inject_Z k == 0).
  { intros E. assert (k = 0%Z) by (apply inject_Z_injective; exact E). lia. }
  destruct (Qeq_bool (inject_Z k) 0) eqn:E.
  - apply Qeq_bool_iff in E. contradiction.
  - apply ofQ_exact; [| lia]. rewrite inject_Z_mult. field. exact NZ.
Qed.

Lemma round_Z n : Num.round (Num.Fin (inject_Z n)) = Num.Fin (inject_Z n).
Proof.
  unfold Num.round. do 2 f_equal.
  assert (F : (Qfloor (inject_Z n + (1 # 2)) = n)%Z); [| exact F].
  pose proof (Qfloor_le (inject_Z n + (1 # 2))) as L.
  pose proof (Qlt_floor (inject_Z n + (1 # 2))) as U.
  assert (A : (n <= Qfloor (inject_Z n + (1 # 2)))%Z).
  { rewrite <- (Qfloor_Z n) at 1. apply Qfloor_resp_le. lra. }
  assert (B : (Qfloor (inject_Z n + (1 # 2)) < n + 1)%Z).
  { rewrite Zlt_Qlt. rewrite inject_Z_plus. change (inject_Z 1) with 1. lra. }
  lia.
Qed.

(** A mean [n] is neither above 1.1 times nor below 0.9 times itself. *)
Lemma constant_not_above n :
  (0 <= n)%Z -> (2 * n < 2 ^ 53)%Z ->
  Num.gt (Num.Fin (inject_Z n)) (Num.mul (Num.Fin (inject_Z n)) (Num.ofQ (11 # 10))) = false.
Proof.
  intros Hn B.
  assert (R : exists r, Num.ofQ (11 # 10) = Num.Fin r /\ 1 <= r <= 2).
  { eexists. split; [vm_compute; reflexivity |]. split; vm_compute; discriminate. }
  destruct R as (r & -> & R1 & R2). pose proof (inject_Z_nonneg n Hn) as P.
  unfold Num.mul.
  destruct (ofQ_bounded (inject_Z n * r) (2 * n)) as [E _]; [nra | | lia |].
  - rewrite inject_Z_mult. change (inject_Z 2) with 2. nra.
  - rewrite E. unfold Num.gt, Num.lt. apply negb_false_iff. apply Qle_bool_iff.
    rewrite <- (rnd_exact (inject_Z n) n) at 1 by (reflexivity || lia).
    apply rnd_mono; nra.
Qed.

Lemma constant_not_below n :
  (0 <= n < 2 ^ 53)%Z ->
  Num.lt (Num.Fin (inject_Z n)) (Num.mul (Num.Fin (inject_Z n)) (Num.ofQ (9 # 10))) = false.
Proof.
  intros Hn.
  assert (R : exists r, Num.ofQ (9 # 10) = Num.Fin r /\ 0 <= r <= 1).
  { eexists. split; [vm_compute; reflexivity |]. split; vm_compute; discriminate. }
  destruct R as (r & -> & R1 & R2). pose proof (inject_Z_nonneg n (proj1 Hn)) as P.
  unfold Num.mul.
  destruct (ofQ_bounded (inject_Z n * r) n) as [E [_ U]]; [nra | nra | lia |].
  rewrite E. unfold Num.lt. apply negb_false_iff. apply Qle_bool_iff. exact U.
Qed.

Lemma Forall_firstn {A} (P : A -> Prop) k (l : list A) : Forall P l -> Forall P (firstn k l).
Proof.
  intros H. apply Forall_forall. intros x I. apply (proj1 (Forall_forall P l) H).
  rewrite <- (firstn_skipn k l). apply in_or_app. now left.
Qed.

Lemma Forall_skipn {A} (P : A -> Prop) k (l : list A) : Forall P l -> Forall P (skipn k l).
Proof.
  intros H. apply Forall_forall. intros x I. apply (proj1 (Forall_forall P l) H).
  rewrite <- (firstn_skipn k l). apply in_or_app. now right.
Qed.

(** X12.  When every data point of the result has the same value, a
    non-negative integer [n] small enough for the sums to be exact, the
    average is [n] and the trend is "Stable". *)
Theorem calculateVelocityMetrics_constant (s : Sample.t) (l : list Sample.t) (n : Z) :
  let v := calculateVelocityMetrics (Some (s :: l)) in
  Forall (fun x => x = number (Num.Fin (inject_Z n))) (dataValues v) ->
  (0 <= n)%Z -> (10 * Z.of_nat (List.length (s :: l)) * (n + 1) < 2 ^ 53)%Z ->
  Velocity.average v = Num.Fin (inject_Z n) /\ Velocity.trend v = "Stable"%string.
Proof.
  cbv zeta. rewrite data_values. intros F Hn B.
  unfold calculateVelocityMetrics. cbn [Velocity.average Velocity.trend].
  set (values := List.map _ (s :: l)) in *.
  assert (Len : List.length values = List.length (s :: l)) by apply length_map.
  rewrite <- Len in B.
  assert (N : values <> []) by (intros E; rewrite E in Len; discriminate).
  assert (K : (0 < Z.of_nat (List.length values))%Z)
    by (destruct values; [contradiction | cbn; lia]).
  split.
  - fold (mean values). rewrite (mean_constant n values F N Hn) by nia.
    unfold Num.mul. rewrite (ofQ_exact _ (n * 10)).
    + rewrite round_Z. unfold Num.div.
      replace (Qeq_bool 10 0) with false by reflexivity.
      apply ofQ_exact; [| lia]. rewrite inject_Z_mult. change (inject_Z 10) with 10. field.
    + now rewrite inject_Z_mult.
    + nia.
  - rewrite slice_last_two, slice_except_last_two.
    destruct (2 <=? List.length values)%nat; [| reflexivity].
    destruct (_ && _) eqn:C; [| reflexivity].
    apply andb_true_iff in C. destruct C as [C1 C2]. apply Nat.leb_le in C1, C2.
    assert (L1 : (List.length (Spec.lastTwo values) <= List.length values)%nat)
      by (unfold Spec.lastTwo; rewrite length_skipn; lia).
    assert (L2 : (List.length (Spec.exceptLastTwo values) <= List.length values)%nat)
      by (unfold Spec.exceptLastTwo; rewrite length_firstn; lia).
    rewrite (mean_constant n (Spec.lastTwo values)).
    + rewrite (mean_constant n (Spec.exceptLastTwo values)).
      * rewrite constant_not_above by nia. rewrite constant_not_below by nia. reflexivity.
      * now apply Forall_firstn.
      * intros E. rewrite E in C2. cbn in C2. lia.
      * exact Hn.
      * nia.
      * nia.
    + now apply Forall_skipn.
    + intros E. rewrite E in C1. cbn in C1. lia.
    + exact Hn.
    + nia.
    + nia.
Qed.

(** X12, witness.  The theorem on three periods of eight completed issues each. *)
Lemma calculateVelocityMetrics_constant_witness :
  let v := calculateVelocityMetrics (Some Samples.flat) in
  Velocity.average v = Num.Fin (inject_Z 8) /\ Velocity.trend v = "Stable"%string.
Proof.
  apply (calculateVelocityMetrics_constant (Inputs.completedOnly 8)
           [Inputs.completedOnly 8; Inputs.completedOnly 8] 8).
  - repeat constructor.
  - lia.
  - cbn. lia.
Defined.

End SeriesFacts.

(* ================================================================= *)
(** ** The percentages of the work breakdown *)

Module ShareFacts.
Import Num NumFacts RoundingFacts ReportGenerator BreakdownFacts Measures.
Open Scope Q_scope.

(** A percentage is within 0.51 of the exact share. *)
Lemma percentage_near (n t : Z) :
  (0 <= n <= t)%Z -> (0 < t)%Z ->
  let exact := 100 * inject_Z n / inject_Z t in
  exact - (51 # 100) <= inject_Z (Spec.doublePercentage n t) <= exact + (51 # 100).
Proof.
  intros Hn Ht. cbv zeta.
  assert (Tpos : 0 < inject_Z t) by (change 0 with (inject_Z 0); rewrite <- Zlt_Qlt; lia).
  assert (Nnn : 0 <= inject_Z n) by (change 0 with (inject_Z 0); rewrite <- Zle_Qle; lia).
  assert (Nle : inject_Z n <= inject_Z t) by (rewrite <- Zle_Qle; lia).
  set (q := inject_Z n / inject_Z t).
  assert (Q0 : 0 <= q) by (apply Qle_shift_div_l; [exact Tpos | lra]).
  assert (Q1 : q <= 1) by (apply Qle_shift_div_r; [exact Tpos | lra]).
  assert (E1 : - ((1 # 2) * pow2 (0 - 52)) <= rnd q - q <= (1 # 2) * pow2 (0 - 52)).
  { apply rnd_error_small; [exact Q0 | | lia].
    assert (pow2 (0 + 1) == 2) by reflexivity. lra. }
  assert (P52 : (1 # 2) * pow2 (0 - 52) <= 1 # 1000000) by (vm_compute; discriminate).
  set (r1 := rnd q) in *.
  assert (R0 : 0 <= r1) by (unfold r1; now apply rnd_nonneg).
  assert (E2 : - ((1 # 2) * pow2 (6 - 52)) <= rnd (r1 * 100) - r1 * 100
               <= (1 # 2) * pow2 (6 - 52)).
  { apply rnd_error_small; [lra | | lia].
    assert (pow2 (6 + 1) == 128) by reflexivity. lra. }
  assert (P46 : (1 # 2) * pow2 (6 - 52) <= 1 # 1000000) by (vm_compute; discriminate).
  unfold Spec.doublePercentage. fold q. fold r1.
  set (r2 := rnd (r1 * 100)) in *.
  pose proof (Qfloor_le (r2 + (1 # 2))) as L. pose proof (Qlt_floor (r2 + (1 # 2))) as U.
  rewrite inject_Z_plus in U. change (inject_Z 1) with 1 in U.
  assert (X : 100 * inject_Z n / inject_Z t == 100 * q) by (unfold q; field; lra).
  rewrite X. split; lra.
Qed.

Lemma percentage_mono (n m t : Z) :
  (0 <= n <= m)%Z -> (0 < t)%Z -> (Spec.doublePercentage n t <= Spec.doublePercentage m t)%Z.
Proof.
  intros Hn Ht. unfold Spec.doublePercentage.
  assert (Tpos : 0 < inject_Z t) by (change 0 with (inject_Z 0); rewrite <- Zlt_Qlt; lia).
  assert (Nnn : 0 <= inject_Z n) by (change 0 with (inject_Z 0); rewrite <- Zle_Qle; lia).
  assert (Nle : inject_Z n <= inject_Z m) by (rewrite <- Zle_Qle; lia).
  assert (Q0 : 0 <= inject_Z n / inject_Z t) by (apply Qle_shift_div_l; [exact Tpos | lra]).
  assert (Q1 : inject_Z n / inject_Z t <= inject_Z m / inject_Z t).
  { apply Qmult_le_compat_r; [exact Nle | apply Qlt_le_weak, Qinv_lt_0_compat, Tpos]. }
  pose proof (rnd_mono _ _ Q0 Q1) as M1.
  pose proof (rnd_nonneg _ Q0) as M0.
  apply Qfloor_resp_le.
  assert (M2 : rnd (rnd (inject_Z n / inject_Z t) * 100)
               <= rnd (rnd (inject_Z m / inject_Z t) * 100)) by (apply rnd_mono; lra).
  lra.
Qed.

(** The result of [calculateWorkBreakdown] on arrays that are not all
    empty. *)
Lemma calculateWorkBreakdown_value (cs : CategorizedSet.t) :
  let c := Spec.lengthCompleted cs in
  let p := Spec.lengthInProgress cs in
  let a := Spec.lengthAttention cs in
  (c < 2 ^ 32)%Z -> (p < 2 ^ 32)%Z -> (a < 2 ^ 32)%Z -> (c + p + a <> 0)%Z ->
  calculateWorkBreakdown cs
  = WorkBreakdown.make (Fin (inject_Z (Spec.doublePercentage c (c + p + a))))
                       (Fin (inject_Z (Spec.doublePercentage p (c + p + a))))
                       (Fin (inject_Z (Spec.doublePercentage a (c + p + a)))).
Proof.
  intros c p a Hc Hp Ha NZ.
  pose proof (total_exact cs Hc Hp Ha) as T. fold c p a in T.
  assert (Nc : (0 <= c)%Z) by apply Nat2Z.is_nonneg.
  assert (Np : (0 <= p)%Z) by apply Nat2Z.is_nonneg.
  assert (Na : (0 <= a)%Z) by apply Nat2Z.is_nonneg.
  assert (B : (2 ^ 32 * 4 < 2 ^ 53)%Z) by reflexivity.
  destruct (share_bounds c (c + p + a)) as (x & Ex & Vx & _); [lia | lia |].
  destruct (share_bounds p (c + p + a)) as (y & Ey & Vy & _); [lia | lia |].
  destruct (share_bounds a (c + p + a)) as (z & Ez & Vz & _); [lia | lia |].
  unfold calculateWorkBreakdown. rewrite T.
  assert (E0 : eq (Fin (inject_Z (c + p + a))) (Fin 0) = false).
  { unfold eq. destruct (Qeq_bool (inject_Z (c + p + a)) 0) eqn:Q; [| reflexivity].
    apply Qeq_bool_iff in Q. exfalso. apply NZ. apply inject_Z_injective. exact Q. }
  rewrite E0.
  rewrite !ofNat_exact
    by (unfold c, p, a, Spec.lengthCompleted, Spec.lengthInProgress, Spec.lengthAttention in *;
        lia).
  fold (Spec.lengthCompleted cs) (Spec.lengthInProgress cs) (Spec.lengthAttention cs).
  fold c p a. rewrite Ex, Ey, Ez.
  unfold Spec.doublePercentage. now rewrite <- Vx, <- Vy, <- Vz.
Qed.

(** The percentages of a categorized set whose arrays are no longer than
    a JavaScript array can be. *)
Lemma calculateWorkBreakdown_total (cs : CategorizedSet.t) :
  (Spec.lengthCompleted cs < 2 ^ 32)%Z ->
  (Spec.lengthInProgress cs < 2 ^ 32)%Z ->
  (Spec.lengthAttention cs < 2 ^ 32)%Z ->
  exists x y z : Z,
    calculateWorkBreakdown cs
    = WorkBreakdown.make (Fin (inject_Z x)) (Fin (inject_Z y)) (Fin (inject_Z z))
    /\ (0 <= x <= 100)%Z /\ (0 <= y <= 100)%Z /\ (0 <= z <= 100)%Z
    /\ ((Spec.lengthCompleted cs + Spec.lengthInProgress cs + Spec.lengthAttention cs = 0
         /\ x = 0 /\ y = 0 /\ z = 0)%Z
        \/ ((Spec.lengthCompleted cs + Spec.lengthInProgress cs + Spec.lengthAttention cs <> 0)%Z
            /\ (99 <= x + y + z <= 101)%Z)).
Proof.
  intros Hc Hp Ha. pose proof (calculateWorkBreakdown_value cs Hc Hp Ha) as V.
  pose proof (total_exact cs Hc Hp Ha) as T.
  set (c := Spec.lengthCompleted cs) in *. set (p := Spec.lengthInProgress cs) in *.
  set (a := Spec.lengthAttention cs) in *.
  assert (Nc : (0 <= c)%Z) by apply Nat2Z.is_nonneg.
  assert (Np : (0 <= p)%Z) by apply Nat2Z.is_nonneg.
  assert (Na : (0 <= a)%Z) by apply Nat2Z.is_nonneg.
  assert (B : (2 ^ 32 * 4 < 2 ^ 53)%Z) by reflexivity.
  destruct (Z.eq_dec (c + p + a) 0) as [Z0 | NZ].
  - exists 0%Z, 0%Z, 0%Z. split.
    + unfold calculateWorkBreakdown. rewrite T, Z0. reflexivity.
    + repeat split; lia.
  - specialize (V NZ). set (t := (c + p + a)%Z) in *.
    exists (Spec.doublePercentage c t), (Spec.doublePercentage p t),
      (Spec.doublePercentage a t).
    split; [exact V |].
    destruct (share_bounds c t) as (x & _ & Vx & Bx); [lia | lia |].
    destruct (share_bounds p t) as (y & _ & Vy & By); [lia | lia |].
    destruct (share_bounds a t) as (z & _ & Vz & Bz); [lia | lia |].
    unfold Spec.doublePercentage at 1 2 3 4 5 6. rewrite <- Vx, <- Vy, <- Vz.
    split; [exact Bx |]. split; [exact By |]. split; [exact Bz |]. right. split; [exact NZ |].
    replace x with (Spec.doublePercentage c t) by (symmetry; exact Vx).
    replace y with (Spec.doublePercentage p t) by (symmetry; exact Vy).
    replace z with (Spec.doublePercentage a t) by (symmetry; exact Vz).
    pose proof (percentage_near c t) as X. pose proof (percentage_near p t) as Y.
    pose proof (percentage_near a t) as Z.
    cbv zeta in X, Y, Z.
    specialize (X ltac:(lia) ltac:(lia)). specialize (Y ltac:(lia) ltac:(lia)).
    specialize (Z ltac:(lia) ltac:(lia)).
    assert (Tpos : 0 < inject_Z t) by (change 0 with (inject_Z 0); rewrite <- Zlt_Qlt; lia).
    assert (S : 100 * inject_Z c / inject_Z t + 100 * inject_Z p / inject_Z t
                + 100 * inject_Z a / inject_Z t == 100).
    { unfold t at 1 2 3. unfold t. rewrite !inject_Z_plus. field.
      rewrite <- !inject_Z_plus. fold t. lra. }
    set (ec := 100 * inject_Z c / inject_Z t) in *.
    set (ep := 100 * inject_Z p / inject_Z t) in *.
    set (ea := 100 * inject_Z a / inject_Z t) in *.
    assert (Lo : inject_Z 98 < inject_Z (Spec.doublePercentage c t + Spec.doublePercentage p t
                                         + Spec.doublePercentage a t)).
    { rewrite !inject_Z_plus. change (inject_Z 98) with 98. lra. }
    assert (Hi : inject_Z (Spec.doublePercentage c t + Spec.doublePercentage p t
                           + Spec.doublePercentage a t) < inject_Z 102).
    { rewrite !inject_Z_plus. change (inject_Z 102) with 102. lra. }
    rewrite <- Zlt_Qlt in Lo, Hi. lia.
Qed.

(** X13.  The three percentages of arrays that are not all empty add up to 99,
    100 or 101. *)
Theorem calculateWorkBreakdown_sum (cs : CategorizedSet.t) :
  (Spec.lengthCompleted cs < 2 ^ 32)%Z ->
  (Spec.lengthInProgress cs < 2 ^ 32)%Z ->
  (Spec.lengthAttention cs < 2 ^ 32)%Z ->
  (Spec.lengthCompleted cs + Spec.lengthInProgress cs + Spec.lengthAttention cs <> 0)%Z ->
  exists x y z : Z,
    calculateWorkBreakdown cs
    = WorkBreakdown.make (Fin (inject_Z x)) (Fin (inject_Z y)) (Fin (inject_Z z))
    /\ (99 <= x + y + z <= 101)%Z.
Proof.
  intros Hc Hp Ha NZ.
  destruct (calculateWorkBreakdown_total cs Hc Hp Ha) as (x & y & z & R & _ & _ & _ & S).
  exists x, y, z. split; [exact R |].
  destruct S as [(Z0 & _) | [_ S]]; [contradiction | exact S].
Qed.

(** X13, witness.  The theorem at 23 completed and 17 in-progress issues. *)
Lemma calculateWorkBreakdown_sum_witness :
  exists x y z : Z,
    calculateWorkBreakdown Inputs.run_23_17
    = WorkBreakdown.make (Fin (inject_Z x)) (Fin (inject_Z y)) (Fin (inject_Z z))
    /\ (99 <= x + y + z <= 101)%Z.
Proof.
  apply (calculateWorkBreakdown_sum Inputs.run_23_17);
    vm_compute; (reflexivity || discriminate).
Defined.

(** X14.  A longer array never gets a smaller percentage than a shorter one. *)
Theorem calculateWorkBreakdown_ordered (cs : CategorizedSet.t) :
  (Spec.lengthCompleted cs < 2 ^ 32)%Z ->
  (Spec.lengthInProgress cs < 2 ^ 32)%Z ->
  (Spec.lengthAttention cs < 2 ^ 32)%Z ->
  exists x y z : Z,
    calculateWorkBreakdown cs
    = WorkBreakdown.make (Fin (inject_Z x)) (Fin (inject_Z y)) (Fin (inject_Z z))
    /\ ((Spec.lengthCompleted cs <= Spec.lengthInProgress cs)%Z -> (x <= y)%Z)
    /\ ((Spec.lengthInProgress cs <= Spec.lengthCompleted cs)%Z -> (y <= x)%Z)
    /\ ((Spec.lengthCompleted cs <= Spec.lengthAttention cs)%Z -> (x <= z)%Z)
    /\ ((Spec.lengthAttention cs <= Spec.lengthCompleted cs)%Z -> (z <= x)%Z)
    /\ ((Spec.lengthInProgress cs <= Spec.lengthAttention cs)%Z -> (y <= z)%Z)
    /\ ((Spec.lengthAttention cs <= Spec.lengthInProgress cs)%Z -> (z <= y)%Z).
Proof.
  intros Hc Hp Ha. pose proof (calculateWorkBreakdown_value cs Hc Hp Ha) as V.
  pose proof (total_exact cs Hc Hp Ha) as T.
  set (c := Spec.lengthCompleted cs) in *. set (p := Spec.lengthInProgress cs) in *.
  set (a := Spec.lengthAttention cs) in *.
  assert (Nc : (0 <= c)%Z) by apply Nat2Z.is_nonneg.
  assert (Np : (0 <= p)%Z) by apply Nat2Z.is_nonneg.
  assert (Na : (0 <= a)%Z) by apply Nat2Z.is_nonneg.
  destruct (Z.eq_dec (c + p + a) 0) as [Z0 | NZ].
  - exists 0%Z, 0%Z, 0%Z. split.
    + unfold calculateWorkBreakdown. rewrite T, Z0. reflexivity.
    + repeat split; lia.
  - specialize (V NZ).
    exists (Spec.doublePercentage c (c + p + a)), (Spec.doublePercentage p (c + p + a)),
      (Spec.doublePercentage a (c + p + a)).
    split; [exact V |].
    repeat split; intros L; apply percentage_mono; lia.
Qed.

(** X14, witness.  The theorem at 23 completed and 17 in-progress issues. *)
Lemma calculateWorkBreakdown_ordered_witness :
  exists x y z : Z,
    calculateWorkBreakdown Inputs.run_23_17
    = WorkBreakdown.make (Fin (inject_Z x)) (Fin (inject_Z y)) (Fin (inject_Z z))
    /\ ((Spec.lengthCompleted Inputs.run_23_17 <= Spec.lengthInProgress Inputs.run_23_17)%Z
        -> (x <= y)%Z)
    /\ ((Spec.lengthInProgress Inputs.run_23_17 <= Spec.lengthCompleted Inputs.run_23_17)%Z
        -> (y <= x)%Z)
    /\ ((Spec.lengthCompleted Inputs.run_23_17 <= Spec.lengthAttention Inputs.run_23_17)%Z
        -> (x <= z)%Z)
    /\ ((Spec.lengthAttention Inputs.run_23_17 <= Spec.lengthCompleted Inputs.run_23_17)%Z
        -> (z <= x)%Z)
    /\ ((Spec.lengthInProgress Inputs.run_23_17 <= Spec.lengthAttention Inputs.run_23_17)%Z
        -> (y <= z)%Z)
    /\ ((Spec.lengthAttention Inputs.run_23_17 <= Spec.lengthInProgress Inputs.run_23_17)%Z
        -> (z <= y)%Z).
Proof.
  apply (calculateWorkBreakdown_ordered Inputs.run_23_17); vm_compute; reflexivity.
Defined.

End ShareFacts.

(* ================================================================= *)
(** ** The helper [repeat] *)

Module HandlebarsFacts.
Import ReportGenerator NumFacts RoundingFacts BreakdownFacts Handlebars Measures ShareFacts.
Open Scope string_scope.
Open Scope list_scope.

Lemma join_holes (k : nat) (sep : string) :
  Handlebars.join (List.repeat "" (S k)) sep = repeated k sep.
Proof.
  induction k as [| k IH]; [reflexivity |].
  change (List.repeat "" (S (S k))) with ("" :: List.repeat "" (S k)).
  cbn [Handlebars.join]. cbn [List.repeat] in *. rewrite IH. reflexivity.
Qed.

Lemma length_append (s t : string) :
  String.length (s ++ t) = (String.length s + String.length t)%nat.
Proof. induction s as [| a s IH]; cbn; [reflexivity | now rewrite IH]. Qed.

Lemma length_repeated (n : nat) (s : string) :
  String.length (repeated n s) = (n * String.length s)%nat.
Proof. induction n as [| n IH]; cbn; [reflexivity |]. now rewrite length_append, IH. Qed.

Open Scope Q_scope.

(** Dividing an integer by ten in doubles and flooring gives the integer
    quotient. *)
Lemma floor_tenth (p : Z) :
  (0 <= p <= 1000000)%Z ->
  Num.floor (Num.div (Num.Fin (inject_Z p)) (Num.Fin 10)) = Num.Fin (inject_Z (p / 10)).
Proof.
  intros Hp. unfold Num.div. replace (Qeq_bool 10 0) with false by reflexivity.
  assert (P0 : 0 <= inject_Z p) by (change 0 with (inject_Z 0); rewrite <- Zle_Qle; lia).
  assert (P1 : inject_Z p <= inject_Z 1000000) by (rewrite <- Zle_Qle; lia).
  change (inject_Z 1000000) with 1000000 in P1.
  set (x := inject_Z p / 10).
  assert (X0 : 0 <= x) by (unfold x; apply Qle_shift_div_l; lra).
  assert (X1 : x <= inject_Z 100000).
  { unfold x. apply Qle_shift_div_r; [lra |]. change (inject_Z 100000) with 100000. lra. }
  destruct (ofQ_bounded x 100000 X0 X1) as [E _]; [lia |].
  rewrite E. unfold Num.floor. do 2 f_equal.
  pose proof (Z.div_mod p 10 ltac:(lia)) as D.
  pose proof (Z.mod_pos_bound p 10 ltac:(lia)) as R.
  set (k := (p / 10)%Z) in *. set (r := (p mod 10)%Z) in *.
  assert (K0 : (0 <= k)%Z) by (unfold k; apply Z.div_pos; lia).
  assert (XP : x == inject_Z k + inject_Z r / 10).
  { unfold x. rewrite D, inject_Z_plus, inject_Z_mult. change (inject_Z 10) with 10. field. }
  assert (R0 : 0 <= inject_Z r) by (change 0 with (inject_Z 0); rewrite <- Zle_Qle; lia).
  assert (R9 : inject_Z r <= inject_Z 9) by (rewrite <- Zle_Qle; lia).
  change (inject_Z 9) with 9 in R9.
  assert (R10 : 0 <= inject_Z r / 10 <= 9 # 10).
  { split; [apply Qle_shift_div_l; lra | apply Qle_shift_div_r; lra]. }
  assert (Lo : inject_Z k <= Num.rnd x).
  { rewrite <- (rnd_exact (inject_Z k) k) at 1 by (reflexivity || lia).
    apply rnd_mono; [| lra]. change 0 with (inject_Z 0). rewrite <- Zle_Qle. lia. }
  assert (Er : - ((1 # 2) * Num.pow2 (16 - 52)) <= Num.rnd x - x <= (1 # 2) * Num.pow2 (16 - 52)).
  { apply rnd_error_small; [exact X0 | | lia].
    assert (Num.pow2 (16 + 1) == 131072) by reflexivity.
    change (inject_Z 100000) with 100000 in X1. lra. }
  assert (Sm : (1 # 2) * Num.pow2 (16 - 52) <= 1 # 1000000) by (vm_compute; discriminate).
  assert (F1 : (k <= Qfloor (Num.rnd x))%Z).
  { rewrite <- (Qfloor_Z k). now apply Qfloor_resp_le. }
  assert (F2 : (Qfloor (Num.rnd x) < k + 1)%Z).
  { rewrite Zlt_Qlt. pose proof (Qfloor_le (Num.rnd x)).
    rewrite inject_Z_plus. change (inject_Z 1) with 1. lra. }
  lia.
Qed.

Lemma repeat_bar (p : Z) (char : Handlebars.arg) (w : World) :
  (0 <= p <= 1000000)%Z ->
  Handlebars.repeat (number (Num.Fin (inject_Z p))) char w
  = Normal (repeated (Z.to_nat (p / 10)) (Handlebars.separator char)) w.
Proof.
  intros Hp. unfold Handlebars.repeat.
  assert (P0 : 0 <= inject_Z p) by (change 0 with (inject_Z 0); rewrite <- Zle_Qle; lia).
  replace (Num.lt (Num.Fin (inject_Z p)) (Num.Fin 0)) with false
    by (symmetry; apply negb_false_iff, Qle_bool_iff; exact P0).
  rewrite (floor_tenth p Hp).
  assert (K : (0 <= p / 10 <= 100000)%Z).
  { split; [apply Z.div_pos; lia |]. apply Z.div_le_upper_bound; lia. }
  set (k := (p / 10)%Z) in *.
  assert (A : Num.add (Num.Fin (inject_Z k)) (Num.Fin 1) = Num.Fin (inject_Z (k + 1))).
  { unfold Num.add. apply ofQ_exact; [now rewrite inject_Z_plus | lia]. }
  rewrite A. unfold bind, Handlebars.newArray. rewrite Qfloor_Z.
  replace (Qeq_bool (inject_Z (k + 1)) (inject_Z (k + 1))) with true
    by (symmetry; apply Qeq_bool_iff; reflexivity).
  replace (0 <=? k + 1)%Z with true by (symmetry; apply Z.leb_le; lia).
  replace (k + 1 <=? 2 ^ 32 - 1)%Z with true by (symmetry; apply Z.leb_le; lia).
  cbn [andb]. unfold ret.
  replace (Z.to_nat (k + 1)) with (S (Z.to_nat k)) by lia.
  now rewrite join_holes.
Qed.

(** X15.  For a whole number [p] from 0 to a million, [repeat] returns [char],
    or "=" when [char] is falsy, [p / 10] times over, the quotient rounded
    down: one cell of a bar for every full ten, so that the bar is
    [p / 10] times as long as the separator. *)
Theorem repeat_tenths (p : Z) (char : Handlebars.arg) (w : World) :
  (0 <= p <= 1000000)%Z ->
  exists bar,
    Handlebars.repeat (number (Num.Fin (inject_Z p))) char w = Normal bar w
    /\ bar = repeated (Z.to_nat (p / 10)) (Handlebars.separator char)
    /\ Z.of_nat (String.length bar)
       = (p / 10 * Z.of_nat (String.length (Handlebars.separator char)))%Z.
Proof.
  intros Hp. eexists. split; [now apply repeat_bar |]. split; [reflexivity |].
  rewrite length_repeated, Nat2Z.inj_mul, Z2Nat.id; [reflexivity |].
  apply Z.div_pos; lia.
Qed.

(** X15, witness.  The theorem at 57 percent, in "#" cells. *)
Lemma repeat_tenths_witness :
  exists bar,
    Handlebars.repeat (number (Num.Fin (inject_Z 57))) (Handlebars.val (Js.str "#"))
                      (Inputs.oneIssue Inputs.toDo Inputs.noon 0)
    = Normal bar (Inputs.oneIssue Inputs.toDo Inputs.noon 0)
    /\ bar = repeated (Z.to_nat (57 / 10)) (Handlebars.separator (Handlebars.val (Js.str "#")))
    /\ Z.of_nat (String.length bar)
       = (57 / 10 * Z.of_nat (String.length
                                (Handlebars.separator (Handlebars.val (Js.str "#")))))%Z.
Proof.
  apply (repeat_tenths 57 (Handlebars.val (Js.str "#"))
           (Inputs.oneIssue Inputs.toDo Inputs.noon 0)).
  lia.
Defined.

(** X16.  [repeat] returns the empty string when [times] is not a number or is
    negative, and throws a RangeError when it is NaN or the positive
    infinity. *)
Theorem repeat_no_bar (char : Handlebars.arg) (w : World) :
  Handlebars.repeat noNumber char w = Normal "" w
  /\ Handlebars.repeat nullNumber char w = Normal "" w
  /\ Handlebars.repeat (number (Num.Inf true)) char w = Normal "" w
  /\ (forall x, x < 0 -> Handlebars.repeat (number (Num.Fin x)) char w = Normal "" w)
  /\ Handlebars.repeat (number Num.NaN) char w = Throw RangeError
  /\ Handlebars.repeat (number (Num.Inf false)) char w = Throw RangeError.
Proof.
  repeat split; try reflexivity.
  intros x H. unfold Handlebars.repeat, Num.lt.
  replace (Qle_bool 0 x) with false; [reflexivity |].
  symmetry. destruct (Qle_bool 0 x) eqn:E; [| reflexivity].
  apply Qle_bool_iff in E. lra.
Qed.

(** X17.  The completed percentage of [calculateWorkBreakdown] makes a bar of
    at most ten cells, and this bar and the bar of what [subtract] leaves
    of 100 have ten cells together when the percentage is a multiple of
    ten and nine otherwise. *)
Theorem repeat_percentage_bar (cs : CategorizedSet.t) (cell : string) (w : World) :
  (Spec.lengthCompleted cs < 2 ^ 32)%Z ->
  (Spec.lengthInProgress cs < 2 ^ 32)%Z ->
  (Spec.lengthAttention cs < 2 ^ 32)%Z ->
  cell <> "" ->
  let done := WorkBreakdown.completedPercentage (calculateWorkBreakdown cs) in
  exists p : Z,
    done = Num.Fin (inject_Z p) /\ (0 <= p <= 100)%Z
    /\ Handlebars.repeat (number done) (Handlebars.val (Js.str cell)) w
       = Normal (repeated (Z.to_nat (p / 10)) cell) w
    /\ Handlebars.repeat (number (Handlebars.subtract (Num.Fin 100) done))
                         (Handlebars.val (Js.str cell)) w
       = Normal (repeated (Z.to_nat ((100 - p) / 10)) cell) w
    /\ (p / 10 + (100 - p) / 10 = if (p mod 10 =? 0) then 10 else 9)%Z.
Proof.
  intros Hc Hp Ha Hcell. cbv zeta.
  assert (Sep : Handlebars.separator (Handlebars.val (Js.str cell)) = cell).
  { unfold Handlebars.separator, Js.truthy.
    destruct cell as [| a s]; [contradiction | reflexivity]. }
  assert (V : exists p : Z,
             WorkBreakdown.completedPercentage (calculateWorkBreakdown cs)
             = Num.Fin (inject_Z p) /\ (0 <= p <= 100)%Z).
  { pose proof (total_exact cs Hc Hp Ha) as T.
    assert (Nc : (0 <= Spec.lengthCompleted cs)%Z) by apply Nat2Z.is_nonneg.
    assert (Np : (0 <= Spec.lengthInProgress cs)%Z) by apply Nat2Z.is_nonneg.
    assert (Na : (0 <= Spec.lengthAttention cs)%Z) by apply Nat2Z.is_nonneg.
    destruct (Z.eq_dec (Spec.lengthCompleted cs + Spec.lengthInProgress cs
                        + Spec.lengthAttention cs) 0) as [Z0 | NZ].
    - exists 0%Z. split; [| lia]. unfold calculateWorkBreakdown. rewrite T, Z0. reflexivity.
    - rewrite (calculateWorkBreakdown_value cs Hc Hp Ha NZ).
      cbn [WorkBreakdown.completedPercentage]. eexists. split; [reflexivity |].
      destruct (share_bounds (Spec.lengthCompleted cs)
                  (Spec.lengthCompleted cs + Spec.lengthInProgress cs + Spec.lengthAttention cs))
        as (x & _ & Vx & Bx); [lia | |].
      + assert (B : (2 ^ 32 * 4 < 2 ^ 53)%Z) by reflexivity. lia.
      + unfold Spec.doublePercentage. now rewrite <- Vx. }
  destruct V as (p & -> & Bp). exists p. split; [reflexivity |]. split; [exact Bp |].
  split; [| split].
  - rewrite repeat_bar by lia. now rewrite Sep.
  - unfold Handlebars.subtract. change (Num.Fin 100) with (Num.Fin (inject_Z 100)).
    unfold Num.sub, Num.neg, Num.add.
    rewrite (ofQ_exact _ (100 - p)).
    + rewrite repeat_bar by lia. now rewrite Sep.
    + unfold Z.sub. rewrite inject_Z_plus, inject_Z_opp. reflexivity.
    + lia.
  - destruct (Z.eqb_spec (p mod 10) 0) as [M | M].
    + pose proof (Z.div_mod p 10 ltac:(lia)) as D. rewrite M in D.
      replace (100 - p)%Z with ((10 - p / 10) * 10)%Z by lia.
      rewrite Z.div_mul by lia. lia.
    + pose proof (Z.div_mod p 10 ltac:(lia)) as D.
      pose proof (Z.mod_pos_bound p 10 ltac:(lia)) as R.
      assert (Q : ((100 - p) / 10 = 9 - p / 10)%Z); [| lia].
      symmetry. apply (Z.div_unique (100 - p) 10 (9 - p / 10) (10 - p mod 10)); lia.
Qed.

(** X17, witness.  The theorem at 23 completed and 17 in-progress issues, in "#" cells. *)
Lemma repeat_percentage_bar_witness :
  let w := Inputs.oneIssue Inputs.toDo Inputs.noon 0 in
  let done := WorkBreakdown.completedPercentage (calculateWorkBreakdown Inputs.run_23_17) in
  exists p : Z,
    done = Num.Fin (inject_Z p) /\ (0 <= p <= 100)%Z
    /\ Handlebars.repeat (number done) (Handlebars.val (Js.str "#")) w
       = Normal (repeated (Z.to_nat (p / 10)) "#") w
    /\ Handlebars.repeat (number (Handlebars.subtract (Num.Fin 100) done))
                         (Handlebars.val (Js.str "#")) w
       = Normal (repeated (Z.to_nat ((100 - p) / 10)) "#") w
    /\ (p / 10 + (100 - p) / 10 = if (p mod 10 =? 0) then 10 else 9)%Z.
Proof.
  apply (repeat_percentage_bar Inputs.run_23_17 "#" (Inputs.oneIssue Inputs.toDo Inputs.noon 0));
    try (vm_compute; reflexivity).
  discriminate.
Defined.

End HandlebarsFacts.

(* ================================================================= *)
(** ** What the report generators compute from a categorisation *)

Module ReportFacts.
Import ReportGenerator Conditions Invariants Spec CategorizeFacts NumFacts BreakdownFacts
  Steps Measures StepFacts BucketFacts TimeFacts ShareFacts.
Open Scope string_scope.
Open Scope list_scope.

Lemma length_copies_le test steps : (List.length (copies test steps) <= List.length steps)%nat.
Proof. unfold copies. rewrite length_map. apply filter_length_le. Qed.


Lemma length_stepsIn w issues : List.length (stepsIn w issues) = List.length issues.
Proof.
  unfold stepsIn.
  rewrite <- (length_map src), stepsOf_src. apply length_map.
Qed.

Lemma filter_length_and {A} (p q : A -> bool) (l : list A) :
  (List.length (filter (fun x => p x && q x) l) <= List.length (filter p l))%nat.
Proof.
  induction l as [| x l IH]; [apply le_n |].
  cbn. destruct (p x); cbn; [destruct (q x); cbn; lia | exact IH].
Qed.

Open Scope Q_scope.



(** X19.  The completion rate of a trend analysis made from the sub-epic items
    of a categorisation, as the report generators make it, is a whole
    number from 0 to 100, and 0 when there are no such items. *)
Theorem report_completionRate (issues : list ref) (w : World) :
  (forall r, In r issues -> (r < brk w)%nat) ->
  (Z.of_nat (List.length issues) < 2 ^ 32)%Z ->
  exists cs w' rate,
    categorizeJiraCliIssues issues w = Normal cs w'
    /\ TrendAnalysis.completionRate (Category.completed (CategorizedSet.subEpicItems cs))
                                    (CategorizedSet.all cs)
       = Num.Fin (inject_Z rate)
    /\ (0 <= rate <= 100)%Z
    /\ (CategorizedSet.all cs = [] -> rate = 0%Z)
    /\ TrendAnalysis.totalItems (CategorizedSet.all cs)
       = Num.Fin (inject_Z (Z.of_nat (List.length (CategorizedSet.all cs))))
    /\ (List.length (CategorizedSet.all cs) <= List.length issues)%nat.
Proof.
  intros V L. destruct (categorizeJiraCliIssues_steps issues w V) as (w' & E & _ & _).
  set (steps := stepsIn w issues) in *.
  set (c := applySteps (oneWeekAgoOf w) (nowOf w) steps Categorized.empty) in *.
  destruct (applySteps_buckets (oneWeekAgoOf w) (nowOf w) steps Categorized.empty)
    as (A1 & _).
  destruct (applySteps_level_buckets (oneWeekAgoOf w) (nowOf w) false steps Categorized.empty)
    as (B1 & _).
  fold c in A1, B1. cbv zeta in B1.
  cbn [Categorized.empty Categorized.all Categorized.subEpicItems Category.empty
       Category.completed app] in A1, B1.
  pose proof (length_stepsIn w issues) as LS. fold steps in LS.
  cbn [resultOf CategorizedSet.subEpicItems CategorizedSet.all].
  set (all := Categorized.all c) in *.
  set (completed := Category.completed (Categorized.subEpicItems c)) in *.
  assert (La : (List.length all <= List.length steps)%nat)
    by (rewrite A1; apply length_copies_le).
  assert (Lc : (List.length completed <= List.length all)%nat).
  { rewrite A1, B1. unfold copies. rewrite !length_map.
    rewrite (filter_ext (fun s => Bool.eqb (epicLevel s) false && completes s)
                        (fun s => negb (epicLevel s) && completes s))
      by (intros s; now destruct (epicLevel s)).
    apply filter_length_and. }
  assert (B : (2 ^ 32 < 2 ^ 53)%Z) by reflexivity.
  assert (T : TrendAnalysis.totalItems all = Num.Fin (inject_Z (Z.of_nat (List.length all)))).
  { unfold TrendAnalysis.totalItems. apply ofNat_exact. lia. }
  destruct (List.length all) as [| n] eqn:N.
  - exists (resultOf c), w', 0%Z. split; [exact E |].
    cbn [resultOf CategorizedSet.subEpicItems CategorizedSet.all]. fold all completed.
    unfold TrendAnalysis.completionRate. rewrite N.
    repeat split; try lia; try reflexivity. exact T.
  - destruct (share_bounds (Z.of_nat (List.length completed)) (Z.of_nat (S n)))
      as (k & Ek & _ & Bk); [lia | lia |].
    exists (resultOf c), w', k. split; [exact E |].
    cbn [resultOf CategorizedSet.subEpicItems CategorizedSet.all]. fold all completed.
    unfold TrendAnalysis.completionRate. rewrite N.
    rewrite !ofNat_exact by lia.
    replace (Num.gt (Num.Fin (inject_Z (Z.of_nat (S n)))) (Num.Fin 0)) with true.
    + split; [exact Ek |]. split; [exact Bk |]. split.
      * intros A. rewrite A in N. discriminate.
      * split; [exact T | lia].
    + symmetry. change (Num.Fin 0) with (Num.Fin (inject_Z 0)). rewrite gt_Z.
      apply Z.ltb_lt. lia.
Qed.

(** X19, witness.  The theorem on the three issues of [Samples.board]. *)
Lemma report_completionRate_witness :
  exists cs w' rate,
    categorizeJiraCliIssues Samples.boardIssues Samples.board = Normal cs w'
    /\ TrendAnalysis.completionRate (Category.completed (CategorizedSet.subEpicItems cs))
                                    (CategorizedSet.all cs)
       = Num.Fin (inject_Z rate)
    /\ (0 <= rate <= 100)%Z
    /\ (CategorizedSet.all cs = [] -> rate = 0%Z)
    /\ TrendAnalysis.totalItems (CategorizedSet.all cs)
       = Num.Fin (inject_Z (Z.of_nat (List.length (CategorizedSet.all cs))))
    /\ (List.length (CategorizedSet.all cs) <= List.length Samples.boardIssues)%nat.
Proof.
  apply (report_completionRate Samples.boardIssues Samples.board).
  - intros r [<- | [<- | [<- | []]]]; cbn; lia.
  - cbn. lia.
Defined.

(** X20.  No entry of [weeklyMetrics] lacks a value or holds NaN: a missing or
    NaN count is 0 there, while [calculateVelocityMetrics] passes the
    missing value on; the list has one entry per sample; and a sample
    with both a week ending and a sprint is labelled by the week ending
    in [weeklyMetrics] and by the sprint in the velocity data. *)
Theorem weeklyMetrics_values (velocityData : option (list Sample.t)) :
  let metrics := TrendAnalysis.weeklyMetrics velocityData in
  Forall (fun m => TrendAnalysis.completed m <> Num.NaN
                   /\ TrendAnalysis.storyPoints m <> Num.NaN
                   /\ Js.truthy (TrendAnalysis.period m) = true) metrics
  /\ List.length metrics = List.length (Velocity.data (calculateVelocityMetrics velocityData))
  /\ forall i s m p,
       velocityData = Some s ->
       nth_error metrics i = Some m ->
       nth_error (Velocity.data (calculateVelocityMetrics velocityData)) i = Some p ->
       exists item, nth_error s i = Some item
         /\ (Js.truthy (Sample.weekEnding item) = true ->
             Js.truthy (Sample.sprint item) = true ->
             TrendAnalysis.period m = Sample.weekEnding item
             /\ DataPoint.period p = Sample.sprint item).
Proof.
  cbv zeta. destruct velocityData as [[| p0 l] |].
  - split; [constructor |]. split; [reflexivity |]. intros [| i] s m p _ H; discriminate.
  - split; [| split].
    + unfold TrendAnalysis.weeklyMetrics. apply Forall_map. apply Forall_forall.
      intros item _. cbn [TrendAnalysis.completed TrendAnalysis.storyPoints TrendAnalysis.period].
      assert (Z : forall v, TrendAnalysis.orZero v <> Num.NaN).
      { intros [| | [| s | x]]; cbn; try discriminate.
        destruct (negb (Qeq_bool x 0)); discriminate. }
      split; [apply Z |]. split; [apply Z |].
      unfold Js.or at 1. destruct (Js.truthy (Js.or _ _)) eqn:T; [exact T | reflexivity].
    + unfold TrendAnalysis.weeklyMetrics, calculateVelocityMetrics. cbn [Velocity.data].
      now rewrite !length_map.
    + intros i s m p Hs Hm Hp. injection Hs as <-.
      unfold TrendAnalysis.weeklyMetrics in Hm.
      unfold calculateVelocityMetrics in Hp. cbn [Velocity.data] in Hp.
      rewrite nth_error_map in Hm, Hp.
      destruct (nth_error (p0 :: l) i) as [item |]; [| discriminate].
      exists item. split; [reflexivity |]. intros W S.
      cbn in Hm, Hp. injection Hm as <-. injection Hp as <-.
      cbn [TrendAnalysis.period DataPoint.period].
      assert (O : forall a b, Js.truthy a = true -> Js.or a b = a)
        by (intros a b H; unfold Js.or; now rewrite H).
      rewrite (O (Sample.weekEnding item)), (O (Sample.sprint item)) by assumption.
      rewrite !O by assumption. now split.
  - split; [constructor |]. split; [reflexivity |]. intros [| i] s m p H; discriminate.
Qed.

Lemma length_filter_src (p : Issue.t -> bool) (steps : list step) :
  List.length (filter (fun s => p (src s)) steps)
  = List.length (filter p (List.map src steps)).
Proof. now rewrite filter_map_comm, length_map. Qed.

Lemma length_filter_split {A} (p q : A -> bool) (l : list A) :
  (forall x, p x = true -> q x = false) ->
  (List.length (filter p l) + List.length (filter q l)
   = List.length (filter (fun x => p x || q x) l))%nat.
Proof.
  intros D. induction l as [| x l IH]; [reflexivity |].
  cbn. destruct (p x) eqn:P; cbn.
  - rewrite (D x P). cbn. now rewrite IH.
  - destruct (q x); cbn; lia.
Qed.

Lemma length_filter_not {A} (p : A -> bool) (l : list A) :
  (List.length (filter p l) + List.length (filter (fun x => negb (p x)) l)
   = List.length l)%nat.
Proof.
  induction l as [| x l IH]; [reflexivity |].
  cbn. destruct (p x); cbn; lia.
Qed.

(** X21.  The counts of a report: [subEpicIssues] is the number of input issues
    below epic level, while [epicIssues] counts an epic-level issue once
    when it is completed or in progress and once more when it is new, so
    an epic-level issue that is none of these is not counted and one that
    is new and in progress is counted twice. *)
Theorem report_issue_counts (issues : list ref) (w : World) :
  (forall r, In r issues -> (r < brk w)%nat) ->
  (Z.of_nat (List.length issues) < 2 ^ 32)%Z ->
  let objects := List.map (heap w) issues in
  let topLevel := filter isEpicLevel objects in
  let settled := filter (fun o => isEpicLevel o && (completionTest o || inProgressTest o))
                        objects in
  exists cs w',
    categorizeJiraCliIssues issues w = Normal cs w'
    /\ ReportData.totalIssues issues = Num.Fin (inject_Z (Z.of_nat (List.length issues)))
    /\ ReportData.subEpicIssues cs
       = Num.Fin (inject_Z (Z.of_nat (List.length issues - List.length topLevel)))
    /\ ReportData.epicIssues cs
       = Num.Fin (inject_Z (Z.of_nat
                    (List.length settled
                     + List.length (Category.newIssues (CategorizedSet.epics cs)))))
    /\ (List.length settled <= List.length topLevel)%nat
    /\ (List.length (Category.newIssues (CategorizedSet.epics cs))
        <= List.length topLevel)%nat.
Proof.
  intros V L objects topLevel settled.
  destruct (categorizeJiraCliIssues_steps issues w V) as (w' & E & _ & _).
  set (steps := stepsIn w issues) in *.
  set (c := applySteps (oneWeekAgoOf w) (nowOf w) steps Categorized.empty) in *.
  destruct (applySteps_buckets (oneWeekAgoOf w) (nowOf w) steps Categorized.empty)
    as (A1 & _).
  destruct (applySteps_level_buckets (oneWeekAgoOf w) (nowOf w) true steps Categorized.empty)
    as (B1 & B2 & B3 & _).
  fold c in A1, B1, B2, B3. cbv zeta in B1, B2, B3.
  cbn [Categorized.empty Categorized.all Categorized.epics Category.empty
       Category.completed Category.inProgress Category.newIssues app] in A1, B1, B2, B3.
  assert (Src : List.map src steps = objects).
  { unfold steps, stepsIn, objects. apply stepsOf_src. }
  pose proof (length_stepsIn w issues) as LS. fold steps in LS.
  assert (Lo : List.length objects = List.length issues) by apply length_map.
  assert (B : (2 ^ 32 * 4 < 2 ^ 53)%Z) by reflexivity.
  (* the lengths of the arrays *)
  assert (Lall : List.length (Categorized.all c)
                 = (List.length issues - List.length topLevel)%nat).
  { rewrite A1. unfold copies. rewrite length_map.
    rewrite (length_filter_src (fun o => negb (isEpicLevel o))), Src.
    pose proof (length_filter_not isEpicLevel objects). fold topLevel in H. lia. }
  assert (Lset : (List.length (Category.completed (Categorized.epics c))
                  + List.length (Category.inProgress (Categorized.epics c))
                  = List.length settled)%nat).
  { rewrite B1, B2. unfold copies. rewrite !length_map.
    rewrite (length_filter_src (fun o => Bool.eqb (isEpicLevel o) true && completionTest o)).
    rewrite (length_filter_src
               (fun o => Bool.eqb (isEpicLevel o) true
                         && (negb (completionTest o) && inProgressTest o))).
    rewrite Src, length_filter_split.
    - unfold settled. f_equal. apply filter_ext. intros o.
      destruct (isEpicLevel o), (completionTest o), (inProgressTest o); reflexivity.
    - intros o. destruct (isEpicLevel o), (completionTest o), (inProgressTest o);
        cbn; congruence. }
  assert (Lnew : (List.length (Category.newIssues (Categorized.epics c))
                  <= List.length topLevel)%nat).
  { rewrite B3. unfold copies. rewrite length_map.
    etransitivity; [apply (filter_length_and (fun s => Bool.eqb (epicLevel s) true)) |].
    rewrite (length_filter_src (fun o => Bool.eqb (isEpicLevel o) true)), Src.
    unfold topLevel.
    rewrite (filter_ext (fun o => Bool.eqb (isEpicLevel o) true) isEpicLevel)
      by (intros o; now destruct (isEpicLevel o)).
    apply le_n. }
  assert (Lse : (List.length settled <= List.length topLevel)%nat).
  { unfold settled, topLevel. apply filter_length_and. }
  assert (Le : (List.length topLevel <= List.length issues)%nat).
  { rewrite <- Lo. apply filter_length_le. }
  exists (resultOf c), w'. split; [exact E |].
  split; [apply ofNat_exact; lia |].
  split.
  { unfold ReportData.subEpicIssues. cbn [resultOf CategorizedSet.all].
    rewrite Lall. apply ofNat_exact. lia. }
  split; [| split; [exact Lse | exact Lnew]].
  unfold ReportData.epicIssues. cbv zeta. cbn [resultOf CategorizedSet.epics].
  rewrite <- Lset.
  set (x := List.length (Category.completed (Categorized.epics c))) in *.
  set (y := List.length (Category.inProgress (Categorized.epics c))) in *.
  set (z := List.length (Category.newIssues (Categorized.epics c))) in *.
  rewrite !ofNat_exact by lia.
  unfold Num.add at 2. rewrite (ofQ_exact _ (Z.of_nat x + Z.of_nat y)).
  - unfold Num.add. apply ofQ_exact; [| lia].
    rewrite <- inject_Z_plus. rewrite !Nat2Z.inj_add. reflexivity.
  - now rewrite <- inject_Z_plus.
  - lia.
Qed.

(** X21, witness.  The theorem on the three issues of [Samples.board]. *)
Lemma report_issue_counts_witness :
  let objects := List.map (heap Samples.board) Samples.boardIssues in
  let topLevel := filter isEpicLevel objects in
  let settled := filter (fun o => isEpicLevel o && (completionTest o || inProgressTest o))
                        objects in
  exists cs w',
    categorizeJiraCliIssues Samples.boardIssues Samples.board = Normal cs w'
    /\ ReportData.totalIssues Samples.boardIssues
       = Num.Fin (inject_Z (Z.of_nat (List.length Samples.boardIssues)))
    /\ ReportData.subEpicIssues cs
       = Num.Fin (inject_Z (Z.of_nat (List.length Samples.boardIssues
                                      - List.length topLevel)))
    /\ ReportData.epicIssues cs
       = Num.Fin (inject_Z (Z.of_nat
                    (List.length settled
                     + List.length (Category.newIssues (CategorizedSet.epics cs)))))
    /\ (List.length settled <= List.length topLevel)%nat
    /\ (List.length (Category.newIssues (CategorizedSet.epics cs))
        <= List.length topLevel)%nat.
Proof.
  apply (report_issue_counts Samples.boardIssues Samples.board).
  - intros r [<- | [<- | [<- | []]]]; cbn; lia.
  - cbn. lia.
Defined.

End ReportFacts.
